(** * Solace: the from-scratch prompt compressor and the answer check of its benchmark

    A shallow embedding of [src/compression/scratch.py] (token scoring,
    selection, chunking) and of [verify_answer] from
    [src/compression/longbench.py], followed by the properties proved about
    them.

    Modelling conventions.
    - Python floats and numpy float arrays are the rationals they denote
      ([Q], [list Q]); rounding is not modelled.  [int(x)] truncates toward
      zero.  Python's [/] raises [ZeroDivisionError] on a zero divisor.
    - Python [int] is [Z]; lengths and loop indices, which are never
      negative, are [nat].
    - Python [str] is [string]; texts are ASCII, so [upper], [lower] and the
      character classes act on ASCII characters.
    - Exceptions are the [Raise] results of a small error monad.
    - The pretrained models and tokenizers (transformers, sentence
      transformers, tiktoken) are not part of the repository: they are the
      fields of the record [Runtime], and every property is stated for an
      arbitrary runtime. *)

From Stdlib Require Import ZArith QArith Qround List String Ascii Bool Lia.
From Stdlib Require Import Sorted Permutation Lqa.
Import ListNotations.

Open Scope string_scope.
Open Scope Z_scope.
Open Scope Q_scope.

(* ===================================================================== *)
(** * Python values and helpers                                           *)
(* ===================================================================== *)

Module Py.

(** The exceptions the modelled code can raise. *)
Inductive exn : Type :=
| ZeroDivisionError
| IndexError
| ValueError.

Inductive result (A : Type) : Type :=
| Ok (a : A)
| Raise (e : exn).

Arguments Ok {A} a.
Arguments Raise {A} e.

Definition bind {A B : Type} (m : result A) (f : A -> result B) : result B :=
  match m with
  | Ok a => f a
  | Raise e => Raise e
  end.

Fixpoint mapM {A B : Type} (f : A -> result B) (l : list A) : result (list B) :=
  match l with
  | [] => Ok []
  | a :: rest =>
      bind (f a) (fun b => bind (mapM f rest) (fun bs => Ok (b :: bs)))
  end.

(** ** Numbers *)

Definition Qlt_bool (x y : Q) : bool := negb (Qle_bool y x).

(** [max(a, b)] and [min(a, b)] on floats: the first argument is kept unless
    the second is strictly better. *)
Definition py_max (a b : Q) : Q := if Qlt_bool a b then b else a.
Definition py_min (a b : Q) : Q := if Qlt_bool b a then b else a.

(** [int(x)]: truncation toward zero. *)
Definition py_int (x : Q) : Z := Z.quot (Qnum x) (Zpos (Qden x)).

(** [a / b] on floats. *)
Definition py_div (a b : Q) : result Q :=
  if Qeq_bool b 0 then Raise ZeroDivisionError else Ok (a / b).

Definition Qofnat (n : nat) : Q := inject_Z (Z.of_nat n).

(** ** Sequences *)

(** [l[i]] for a non-negative index. *)
Definition get_item {A : Type} (l : list A) (i : nat) : result A :=
  match nth_error l i with
  | Some a => Ok a
  | None => Raise IndexError
  end.

(** [l[i]] for a Python integer: a negative index counts from the end. *)
Definition py_getitem {A : Type} (l : list A) (i : Z) : result A :=
  let n := Z.of_nat (List.length l) in
  if (0 <=? i)%Z then get_item l (Z.to_nat i)
  else if (- n <=? i)%Z then get_item l (Z.to_nat (n + i))
  else Raise IndexError.

(** [l[i] = v] on an array. *)
Fixpoint set_item {A : Type} (l : list A) (i : nat) (v : A) : result (list A) :=
  match l, i with
  | [], _ => Raise IndexError
  | _ :: rest, O => Ok (v :: rest)
  | a :: rest, S j => bind (set_item rest j v) (fun rest' => Ok (a :: rest'))
  end.

(** [a[lo:hi] = v] on a numpy array whose first element has index [i]: the
    positions [lo <= j < hi] that exist are overwritten, the length never
    changes. *)
Fixpoint slice_fill_from {A : Type} (i lo hi : nat) (v : A) (a : list A) : list A :=
  match a with
  | [] => []
  | x :: rest =>
      (if (lo <=? i)%nat && (i <? hi)%nat then v else x)
        :: slice_fill_from (S i) lo hi v rest
  end.

Definition slice_fill {A : Type} (a : list A) (lo hi : nat) (v : A) : list A :=
  slice_fill_from 0 lo hi v a.

(** Elementwise operations of numpy on arrays of one shape. *)
Fixpoint map2 {A B C : Type} (f : A -> B -> C) (a : list A) (b : list B) : list C :=
  match a, b with
  | x :: a', y :: b' => f x y :: map2 f a' b'
  | _, _ => []
  end.

Definition vscale (c : Q) (a : list Q) : list Q := map (fun x => c * x) a.
Definition vadd (a b : list Q) : list Q := map2 Qplus a b.
Definition vmul (a b : list Q) : list Q := map2 Qmult a b.

Definition Qsum (a : list Q) : Q := fold_left Qplus a 0.

(** [np.mean]. *)
Definition np_mean (a : list Q) : Q := Qsum a / Qofnat (List.length a).

(** [x.max()] and [x.min()]: an empty array raises [ValueError]. *)
Definition amax (x : list Q) : result Q :=
  match x with
  | [] => Raise ValueError
  | x0 :: rest => Ok (fold_left py_max rest x0)
  end.

Definition amin (x : list Q) : result Q :=
  match x with
  | [] => Raise ValueError
  | x0 :: rest => Ok (fold_left py_min rest x0)
  end.

(** [np.sort]: ascending order. *)
Fixpoint sort_insert (x : Q) (l : list Q) : list Q :=
  match l with
  | [] => [x]
  | y :: rest => if Qle_bool x y then x :: l else y :: sort_insert x rest
  end.

Fixpoint np_sort (l : list Q) : list Q :=
  match l with
  | [] => []
  | x :: rest => sort_insert x (np_sort rest)
  end.

(** ** Characters and strings *)

Definition code (c : ascii) : nat := nat_of_ascii c.

Definition in_range (lo hi : nat) (c : ascii) : bool :=
  (lo <=? code c)%nat && (code c <=? hi)%nat.

(** [str.isspace] on an ASCII character, which is also the class [\s]. *)
Definition is_space (c : ascii) : bool :=
  in_range 9 13 c || in_range 28 32 c.

Definition is_upper (c : ascii) : bool := in_range 65 90 c.
Definition is_lower (c : ascii) : bool := in_range 97 122 c.
Definition is_digit (c : ascii) : bool := in_range 48 57 c.

(** The class [[a-zA-Z0-9]]. *)
Definition is_alnum (c : ascii) : bool := is_upper c || is_lower c || is_digit c.

(** The class [\w]. *)
Definition is_word (c : ascii) : bool := is_alnum c || (code c =? 95)%nat.

Definition upper_char (c : ascii) : ascii :=
  if is_lower c then ascii_of_nat (code c - 32) else c.

Definition lower_char (c : ascii) : ascii :=
  if is_upper c then ascii_of_nat (code c + 32) else c.

Fixpoint smap (f : ascii -> ascii) (s : string) : string :=
  match s with
  | EmptyString => EmptyString
  | String c rest => String (f c) (smap f rest)
  end.

Definition upper (s : string) : string := smap upper_char s.
Definition lower (s : string) : string := smap lower_char s.

Fixpoint srev_onto (s acc : string) : string :=
  match s with
  | EmptyString => acc
  | String c rest => srev_onto rest (String c acc)
  end.

Definition srev (s : string) : string := srev_onto s EmptyString.

Fixpoint lstrip (s : string) : string :=
  match s with
  | EmptyString => EmptyString
  | String c rest => if is_space c then lstrip rest else s
  end.

Definition rstrip (s : string) : string := srev (lstrip (srev s)).

(** [s.strip()]. *)
Definition strip (s : string) : string := rstrip (lstrip s).

(** [s.split()]: the maximal runs of non-whitespace characters.  [cur] is
    the word being read, if any. *)
Fixpoint split_from (cur : option string) (s : string) : list string :=
  match s with
  | EmptyString =>
      match cur with
      | Some w => [w]
      | None => []
      end
  | String c rest =>
      if is_space c then
        match cur with
        | Some w => w :: split_from None rest
        | None => split_from None rest
        end
      else
        match cur with
        | Some w => split_from (Some (w ++ String c EmptyString)) rest
        | None => split_from (Some (String c EmptyString)) rest
        end
  end.

Definition split (s : string) : list string := split_from None s.

(** [sep.join(l)]. *)
Definition join (sep : string) (l : list string) : string := String.concat sep l.

(** [s.startswith(p)]. *)
Definition startswith (s p : string) : bool := String.prefix p s.

(** [p in s] on strings. *)
Fixpoint contains (p s : string) : bool :=
  String.prefix p s
  || match s with
     | EmptyString => false
     | String _ rest => contains p rest
     end.

(** [s.replace("##", "")]: the occurrences are found left to right and do
    not overlap. *)
Fixpoint remove_hashes (s : string) : string :=
  match s with
  | EmptyString => EmptyString
  | String c rest =>
      match rest with
      | EmptyString => s
      | String c2 rest2 =>
          if ((code c =? 35) && (code c2 =? 35))%nat then remove_hashes rest2
          else String c (remove_hashes rest)
      end
  end.

End Py.

(* ===================================================================== *)
(** * The regular expressions of the sources                              *)
(* ===================================================================== *)

Module Re.
Import Py.

(** The lookbehind class [[.!?]]. *)
Definition is_terminal (c : ascii) : bool :=
  ((code c =? 46) || (code c =? 33) || (code c =? 63))%nat.

Definition after_terminal (prev : option ascii) : bool :=
  match prev with
  | Some p => is_terminal p
  | None => false
  end.

(** [re.split(r'(?<=[.!?])\s+', text)].  [prev] is the character before the
    position read, [skipping] tells that a separator is being consumed, and
    [cur] is the piece read since the last separator. *)
Fixpoint split_sentences_from
    (prev : option ascii) (skipping : bool) (cur : string) (s : string)
    : list string :=
  match s with
  | EmptyString => [cur]
  | String c rest =>
      if is_space c then
        if skipping then split_sentences_from (Some c) true cur rest
        else if after_terminal prev then
          cur :: split_sentences_from (Some c) true EmptyString rest
        else split_sentences_from (Some c) false (cur ++ String c EmptyString) rest
      else split_sentences_from (Some c) false (cur ++ String c EmptyString) rest
  end.

Definition split_sentences (text : string) : list string :=
  split_sentences_from None false EmptyString text.

(** [re.sub(r'\s+', ' ', s)]. *)
Fixpoint collapse_spaces_from (in_run : bool) (s : string) : string :=
  match s with
  | EmptyString => EmptyString
  | String c rest =>
      if is_space c then
        if in_run then collapse_spaces_from true rest
        else String " " (collapse_spaces_from true rest)
      else String c (collapse_spaces_from false rest)
  end.

Definition collapse_spaces (s : string) : string := collapse_spaces_from false s.

(** [re.sub(r'\*+', '', s)]. *)
Fixpoint remove_stars (s : string) : string :=
  match s with
  | EmptyString => EmptyString
  | String c rest =>
      if (code c =? 42)%nat then remove_stars rest else String c (remove_stars rest)
  end.

(** [re.search(r'[a-zA-Z0-9]', tok)] as a truth value. *)
Fixpoint has_alnum (s : string) : bool :=
  match s with
  | EmptyString => false
  | String c rest => is_alnum c || has_alnum rest
  end.

(** The patterns of [verify_answer] are sequences of these items. *)
Inductive atom : Type :=
| Lit (c : ascii)                 (* a literal character *)
| Cap (cls : ascii -> bool)       (* [([...])]: group 1, one character of a class *)
| StarCls (cls : ascii -> bool)   (* [[...]*], greedy *)
| OptLit (c : ascii)              (* [c?], greedy *)
| WordB                           (* [\b] *)
| Bol.                            (* [^] *)

Definition pattern : Type := list atom.

Definition word_before (prev : option ascii) : bool :=
  match prev with
  | Some p => is_word p
  | None => false
  end.

Definition word_after (s : string) : bool :=
  match s with
  | String c _ => is_word c
  | EmptyString => false
  end.

(** A backtracking match of [p] at one position: [prev] is the character
    before it ([None] at the start of the string) and [cap] the content of
    group 1 so far.  [Some g] is a match whose group 1 is [g]. *)
Fixpoint match_here
    (p : pattern) (prev : option ascii) (cap : option ascii) (s : string)
    {struct p} : option (option ascii) :=
  match p with
  | [] => Some cap
  | Lit c :: p' =>
      match s with
      | String d s' => if Ascii.eqb c d then match_here p' (Some d) cap s' else None
      | EmptyString => None
      end
  | Cap cls :: p' =>
      match s with
      | String d s' => if cls d then match_here p' (Some d) (Some d) s' else None
      | EmptyString => None
      end
  | OptLit c :: p' =>
      match s with
      | String d s' =>
          if Ascii.eqb c d then
            match match_here p' (Some d) cap s' with
            | Some g => Some g
            | None => match_here p' prev cap s
            end
          else match_here p' prev cap s
      | EmptyString => match_here p' prev cap s
      end
  | StarCls cls :: p' =>
      (fix star (prev : option ascii) (s : string) {struct s} :=
         match s with
         | String d s' =>
             if cls d then
               match star (Some d) s' with
               | Some g => Some g
               | None => match_here p' prev cap s
               end
             else match_here p' prev cap s
         | EmptyString => match_here p' prev cap s
         end) prev s
  | WordB :: p' =>
      if xorb (word_before prev) (word_after s) then match_here p' prev cap s
      else None
  | Bol :: p' =>
      match prev with
      | None => match_here p' prev cap s
      | Some _ => None
      end
  end.

(** [re.search]: the match at the leftmost position that has one. *)
Fixpoint search_from (p : pattern) (prev : option ascii) (s : string)
    : option (option ascii) :=
  match match_here p prev None s with
  | Some g => Some g
  | None =>
      match s with
      | String c rest => search_from p (Some c) rest
      | EmptyString => None
      end
  end.

Definition search (p : pattern) (s : string) : option (option ascii) :=
  search_from p None s.

Fixpoint lits (s : string) : pattern :=
  match s with
  | EmptyString => []
  | String c rest => Lit c :: lits rest
  end.

End Re.

(* ===================================================================== *)
(** * [src/compression/scratch.py]                                        *)
(* ===================================================================== *)

Module Scratch.
Import Py Re.

Notation "x <- m ;; k" := (bind m (fun x => k))
  (at level 61, m at next level, right associativity).

(** ** Configuration and result records *)

Record CompressorConfig : Type := {
  encoder_model : string;
  use_query_aware : bool;
  attention_weight : Q;
  semantic_weight : Q;
  query_weight : Q;
  target_ratio : Q;
  min_tokens : Z;
  hard_threshold : Q;
  layer_weighting : string;
  preserve_structure : bool;
  chunk_size : Z;
  use_position_bias : bool;
  position_boost_start : Q;
  position_boost_end : Q
}.

(** The defaults of the dataclass. *)
Definition default_config : CompressorConfig := {|
  encoder_model := "distilbert-base-uncased";
  use_query_aware := true;
  attention_weight := 4 # 10;
  semantic_weight := 3 # 10;
  query_weight := 3 # 10;
  target_ratio := 34 # 100;
  min_tokens := 50;
  hard_threshold := 0;
  layer_weighting := "linear";
  preserve_structure := true;
  chunk_size := 450;
  use_position_bias := true;
  position_boost_start := 12 # 10;
  position_boost_end := 11 # 10
|}.

Record CompressionResult : Type := {
  original_text : string;
  compressed_text : string;
  original_tokens : nat;
  compressed_tokens : nat;
  token_scores : list Q;
  kept_indices : list nat;
  compression_ratio : Q
}.

(** [reduction_pct]. *)
Definition reduction_pct (r : CompressionResult) : Q :=
  (1 - compression_ratio r) * 100.

(** ** The models behind the scorer

    One encoder pass yields, for every token of the (truncated) input, its
    surface form, its identifier, the raw attention score of
    [_get_attention_scores] and the raw semantic score of
    [_get_semantic_scores]; the tensor arithmetic of those two methods is
    left to the runtime. *)
Record EncodedToken : Type := {
  tok : string;
  tid : Z;
  attn_raw : Q;
  sem_raw : Q
}.

Record Runtime : Type := {
  (** [tokenizer(text, truncation=True, max_length=chunk_size)] followed by
      the forward pass; the arguments are [encoder_model],
      [layer_weighting], [chunk_size] and the text. *)
  encoder_forward : string -> string -> Z -> string -> list EncodedToken;
  (** [tokenizer.all_special_ids] of [encoder_model]. *)
  all_special_ids : string -> list Z;
  (** [tokenizer.convert_tokens_to_string] of [encoder_model]. *)
  convert_tokens_to_string : string -> list string -> string;
  (** Cosine similarity of the sentence embeddings of a query and a
      sentence. *)
  sentence_similarity : string -> string -> Q;
  (** [len(tiktoken_encoder.encode(text, disallowed_special=()))]. *)
  tiktoken_len : string -> nat
}.

(** ** TokenImportanceScorer *)

(** [count_tokens]. *)
Definition count_tokens (rt : Runtime) (text : string) : nat :=
  tiktoken_len rt text.

(** The inner loop of [_get_query_scores]: how many of [toks] belong to a
    sentence of [n_sent_tokens] words. *)
Fixpoint tokens_of_sentence
    (toks : list string) (reconstructed : string) (tokens_in_sent : nat)
    (n_sent_tokens : nat) : nat :=
  match toks with
  | [] => tokens_in_sent
  | t :: rest =>
      let clean_tok := lower (remove_hashes t) in
      if contains clean_tok reconstructed || (String.length clean_tok <? 2)%nat
      then tokens_of_sentence rest reconstructed (S tokens_in_sent) n_sent_tokens
      else
        let reconstructed' := reconstructed ++ " " ++ t in
        if (n_sent_tokens <=? List.length (split reconstructed'))%nat
        then S tokens_in_sent
        else tokens_of_sentence rest reconstructed' (S tokens_in_sent) n_sent_tokens
  end.

(** The outer loop of [_get_query_scores] over the sentences and their
    scores; the state is the array [scores] and [token_idx]. *)
Fixpoint assign_sentence_scores
    (sents : list (string * Q)) (token_texts : list string)
    (scores : list Q) (token_idx : nat) : list Q * nat :=
  match sents with
  | [] => (scores, token_idx)
  | (sent, sent_score) :: rest =>
      let sent_tokens := split (lower sent) in
      let tokens_in_sent :=
        tokens_of_sentence (skipn token_idx token_texts) "" 0
                           (List.length sent_tokens) in
      let end_idx :=
        Nat.min (token_idx + Nat.max tokens_in_sent 1) (List.length scores) in
      let scores' := slice_fill scores token_idx end_idx sent_score in
      if (List.length scores' <=? end_idx)%nat then (scores', end_idx)
      else assign_sentence_scores rest token_texts scores' end_idx
  end.

(** [_get_query_scores].  The semantic model is loaded exactly when
    [use_query_aware] is set. *)
Definition _get_query_scores
    (rt : Runtime) (cfg : CompressorConfig)
    (text query : string) (token_texts : list string) : list Q :=
  if negb (use_query_aware cfg) then repeat 0 (List.length token_texts)
  else
    let sentences := split_sentences text in
    match sentences with
    | [] => vscale (1 # 2) (repeat 1 (List.length token_texts))
    | _ =>
        let sent_scores := map (sentence_similarity rt query) sentences in
        let '(scores, token_idx) :=
          assign_sentence_scores (combine sentences sent_scores) token_texts
                                 (repeat 0 (List.length token_texts)) 0%nat in
        if (token_idx <? List.length scores)%nat
        then slice_fill scores token_idx (List.length scores) (np_mean sent_scores)
        else scores
    end.

(** [_apply_position_bias]. *)
Definition _apply_position_bias (cfg : CompressorConfig) (scores : list Q) : list Q :=
  let n := List.length scores in
  if (n <? 10)%nat then scores
  else
    let position_weights := repeat 1 n in
    let start_region := Z.to_nat (py_int (Qofnat n * (1 # 10))) in
    let position_weights :=
      slice_fill position_weights 0 start_region (position_boost_start cfg) in
    let end_region := Z.to_nat (py_int (Qofnat n * (9 # 10))) in
    let position_weights :=
      slice_fill position_weights end_region n (position_boost_end cfg) in
    vmul scores position_weights.

(** The local function [normalize] of [score_tokens]. *)
Definition normalize (x : list Q) : result (list Q) :=
  mx <- amax x ;;
  mn <- amin x ;;
  if Qeq_bool mx mn then Ok (map (fun _ => 1) x)
  else Ok (map (fun v => (v - mn) / (mx - mn + (1 # 100000000))) x).

(** [if query and ...]: [None] and the empty string are false. *)
Definition query_given (query : option string) : bool :=
  match query with
  | Some (String _ _) => true
  | _ => false
  end.

Definition query_text (query : option string) : string :=
  match query with
  | Some q => q
  | None => ""
  end.

Definition is_special (special_ids : list Z) (t : Z) : bool :=
  existsb (Z.eqb t) special_ids.

(** The penalty loop of [score_tokens] over [enumerate(zip(tokens,
    token_ids))]; it updates [scores] in place at index [i]. *)
Fixpoint penalize
    (special_ids : list Z) (i : nat) (items : list (string * Z))
    (scores : list Q) : result (list Q) :=
  match items with
  | [] => Ok scores
  | (t, t_id) :: rest =>
      if is_special special_ids t_id then
        scores' <- set_item scores i 0 ;;
        penalize special_ids (S i) rest scores'
      else if negb (has_alnum t) then
        s <- get_item scores i ;;
        scores' <- set_item scores i (s * (5 # 10)) ;;
        penalize special_ids (S i) rest scores'
      else if startswith t "##" then
        s <- get_item scores i ;;
        scores' <- set_item scores i (s * (8 # 10)) ;;
        penalize special_ids (S i) rest scores'
      else penalize special_ids (S i) rest scores
  end.

(** The fusion of the normalized signals. *)
Definition fuse
    (rt : Runtime) (cfg : CompressorConfig) (text : string)
    (query : option string) (tokens : list string)
    (attn_scores sem_scores : list Q) : result (list Q) :=
  if query_given query && use_query_aware cfg then
    let query_scores := _get_query_scores rt cfg text (query_text query) tokens in
    query_scores <- normalize query_scores ;;
    Ok (vadd (vadd (vscale (attention_weight cfg) attn_scores)
                   (vscale (semantic_weight cfg) sem_scores))
             (vscale (query_weight cfg) query_scores))
  else
    let total := attention_weight cfg + semantic_weight cfg in
    wa <- py_div (attention_weight cfg) total ;;
    ws <- py_div (semantic_weight cfg) total ;;
    Ok (vadd (vscale wa attn_scores) (vscale ws sem_scores)).

(** [score_tokens]: the scores, the tokens and the token identifiers. *)
Definition score_tokens
    (rt : Runtime) (cfg : CompressorConfig) (text : string)
    (query : option string) : result (list Q * list string * list Z) :=
  let encoded :=
    encoder_forward rt (encoder_model cfg) (layer_weighting cfg)
                    (chunk_size cfg) text in
  let token_ids := map tid encoded in
  let tokens := map tok encoded in
  let attn_scores := map attn_raw encoded in
  let sem_scores := map sem_raw encoded in
  attn_scores <- normalize attn_scores ;;
  sem_scores <- normalize sem_scores ;;
  scores <- fuse rt cfg text query tokens attn_scores sem_scores ;;
  let scores :=
    if use_position_bias cfg then _apply_position_bias cfg scores else scores in
  let special_ids := all_special_ids rt (encoder_model cfg) in
  scores <- penalize special_ids 0 (combine tokens token_ids) scores ;;
  scores <- normalize scores ;;
  Ok (scores, tokens, token_ids).

(** ** ScratchCompressor *)

(** [target_ratio or self.config.target_ratio]: [None] and [0.0] are
    false. *)
Definition effective_target (cfg : CompressorConfig) (target_ratio : option Q) : Q :=
  match target_ratio with
  | Some t => if Qeq_bool t 0 then Scratch.target_ratio cfg else t
  | None => Scratch.target_ratio cfg
  end.

(** [keep_count] of [compress]. *)
Definition keep_count (cfg : CompressorConfig) (orig_tokens : nat) (target : Q) : Z :=
  Z.max (min_tokens cfg) (py_int (Qofnat orig_tokens * target)).

(** [threshold] of [compress]. *)
Definition keep_threshold
    (cfg : CompressorConfig) (orig_tokens : nat) (target : Q)
    (scores : list Q) : result Q :=
  let k := keep_count cfg orig_tokens target in
  if (Z.of_nat orig_tokens <=? k)%Z then Ok 0
  else
    let sorted_scores := rev (np_sort scores) in
    s <- py_getitem sorted_scores (k - 1) ;;
    Ok (py_max s (hard_threshold cfg)).

(** [[i for i, s in enumerate(scores) if s >= threshold]], the enumeration
    starting at [i]. *)
Fixpoint select_from (i : nat) (scores : list Q) (threshold : Q) : list nat :=
  match scores with
  | [] => []
  | s :: rest =>
      if Qle_bool threshold s then i :: select_from (S i) rest threshold
      else select_from (S i) rest threshold
  end.

Definition select (scores : list Q) (threshold : Q) : list nat :=
  select_from 0 scores threshold.

(** [comp_tokens / orig_count if orig_count > 0 else 1.0]. *)
Definition ratio_of (comp_tokens orig_count : nat) : result Q :=
  if (0 <? orig_count)%nat then py_div (Qofnat comp_tokens) (Qofnat orig_count)
  else Ok 1.

(** [compress]. *)
Definition compress
    (rt : Runtime) (cfg : CompressorConfig) (text : string)
    (query : option string) (target_ratio : option Q)
    : result CompressionResult :=
  let target := effective_target cfg target_ratio in
  scored <- score_tokens rt cfg text query ;;
  let '(scores, tokens, token_ids) := scored in
  let orig_tokens := List.length tokens in
  threshold <- keep_threshold cfg orig_tokens target scores ;;
  let kept_indices := select scores threshold in
  kept_tokens <- mapM (get_item tokens) kept_indices ;;
  let compressed := convert_tokens_to_string rt (encoder_model cfg) kept_tokens in
  let compressed := strip (collapse_spaces compressed) in
  let comp_tokens := count_tokens rt compressed in
  let orig_count := count_tokens rt text in
  ratio <- ratio_of comp_tokens orig_count ;;
  Ok {| original_text := text;
        compressed_text := compressed;
        original_tokens := orig_count;
        compressed_tokens := comp_tokens;
        token_scores := scores;
        kept_indices := kept_indices;
        compression_ratio := ratio |}.

(** The packing loop of [compress_chunks]; the state is [chunks],
    [current_chunk] and [current_len]. *)
Fixpoint pack_sentences
    (cfg : CompressorConfig) (sentences : list string)
    (chunks : list string) (current_chunk : list string) (current_len : nat)
    : list string * list string * nat :=
  match sentences with
  | [] => (chunks, current_chunk, current_len)
  | sent :: rest =>
      let sent_len := List.length (split sent) in
      if Qlt_bool (inject_Z (chunk_size cfg) * (8 # 10))
                  (Qofnat (current_len + sent_len))
      then
        let chunks :=
          match current_chunk with
          | [] => chunks
          | _ => (chunks ++ [join " " current_chunk])%list
          end in
        pack_sentences cfg rest chunks [sent] sent_len
      else
        pack_sentences cfg rest chunks (current_chunk ++ [sent])%list
                       (current_len + sent_len)
  end.

(** The chunks of [compress_chunks]. *)
Definition make_chunks (cfg : CompressorConfig) (text : string) : list string :=
  let sentences := split_sentences text in
  let '(chunks, current_chunk, _) := pack_sentences cfg sentences [] [] 0 in
  match current_chunk with
  | [] => chunks
  | _ => (chunks ++ [join " " current_chunk])%list
  end.

(** The compression loop of [compress_chunks]; the state is
    [compressed_chunks], [total_orig] and [total_comp]. *)
Fixpoint compress_each
    (rt : Runtime) (cfg : CompressorConfig) (query : option string)
    (target_ratio : option Q) (chunks : list string)
    (compressed_chunks : list string) (total_orig total_comp : nat)
    : result (list string * nat * nat) :=
  match chunks with
  | [] => Ok (compressed_chunks, total_orig, total_comp)
  | chunk :: rest =>
      r <- compress rt cfg chunk query target_ratio ;;
      compress_each rt cfg query target_ratio rest
                    (compressed_chunks ++ [compressed_text r])%list
                    (total_orig + original_tokens r)
                    (total_comp + compressed_tokens r)
  end.

(** [compress_chunks]. *)
Definition compress_chunks
    (rt : Runtime) (cfg : CompressorConfig) (text : string)
    (query : option string) (target_ratio : option Q)
    : result CompressionResult :=
  let chunks := make_chunks cfg text in
  totals <- compress_each rt cfg query target_ratio chunks [] 0 0 ;;
  let '(compressed_chunks, total_orig, total_comp) := totals in
  let final_text := join " " compressed_chunks in
  ratio <- ratio_of total_comp total_orig ;;
  Ok {| original_text := text;
        compressed_text := final_text;
        original_tokens := total_orig;
        compressed_tokens := total_comp;
        token_scores := [];
        kept_indices := [];
        compression_ratio := ratio |}.

End Scratch.

(* ===================================================================== *)
(** * [src/compression/longbench.py]                                      *)
(* ===================================================================== *)

Module Longbench.
Import Py Re.

(** The class [[A-D]] and the two other classes of the patterns. *)
Definition is_AD (c : ascii) : bool := in_range 65 68 c.
Definition is_colon_or_space (c : ascii) : bool := (code c =? 58)%nat || is_space c.
Definition not_AD (c : ascii) : bool := negb (is_AD c).

(** The list [patterns] of [verify_answer], in the order of the source. *)
Definition pat_paren : pattern := [Lit "("; Cap is_AD; Lit ")"].
Definition pat_period : pattern := [WordB; Cap is_AD; Lit "."].
Definition pat_option : pattern :=
  (lits "OPTION" ++ [StarCls is_colon_or_space; OptLit "("; Cap is_AD; OptLit ")"])%list.
Definition pat_answer : pattern :=
  (lits "ANSWER" ++ [StarCls is_colon_or_space; OptLit "("; Cap is_AD; OptLit ")"])%list.
Definition pat_correct : pattern :=
  (lits "CORRECT" ++ [StarCls not_AD; Cap is_AD])%list.
Definition pat_start : pattern := [Bol; StarCls is_space; Cap is_AD; WordB].
Definition pat_standalone : pattern := [WordB; Cap is_AD; WordB].

Definition patterns : list pattern :=
  [pat_paren; pat_period; pat_option; pat_answer; pat_correct; pat_start;
   pat_standalone].

(** [match.group(1) == gold_upper]. *)
Definition group_is (g : option ascii) (gold_upper : string) : bool :=
  match g with
  | Some c => String.eqb (String c EmptyString) gold_upper
  | None => false
  end.

(** The loop over [patterns]: the first pattern found decides. *)
Fixpoint try_patterns (pats : list pattern) (predicted_upper gold_upper : string)
    : bool :=
  match pats with
  | [] => false
  | p :: rest =>
      match search p predicted_upper with
      | Some g => group_is g gold_upper
      | None => try_patterns rest predicted_upper gold_upper
      end
  end.

Definition single_letters : list string := ["A"; "B"; "C"; "D"].

(** [verify_answer]. *)
Definition verify_answer (predicted gold : string) : bool :=
  let predicted_clean := remove_stars predicted in
  let predicted_upper := strip (upper predicted_clean) in
  let gold_upper := strip (upper gold) in
  if existsb (String.eqb predicted_upper) single_letters
  then String.eqb predicted_upper gold_upper
  else try_patterns patterns predicted_upper gold_upper.

End Longbench.

(* ===================================================================== *)
(** * A small runtime for running the model on concrete inputs            *)
(* ===================================================================== *)

(** The properties below hold for every runtime.  To evaluate the model on
    concrete inputs a runtime is needed; this one follows the conventions of
    an uncased WordPiece encoder: the input is lower-cased and split on
    whitespace, a word of more than three characters is split into a
    three-character head and a [##] continuation, the sequence is wrapped in
    [[CLS]] (101) and [[SEP]] (102), and [convert_tokens_to_string] is
    [" ".join(tokens).replace(" ##", "").strip()].  The reference token
    count is the number of whitespace-separated words. *)
Module Stub.
Import Py Re Scratch.

Definition wordpieces (w : string) : list string :=
  if (3 <? String.length w)%nat
  then [substring 0 3 w; "##" ++ substring 3 (String.length w - 3) w]
  else [w].

Definition first_code (s : string) : nat :=
  match s with
  | String c _ => code c
  | EmptyString => 0%nat
  end.

Definition encode_piece (t : string) : EncodedToken :=
  {| tok := t;
     tid := 1000 + Z.of_nat (String.length t);
     attn_raw := Qofnat (String.length t);
     sem_raw := Qofnat (first_code t) / 128 |}.

Definition cls_token : EncodedToken :=
  {| tok := "[CLS]"; tid := 101; attn_raw := 0; sem_raw := 0 |}.
Definition sep_token : EncodedToken :=
  {| tok := "[SEP]"; tid := 102; attn_raw := 0; sem_raw := 0 |}.

Definition stub_forward (model weighting : string) (max_length : Z) (text : string)
    : list EncodedToken :=
  let pieces := flat_map wordpieces (split (lower text)) in
  (cls_token :: map encode_piece (firstn (Z.to_nat (max_length - 2)) pieces)
     ++ [sep_token])%list.

(** [s.replace(" ##", "")]. *)
Fixpoint remove_continuations (s : string) : string :=
  match s with
  | EmptyString => EmptyString
  | String c rest =>
      match rest with
      | String h1 (String h2 rest2) =>
          if Ascii.eqb c " " && Ascii.eqb h1 "#" && Ascii.eqb h2 "#"
          then remove_continuations rest2
          else String c (remove_continuations rest)
      | _ => String c (remove_continuations rest)
      end
  end.

Definition stub_detokenize (model : string) (tokens : list string) : string :=
  strip (remove_continuations (join " " tokens)).

Definition stub_similarity (query sentence : string) : Q :=
  let qs := split (lower query) in
  let ws := split (lower sentence) in
  Qofnat (List.length (filter (fun w => existsb (String.eqb w) qs) ws))
  / Qofnat (1 + List.length ws).

Definition stub : Runtime := {|
  encoder_forward := stub_forward;
  all_special_ids := fun _ => [0; 100; 101; 102; 103]%Z;
  convert_tokens_to_string := stub_detokenize;
  sentence_similarity := stub_similarity;
  tiktoken_len := fun text => List.length (split text)
|}.

(** The default configuration with another floor, target ratio and chunk
    size. *)
Definition config_with (floor : Z) (ratio : Q) (size : Z) : CompressorConfig :=
  {| encoder_model := encoder_model default_config;
     use_query_aware := use_query_aware default_config;
     attention_weight := attention_weight default_config;
     semantic_weight := semantic_weight default_config;
     query_weight := query_weight default_config;
     target_ratio := ratio;
     min_tokens := floor;
     hard_threshold := hard_threshold default_config;
     layer_weighting := layer_weighting default_config;
     preserve_structure := preserve_structure default_config;
     chunk_size := size;
     use_position_bias := use_position_bias default_config;
     position_boost_start := position_boost_start default_config;
     position_boost_end := position_boost_end default_config |}.

End Stub.

(* ===================================================================== *)
(** * Vocabulary of the specification                                     *)
(* ===================================================================== *)

Module Spec.
Import Py Re Scratch.

(** The encoder pass of a call on [text]. *)
Definition encoded_of (rt : Runtime) (cfg : CompressorConfig) (text : string)
    : list EncodedToken :=
  encoder_forward rt (encoder_model cfg) (layer_weighting cfg) (chunk_size cfg) text.

(** How many scores are at least [t], and how many exceed it. *)
Definition count_ge (t : Q) (scores : list Q) : nat :=
  List.length (filter (fun s => Qle_bool t s) scores).

Definition count_gt (t : Q) (scores : list Q) : nat :=
  List.length (filter (fun s => Qlt_bool t s) scores).

(** [t] is the [k]-th largest of [scores], counted with multiplicity: it is
    one of them, at least [k] of them are no smaller, fewer than [k] are
    larger. *)
Definition kth_largest (k : nat) (t : Q) (scores : list Q) : Prop :=
  In t scores /\ (k <= count_ge t scores)%nat /\ (count_gt t scores < k)%nat.

(** A fused score lies in the closed unit interval. *)
Definition in_unit_interval (s : Q) : Prop := 0 <= s /\ s <= 1.

(** Strictly increasing indices. *)
Definition strictly_increasing (l : list nat) : Prop := StronglySorted lt l.

(** The number of words of a text, [len(text.split())]. *)
Definition word_count (s : string) : nat := List.length (split s).

Definition total_words (sentences : list string) : nat :=
  fold_right Nat.add 0%nat (map word_count sentences).

(** A group of sentences fits a chunk: it is not empty, and it is a single
    sentence or its words do not exceed the limit. *)
Definition fits (limit : Q) (group : list string) : Prop :=
  group <> [] /\ ((exists s, group = [s]) \/ Qofnat (total_words group) <= limit).

(** Greedy packing: a group is closed only when the first sentence of the
    next group would have taken it over the limit. *)
Fixpoint greedy (limit : Q) (groups : list (list string)) : Prop :=
  match groups with
  | [] => True
  | g :: rest =>
      match rest with
      | (s :: _) :: _ => limit < Qofnat (total_words g + word_count s)
      | _ => True
      end
      /\ greedy limit rest
  end.

(** The state of the loop as groups of sentences: [gs] are the groups
    already emitted, [cur] is the group being filled. *)
Definition groups_of (gs : list (list string)) (cur : list string) : list (list string) :=
  match cur with
  | [] => gs
  | _ => (gs ++ [cur])%list
  end.

(** [chunk_size * 0.8]. *)
Definition chunk_limit (cfg : CompressorConfig) : Q :=
  inject_Z (chunk_size cfg) * (8 # 10).

(** A configuration that differs in the query weight only. *)
Definition with_query_weight (cfg : CompressorConfig) (w : Q) : CompressorConfig :=
  {| encoder_model := encoder_model cfg;
     use_query_aware := use_query_aware cfg;
     attention_weight := attention_weight cfg;
     semantic_weight := semantic_weight cfg;
     query_weight := w;
     target_ratio := target_ratio cfg;
     min_tokens := min_tokens cfg;
     hard_threshold := hard_threshold cfg;
     layer_weighting := layer_weighting cfg;
     preserve_structure := preserve_structure cfg;
     chunk_size := chunk_size cfg;
     use_position_bias := use_position_bias cfg;
     position_boost_start := position_boost_start cfg;
     position_boost_end := position_boost_end cfg |}.

(** A target-ratio override that Python treats as false. *)
Definition falsy_override (target_ratio : option Q) : Prop :=
  match target_ratio with
  | None => True
  | Some t => t == 0
  end.

(** The content tokens of the specification: the tokens that are not
    structural tokens of the encoder. *)
Definition content_count (special_ids : list Z) (token_ids : list Z) : nat :=
  List.length (filter (fun t => negb (is_special special_ids t)) token_ids).

(** The selection rule in the words of the specification, for a count [n]
    of content tokens: [k = max(min_tokens, floor(n * target_ratio))]; all
    tokens if [k >= n]; otherwise the tokens whose score reaches the [k]-th
    largest score, floored at the hard threshold. *)
Definition spec_selection
    (cfg : CompressorConfig) (target : Q) (n : nat) (scores : list Q)
    : option (list nat) :=
  let k := Z.max (min_tokens cfg) (Qfloor (Qofnat n * target)) in
  if (Z.of_nat n <=? k)%Z then Some (seq 0 (List.length scores))
  else
    match nth_error (rev (np_sort scores)) (Z.to_nat (k - 1)) with
    | Some t => Some (select scores (py_max t (hard_threshold cfg)))
    | None => None
    end.

Definition sum_nat (l : list nat) : nat := fold_right Nat.add 0%nat l.

(** The record [compress_chunks] returns for the results [rs] of its
    chunks. *)
Definition joined_result (text : string) (rs : list CompressionResult) (ratio : Q)
    : CompressionResult :=
  {| original_text := text;
     compressed_text := join " " (map compressed_text rs);
     original_tokens := sum_nat (map original_tokens rs);
     compressed_tokens := sum_nat (map compressed_tokens rs);
     token_scores := [];
     kept_indices := [];
     compression_ratio := ratio |}.

End Spec.

(* ===================================================================== *)
(** * The convenience functions of [scratch.py]                           *)
(* ===================================================================== *)

(** [get_compressor], [compress] and [compress_with_metrics] at module
    level.  They share the global [_default_compressor]; a compressor is
    known by its configuration, and the global is threaded through the
    calls: every function takes its value and returns the new one. *)
Module ScratchApi.
Import Py Re Scratch.

(** [ScratchCompressor(config)]: [self.config = config or CompressorConfig()]. *)
Definition ScratchCompressor (config : option CompressorConfig) : CompressorConfig :=
  match config with
  | Some c => c
  | None => default_config
  end.

(** [get_compressor(config)]: the compressor returned and the new global. *)
Definition get_compressor
    (_default_compressor : option CompressorConfig)
    (config : option CompressorConfig)
    : CompressorConfig * option CompressorConfig :=
  match _default_compressor, config with
  | Some c, None => (c, _default_compressor)
  | _, _ => let c := ScratchCompressor config in (c, Some c)
  end.

(** The default of the parameter [target_ratio] of the two functions. *)
Definition default_target_ratio : Q := 34 # 100.

(** [compress_with_metrics(text, query, target_ratio)]. *)
Definition compress_with_metrics
    (rt : Runtime) (_default_compressor : option CompressorConfig)
    (text : string) (query : option string) (target_ratio : Q)
    : option CompressorConfig * result CompressionResult :=
  let '(compressor, g) := get_compressor _default_compressor None in
  let word_count := List.length (split text) in
  if (400 <? word_count)%nat
  then (g, Scratch.compress_chunks rt compressor text query (Some target_ratio))
  else (g, Scratch.compress rt compressor text query (Some target_ratio)).

(** [compress(text, query, target_ratio)]. *)
Definition compress
    (rt : Runtime) (_default_compressor : option CompressorConfig)
    (text : string) (query : option string) (target_ratio : Q)
    : option CompressorConfig * result string :=
  let '(compressor, g) := get_compressor _default_compressor None in
  let word_count := List.length (split text) in
  let result :=
    if (400 <? word_count)%nat
    then Scratch.compress_chunks rt compressor text query (Some target_ratio)
    else Scratch.compress rt compressor text query (Some target_ratio) in
  (g, r <- result ;; Ok (compressed_text r)).

(** A sequence of [get_compressor] calls from a given global. *)
Fixpoint get_compressor_calls
    (_default_compressor : option CompressorConfig)
    (configs : list (option CompressorConfig)) : option CompressorConfig :=
  match configs with
  | [] => _default_compressor
  | config :: rest =>
      get_compressor_calls (snd (get_compressor _default_compressor config)) rest
  end.

End ScratchApi.

(* ===================================================================== *)
(** * The evaluation loop of [longbench.py]                               *)
(* ===================================================================== *)

(** [run_longbench_eval] for one configuration: the filter and the sample
    of the data, the loop over the items, and the accuracy and reduction of
    the summary.  The dataset, the token counter, the compression function
    of the configuration and the chat endpoint are parameters; a call of the
    endpoint that raises is [None].  The timing of the compression and the
    printed progress lines are left out. *)
Module LongbenchEval.
Import Py Re Scratch Longbench.

Record Item : Type := {
  context : string;
  question : string;
  choice_A : string;
  choice_B : string;
  choice_C : string;
  choice_D : string;
  answer : string
}.

(** [l[:x]]: a negative [x] counts from the end. *)
Definition slice_to {A : Type} (l : list A) (x : Z) : list A :=
  if (0 <=? x)%Z then firstn (Z.to_nat x) l
  else firstn (List.length l - Z.to_nat (- x)) l.

(** [valid_data]: the items within the token limit, cut to the sample when
    [sample_first_x] is true. *)
Definition valid_data
    (count_tokens : string -> nat) (ds : list Item)
    (sample_first_x : option Z) (max_token_limit : Z) : list Item :=
  let valid_data :=
    filter (fun item =>
              (Z.of_nat (count_tokens (context item)) <=? max_token_limit)%Z) ds in
  match sample_first_x with
  | Some x => if (x =? 0)%Z then valid_data else slice_to valid_data x
  | None => valid_data
  end.

Definition nl : string := String (ascii_of_nat 10) EmptyString.

(** The prompt of an item. *)
Definition prompt_of (compressed_context : string) (item : Item) : string :=
  "Context:" ++ nl ++ compressed_context ++ nl ++ nl
  ++ "Question: " ++ question item ++ nl
  ++ "Options:" ++ nl
  ++ "(A) " ++ choice_A item ++ nl
  ++ "(B) " ++ choice_B item ++ nl
  ++ "(C) " ++ choice_C item ++ nl
  ++ "(D) " ++ choice_D item ++ nl ++ nl
  ++ "Answer with ONLY the letter (A), (B), (C), or (D). Do NOT reply with anything other than the answer choice.".

(** [1 - (comp_len / orig_len) if orig_len > 0 else 0]. *)
Definition saved_pct (orig_len comp_len : nat) : result Q :=
  if (0 <? orig_len)%nat
  then q <- py_div (Qofnat comp_len) (Qofnat orig_len) ;; Ok (1 - q)
  else Ok 0.

(** The loop over the items; the state is [correct] and
    [total_saved_pct]. *)
Fixpoint eval_items
    (count_tokens : string -> nat)
    (func : string -> string -> result string)
    (call_openrouter : string -> option string)
    (items : list Item) (correct : nat) (total_saved_pct : list Q)
    : result (nat * list Q) :=
  match items with
  | [] => Ok (correct, total_saved_pct)
  | item :: rest =>
      compressed_context <- func (context item) (question item) ;;
      let orig_len := count_tokens (context item) in
      let comp_len := count_tokens compressed_context in
      saved <- saved_pct orig_len comp_len ;;
      let total_saved_pct := (total_saved_pct ++ [saved])%list in
      let prompt := prompt_of compressed_context item in
      let correct :=
        match call_openrouter prompt with
        | Some response =>
            if verify_answer response (answer item) then S correct else correct
        | None => correct
        end in
      eval_items count_tokens func call_openrouter rest correct total_saved_pct
  end.

(** The accuracy and the average reduction of one configuration, in
    percent. *)
Definition eval_config
    (count_tokens : string -> nat)
    (func : string -> string -> result string)
    (call_openrouter : string -> option string)
    (valid_data : list Item) : result (Q * Q) :=
  st <- eval_items count_tokens func call_openrouter valid_data 0 [] ;;
  let '(correct, total_saved_pct) := st in
  q <- py_div (Qofnat correct) (Qofnat (List.length valid_data)) ;;
  let accuracy := q * 100 in
  let avg_reduction := np_mean total_saved_pct * 100 in
  Ok (accuracy, avg_reduction).

(** The configuration ["Baseline"]: [lambda ctx, q: ctx]. *)
Definition baseline (ctx q : string) : result string := Ok ctx.

End LongbenchEval.

(* ===================================================================== *)
(** * More vocabulary                                                     *)
(* ===================================================================== *)

Module SpecMore.
Import Py Re Scratch.

(** The penalty of one token on its score, in the order of the tests of
    the loop of [score_tokens]. *)
Definition penalty (special_ids : list Z) (t : string) (t_id : Z) (s : Q) : Q :=
  if is_special special_ids t_id then 0
  else if negb (has_alnum t) then s * (5 # 10)
  else if startswith t "##" then s * (8 # 10)
  else s.

(** A configuration that differs in the target ratio only. *)
Definition with_target_ratio (cfg : CompressorConfig) (ratio : Q) : CompressorConfig :=
  {| encoder_model := encoder_model cfg;
     use_query_aware := use_query_aware cfg;
     attention_weight := attention_weight cfg;
     semantic_weight := semantic_weight cfg;
     query_weight := query_weight cfg;
     target_ratio := ratio;
     min_tokens := min_tokens cfg;
     hard_threshold := hard_threshold cfg;
     layer_weighting := layer_weighting cfg;
     preserve_structure := preserve_structure cfg;
     chunk_size := chunk_size cfg;
     use_position_bias := use_position_bias cfg;
     position_boost_start := position_boost_start cfg;
     position_boost_end := position_boost_end cfg |}.

(** A configuration that differs in [use_query_aware] only. *)
Definition with_query_aware (cfg : CompressorConfig) (b : bool) : CompressorConfig :=
  {| encoder_model := encoder_model cfg;
     use_query_aware := b;
     attention_weight := attention_weight cfg;
     semantic_weight := semantic_weight cfg;
     query_weight := query_weight cfg;
     target_ratio := target_ratio cfg;
     min_tokens := min_tokens cfg;
     hard_threshold := hard_threshold cfg;
     layer_weighting := layer_weighting cfg;
     preserve_structure := preserve_structure cfg;
     chunk_size := chunk_size cfg;
     use_position_bias := use_position_bias cfg;
     position_boost_start := position_boost_start cfg;
     position_boost_end := position_boost_end cfg |}.

(** The weights and boosts of a configuration are not negative. *)
Definition nonnegative_weights (cfg : CompressorConfig) : Prop :=
  0 <= attention_weight cfg /\ 0 <= semantic_weight cfg /\ 0 <= query_weight cfg
  /\ 0 <= position_boost_start cfg /\ 0 <= position_boost_end cfg.

(** The last configuration given in a sequence of [get_compressor] calls. *)
Fixpoint last_given (configs : list (option CompressorConfig))
    : option CompressorConfig :=
  match configs with
  | [] => None
  | config :: rest =>
      match last_given rest with
      | Some c => Some c
      | None => config
      end
  end.

(** A small evaluation for the examples: one item, a counter of words, a
    compression that keeps the first word and an endpoint that answers. *)
Definition example_item : LongbenchEval.Item :=
  {| LongbenchEval.context := "one two three four";
     LongbenchEval.question := "which";
     LongbenchEval.choice_A := "w";
     LongbenchEval.choice_B := "x";
     LongbenchEval.choice_C := "y";
     LongbenchEval.choice_D := "z";
     LongbenchEval.answer := "B" |}.

Definition example_count (s : string) : nat := List.length (split s).

Definition example_func (ctx q : string) : result string :=
  Ok (hd EmptyString (split ctx)).

Definition example_endpoint (prompt : string) : option string := Some "(B)".

End SpecMore.

(* ===================================================================== *)
(** * Facts about the Python helpers                                      *)
(* ===================================================================== *)

Module PyFacts.
Import Py.

Lemma bind_Ok {A B : Type} (m : result A) (f : A -> result B) (b : B) :
  bind m f = Ok b -> exists a, m = Ok a /\ f a = Ok b.
Proof.
  destruct m as [a | e]; simpl; intros H.
  - exists a. split; [reflexivity | exact H].
  - discriminate H.
Qed.

Lemma bind_Raise {A B : Type} (m : result A) (f : A -> result B) (e : exn) :
  bind m f = Raise e -> m = Raise e \/ exists a, m = Ok a /\ f a = Raise e.
Proof.
  destruct m as [a | e']; simpl; intros H.
  - right. exists a. split; [reflexivity | exact H].
  - left. congruence.
Qed.

Lemma Qlt_bool_iff (x y : Q) : Qlt_bool x y = true <-> x < y.
Proof.
  unfold Qlt_bool. rewrite negb_true_iff. split; intros H.
  - apply Qnot_le_lt. intros Hle. apply Qle_bool_iff in Hle. congruence.
  - destruct (Qle_bool y x) eqn:E; [| reflexivity].
    apply Qle_bool_iff in E. exfalso. exact (Qlt_not_le _ _ H E).
Qed.

Lemma Qlt_bool_false_iff (x y : Q) : Qlt_bool x y = false <-> y <= x.
Proof.
  unfold Qlt_bool. rewrite negb_false_iff. apply Qle_bool_iff.
Qed.

Lemma Qle_bool_false_iff (x y : Q) : Qle_bool x y = false <-> y < x.
Proof.
  rewrite <- Qlt_bool_iff. unfold Qlt_bool.
  destruct (Qle_bool x y); simpl; split; congruence.
Qed.

Lemma py_max_lub (a b : Q) : a <= py_max a b /\ b <= py_max a b.
Proof.
  unfold py_max. destruct (Qlt_bool a b) eqn:E.
  - apply Qlt_bool_iff in E. split; [apply Qlt_le_weak; exact E | apply Qle_refl].
  - apply Qlt_bool_false_iff in E. split; [apply Qle_refl | exact E].
Qed.

Lemma py_max_cases (a b : Q) : py_max a b = a \/ py_max a b = b.
Proof. unfold py_max. destruct (Qlt_bool a b); auto. Qed.

Lemma py_min_glb (a b : Q) : py_min a b <= a /\ py_min a b <= b.
Proof.
  unfold py_min. destruct (Qlt_bool b a) eqn:E.
  - apply Qlt_bool_iff in E. split; [apply Qlt_le_weak; exact E | apply Qle_refl].
  - apply Qlt_bool_false_iff in E. split; [apply Qle_refl | exact E].
Qed.

Lemma py_min_cases (a b : Q) : py_min a b = a \/ py_min a b = b.
Proof. unfold py_min. destruct (Qlt_bool b a); auto. Qed.

(** [int] is the floor on non-negative numbers. *)
Lemma py_int_floor (x : Q) : 0 <= x -> py_int x = Qfloor x.
Proof.
  destruct x as [n d]. unfold Qle, py_int, Qfloor. simpl. intros H.
  apply Z.quot_div_nonneg; lia.
Qed.

Lemma py_int_tenths (n : nat) (m : positive) :
  py_int (Qofnat n * (Zpos m # 10)) = (Z.of_nat n * Zpos m / 10)%Z.
Proof.
  unfold py_int, Qofnat. simpl.
  apply Z.quot_div_nonneg; lia.
Qed.

Lemma Qmult_1_r_eq (x : Q) : x * 1 = x.
Proof.
  destruct x as [n d]. unfold Qmult. simpl.
  rewrite Z.mul_1_r, Pos.mul_1_r. reflexivity.
Qed.

End PyFacts.

(* ===================================================================== *)
(** * Sorting and counting                                                *)
(* ===================================================================== *)

Module SortFacts.
Import Py Spec PyFacts.

Lemma sort_insert_perm (x : Q) (l : list Q) : Permutation (x :: l) (sort_insert x l).
Proof.
  induction l as [| y l IH]; simpl.
  - apply Permutation_refl.
  - destruct (Qle_bool x y).
    + apply Permutation_refl.
    + eapply perm_trans; [apply perm_swap |]. apply perm_skip. exact IH.
Qed.

Lemma np_sort_perm (l : list Q) : Permutation l (np_sort l).
Proof.
  induction l as [| x l IH]; simpl.
  - apply perm_nil.
  - eapply perm_trans; [apply perm_skip; exact IH | apply sort_insert_perm].
Qed.

Lemma sort_insert_sorted (x : Q) (l : list Q) :
  StronglySorted Qle l -> StronglySorted Qle (sort_insert x l).
Proof.
  induction 1 as [| y l Hs IH Hall]; simpl.
  - constructor; constructor.
  - destruct (Qle_bool x y) eqn:E.
    + apply Qle_bool_iff in E.
      constructor; [constructor; assumption |].
      constructor; [exact E |].
      eapply Forall_impl; [| exact Hall].
      intros z Hz. eapply Qle_trans; eassumption.
    + apply Qle_bool_false_iff in E.
      constructor; [exact IH |].
      apply (Permutation_Forall (sort_insert_perm x l)).
      constructor; [apply Qlt_le_weak; exact E | exact Hall].
Qed.

Lemma np_sort_sorted (l : list Q) : StronglySorted Qle (np_sort l).
Proof.
  induction l as [| x l IH]; simpl.
  - constructor.
  - apply sort_insert_sorted. exact IH.
Qed.

(** Descending order, the order of [np.sort(scores)[::-1]]. *)
Lemma StronglySorted_snoc (l : list Q) (x : Q) :
  StronglySorted (fun a b => b <= a) l -> Forall (fun y => x <= y) l ->
  StronglySorted (fun a b => b <= a) (l ++ [x]).
Proof.
  induction 1 as [| y l Hs IH Hall]; intros Hx; simpl.
  - constructor; constructor.
  - inversion Hx as [| ? ? Hy Hx']; subst.
    constructor; [apply IH; exact Hx' |].
    apply Forall_app. split; [exact Hall |]. constructor; [exact Hy | constructor].
Qed.

Lemma rev_sorted_descending (l : list Q) :
  StronglySorted Qle l -> StronglySorted (fun a b => b <= a) (rev l).
Proof.
  induction 1 as [| x l Hs IH Hall]; simpl.
  - constructor.
  - apply StronglySorted_snoc; [exact IH |].
    apply Forall_rev. exact Hall.
Qed.

Lemma sorted_scores_descending (scores : list Q) :
  StronglySorted (fun a b => b <= a) (rev (np_sort scores)).
Proof. apply rev_sorted_descending, np_sort_sorted. Qed.

Lemma sorted_scores_perm (scores : list Q) : Permutation scores (rev (np_sort scores)).
Proof.
  eapply perm_trans; [apply np_sort_perm | apply Permutation_rev].
Qed.

Lemma filter_length_perm {A : Type} (f : A -> bool) (l l' : list A) :
  Permutation l l' -> List.length (filter f l) = List.length (filter f l').
Proof.
  induction 1 as [| x l l' _ IH | x y l | l l' l'' _ IH1 _ IH2]; simpl.
  - reflexivity.
  - destruct (f x); simpl; congruence.
  - destruct (f x), (f y); reflexivity.
  - congruence.
Qed.

Lemma count_ge_perm (t : Q) (l l' : list Q) :
  Permutation l l' -> count_ge t l = count_ge t l'.
Proof. apply filter_length_perm. Qed.

Lemma count_gt_perm (t : Q) (l l' : list Q) :
  Permutation l l' -> count_gt t l = count_gt t l'.
Proof. apply filter_length_perm. Qed.

Lemma count_gt_none (t : Q) (l : list Q) :
  Forall (fun y => y <= t) l -> count_gt t l = 0%nat.
Proof.
  unfold count_gt. induction 1 as [| y l Hy _ IH]; simpl.
  - reflexivity.
  - apply Qlt_bool_false_iff in Hy. rewrite Hy. exact IH.
Qed.

(** In a descending list the element at position [j] has at least [j + 1]
    elements no smaller, and at most [j] elements larger. *)
Lemma descending_rank (d : list Q) :
  StronglySorted (fun a b => b <= a) d ->
  forall (j : nat) (t : Q), nth_error d j = Some t ->
    (j < count_ge t d)%nat /\ (count_gt t d <= j)%nat.
Proof.
  induction 1 as [| x d Hs IH Hall]; intros j t Hj.
  - destruct j; discriminate Hj.
  - destruct j as [| j]; simpl in Hj.
    + injection Hj as ->. split.
      * unfold count_ge. simpl.
        assert (E : Qle_bool t t = true) by (apply Qle_bool_iff, Qle_refl).
        rewrite E. simpl. lia.
      * assert (E : count_gt t (t :: d) = count_gt t d).
        { unfold count_gt. simpl.
          assert (E : Qlt_bool t t = false) by (apply Qlt_bool_false_iff, Qle_refl).
          rewrite E. reflexivity. }
        rewrite E, (count_gt_none t d Hall). lia.
    + destruct (IH j t Hj) as [Hge Hgt].
      assert (Htx : t <= x).
      { rewrite Forall_forall in Hall. apply Hall.
        eapply nth_error_In. exact Hj. }
      split.
      * unfold count_ge in *. simpl.
        apply Qle_bool_iff in Htx. rewrite Htx. simpl. lia.
      * unfold count_gt in *. simpl.
        destruct (Qlt_bool t x); simpl; lia.
Qed.

(** The score read at position [k - 1] of the descending scores is the
    [k]-th largest score. *)
Lemma sorted_kth_largest (scores : list Q) (k : nat) (t : Q) :
  (1 <= k)%nat -> nth_error (rev (np_sort scores)) (k - 1) = Some t ->
  kth_largest k t scores.
Proof.
  intros Hk Hnth.
  destruct (descending_rank _ (sorted_scores_descending scores) _ _ Hnth)
    as [Hge Hgt].
  rewrite <- (count_ge_perm t _ _ (sorted_scores_perm scores)) in Hge.
  rewrite <- (count_gt_perm t _ _ (sorted_scores_perm scores)) in Hgt.
  repeat split; try lia.
  apply (Permutation_in _ (Permutation_sym (sorted_scores_perm scores))).
  eapply nth_error_In. exact Hnth.
Qed.

End SortFacts.

(* ===================================================================== *)
(** * Facts about the scorer                                              *)
(* ===================================================================== *)

Module ScorerFacts.
Import Py Re Scratch Spec PyFacts.

(** ** Array helpers *)

Lemma length_map2 {A B C : Type} (f : A -> B -> C) (a : list A) (b : list B) :
  List.length (map2 f a b) = Nat.min (List.length a) (List.length b).
Proof.
  revert b. induction a as [| x a IH]; intros [| y b]; simpl; auto.
Qed.

Lemma length_vscale (c : Q) (a : list Q) : List.length (vscale c a) = List.length a.
Proof. apply length_map. Qed.

Lemma length_vadd (a b : list Q) :
  List.length (vadd a b) = Nat.min (List.length a) (List.length b).
Proof. apply length_map2. Qed.

Lemma length_vmul (a b : list Q) :
  List.length (vmul a b) = Nat.min (List.length a) (List.length b).
Proof. apply length_map2. Qed.

Lemma length_slice_fill_from {A : Type} (i lo hi : nat) (v : A) (a : list A) :
  List.length (slice_fill_from i lo hi v a) = List.length a.
Proof.
  revert i. induction a as [| x a IH]; intros i; simpl; [reflexivity |].
  rewrite IH. reflexivity.
Qed.

Lemma length_slice_fill {A : Type} (a : list A) (lo hi : nat) (v : A) :
  List.length (slice_fill a lo hi v) = List.length a.
Proof. apply length_slice_fill_from. Qed.

Lemma nth_error_slice_fill_from {A : Type} (i lo hi : nat) (v : A) (a : list A) (j : nat) :
  nth_error (slice_fill_from i lo hi v a) j =
  match nth_error a j with
  | Some x => Some (if (lo <=? i + j)%nat && (i + j <? hi)%nat then v else x)
  | None => None
  end.
Proof.
  revert i j. induction a as [| x a IH]; intros i j.
  - destruct j; reflexivity.
  - destruct j as [| j]; simpl.
    + rewrite Nat.add_0_r. reflexivity.
    + rewrite IH. replace (S i + j)%nat with (i + S j)%nat by lia. reflexivity.
Qed.

Lemma nth_error_slice_fill {A : Type} (a : list A) (lo hi : nat) (v : A) (j : nat) :
  nth_error (slice_fill a lo hi v) j =
  match nth_error a j with
  | Some x => Some (if (lo <=? j)%nat && (j <? hi)%nat then v else x)
  | None => None
  end.
Proof. apply (nth_error_slice_fill_from 0). Qed.

Lemma nth_error_map2 {A B C : Type} (f : A -> B -> C) (a : list A) (b : list B) (j : nat) :
  nth_error (map2 f a b) j =
  match nth_error a j, nth_error b j with
  | Some x, Some y => Some (f x y)
  | _, _ => None
  end.
Proof.
  revert b j. induction a as [| x a IH]; intros [| y b] [| j]; simpl; auto.
  destruct (nth_error a j); reflexivity.
Qed.

Lemma set_item_Ok {A : Type} (l : list A) (i : nat) (v : A) :
  (i < List.length l)%nat ->
  exists l', set_item l i v = Ok l' /\ List.length l' = List.length l.
Proof.
  revert i. induction l as [| a l IH]; intros i Hi; simpl in Hi; [lia |].
  destruct i as [| i]; simpl.
  - exists (v :: l). split; reflexivity.
  - destruct (IH i) as [l' [E Hl]]; [lia |].
    rewrite E. simpl. exists (a :: l'). split; [reflexivity | simpl; congruence].
Qed.

Lemma set_item_length {A : Type} (l l' : list A) (i : nat) (v : A) :
  set_item l i v = Ok l' -> List.length l' = List.length l.
Proof.
  revert i l'. induction l as [| a l IH]; intros i l' H; simpl in H.
  - discriminate H.
  - destruct i as [| i].
    + injection H as <-. reflexivity.
    + apply bind_Ok in H. destruct H as [r [E H]]. injection H as <-.
      simpl. f_equal. eapply IH. exact E.
Qed.

Lemma set_item_Raise {A : Type} (l : list A) (i : nat) (v : A) (e : exn) :
  set_item l i v = Raise e -> e = IndexError.
Proof.
  revert i. induction l as [| a l IH]; intros i H; simpl in H.
  - congruence.
  - destruct i as [| i]; [discriminate H |].
    apply bind_Raise in H. destruct H as [H | [r [_ H]]]; [| discriminate H].
    eapply IH. exact H.
Qed.

Lemma get_item_Ok {A : Type} (l : list A) (i : nat) :
  (i < List.length l)%nat -> exists a, get_item l i = Ok a.
Proof.
  intros Hi. unfold get_item.
  destruct (nth_error l i) eqn:E; [eauto |].
  apply nth_error_None in E. lia.
Qed.

Lemma get_item_Raise {A : Type} (l : list A) (i : nat) (e : exn) :
  get_item l i = Raise e -> e = IndexError.
Proof. unfold get_item. destruct (nth_error l i); congruence. Qed.

(** ** [normalize] *)

Lemma fold_max_spec (rest : list Q) (x0 : Q) :
  let m := fold_left py_max rest x0 in
  x0 <= m /\ Forall (fun y => y <= m) rest /\ In m (x0 :: rest).
Proof.
  revert x0. induction rest as [| y rest IH]; intros x0; simpl.
  - repeat split; [apply Qle_refl | constructor | left; reflexivity].
  - destruct (IH (py_max x0 y)) as [H1 [H2 H3]].
    destruct (py_max_lub x0 y) as [Ha Hb].
    repeat split.
    + eapply Qle_trans; eassumption.
    + constructor; [eapply Qle_trans; eassumption | exact H2].
    + simpl in H3. destruct H3 as [H3 | H3]; [| auto].
      destruct (py_max_cases x0 y) as [E | E]; [left | right; left]; congruence.
Qed.

Lemma fold_min_spec (rest : list Q) (x0 : Q) :
  let m := fold_left py_min rest x0 in
  m <= x0 /\ Forall (fun y => m <= y) rest /\ In m (x0 :: rest).
Proof.
  revert x0. induction rest as [| y rest IH]; intros x0; simpl.
  - repeat split; [apply Qle_refl | constructor | left; reflexivity].
  - destruct (IH (py_min x0 y)) as [H1 [H2 H3]].
    destruct (py_min_glb x0 y) as [Ha Hb].
    repeat split.
    + eapply Qle_trans; eassumption.
    + constructor; [eapply Qle_trans; eassumption | exact H2].
    + simpl in H3. destruct H3 as [H3 | H3]; [| auto].
      destruct (py_min_cases x0 y) as [E | E]; [left | right; left]; congruence.
Qed.

Lemma amax_spec (x : list Q) (m : Q) :
  amax x = Ok m -> Forall (fun y => y <= m) x /\ In m x.
Proof.
  destruct x as [| x0 rest]; simpl; intros H; [discriminate H |].
  injection H as <-. destruct (fold_max_spec rest x0) as [H1 [H2 H3]].
  split; [constructor; assumption | exact H3].
Qed.

Lemma amin_spec (x : list Q) (m : Q) :
  amin x = Ok m -> Forall (fun y => m <= y) x /\ In m x.
Proof.
  destruct x as [| x0 rest]; simpl; intros H; [discriminate H |].
  injection H as <-. destruct (fold_min_spec rest x0) as [H1 [H2 H3]].
  split; [constructor; assumption | exact H3].
Qed.

Lemma normalize_nil : normalize [] = Raise ValueError.
Proof. reflexivity. Qed.

Lemma normalize_Raise (x : list Q) (e : exn) :
  normalize x = Raise e -> x = [] /\ e = ValueError.
Proof.
  destruct x as [| x0 rest].
  - intros H. unfold normalize in H. simpl in H. split; congruence.
  - unfold normalize. simpl.
    destruct (Qeq_bool _ _); discriminate.
Qed.

Lemma normalize_Ok (x : list Q) :
  x <> [] -> exists y, normalize x = Ok y.
Proof.
  destruct x as [| x0 rest]; [congruence |]. intros _.
  unfold normalize. simpl. destruct (Qeq_bool _ _); eauto.
Qed.

Lemma normalize_length (x y : list Q) :
  normalize x = Ok y -> List.length y = List.length x /\ x <> [].
Proof.
  destruct x as [| x0 rest]; [discriminate |].
  unfold normalize. simpl.
  destruct (Qeq_bool _ _); intros H; injection H as <-;
    simpl; rewrite length_map; (split; [reflexivity | discriminate]).
Qed.

Lemma unit_interval_one : in_unit_interval 1.
Proof. unfold in_unit_interval. split; lra. Qed.

Lemma rescaled_in_unit_interval (v mn mx : Q) :
  mn <= v -> v <= mx ->
  in_unit_interval ((v - mn) / (mx - mn + (1 # 100000000))).
Proof.
  intros H1 H2. unfold in_unit_interval.
  assert (Hd : 0 < mx - mn + (1 # 100000000)) by lra.
  split.
  - apply Qle_shift_div_l; [exact Hd | lra].
  - apply Qle_shift_div_r; [exact Hd | lra].
Qed.

(** Whatever the array, the normalized values lie in [0, 1]. *)
Lemma normalize_range (x y : list Q) :
  normalize x = Ok y -> Forall in_unit_interval y.
Proof.
  unfold normalize. intros H.
  apply bind_Ok in H. destruct H as [mx [Emx H]].
  apply bind_Ok in H. destruct H as [mn [Emn H]].
  destruct (amax_spec _ _ Emx) as [Hmx _].
  destruct (amin_spec _ _ Emn) as [Hmn _].
  destruct (Qeq_bool mx mn).
  - injection H as <-. apply Forall_map.
    apply Forall_forall. intros ? _. apply unit_interval_one.
  - injection H as <-. apply Forall_map.
    rewrite Forall_forall in *. intros v Hv.
    apply rescaled_in_unit_interval; auto.
Qed.

(** A constant array normalizes to all ones. *)
Lemma normalize_constant (x : list Q) (c : Q) :
  x <> [] -> Forall (fun v => v == c) x ->
  normalize x = Ok (map (fun _ => 1) x).
Proof.
  intros Hne Hc. unfold normalize.
  destruct (amax x) as [mx |] eqn:Emx; [| destruct x; [congruence | discriminate]].
  destruct (amin x) as [mn |] eqn:Emn; [| destruct x; [congruence | discriminate]].
  simpl.
  destruct (amax_spec _ _ Emx) as [_ Hmx].
  destruct (amin_spec _ _ Emn) as [_ Hmn].
  rewrite Forall_forall in Hc.
  assert (E : Qeq_bool mx mn = true).
  { apply Qeq_bool_iff. rewrite (Hc _ Hmx), (Hc _ Hmn). reflexivity. }
  rewrite E. reflexivity.
Qed.

End ScorerFacts.

Module ScoreTokensFacts.
Import Py Re Scratch Spec PyFacts ScorerFacts.

(** ** [_get_query_scores] *)

Lemma assign_sentence_scores_length
    (sents : list (string * Q)) (token_texts : list string)
    (scores : list Q) (token_idx : nat) :
  List.length (fst (assign_sentence_scores sents token_texts scores token_idx))
  = List.length scores.
Proof.
  revert scores token_idx.
  induction sents as [| [sent sc] rest IH]; intros scores token_idx; simpl.
  - reflexivity.
  - match goal with |- context [if ?c then _ else _] => destruct c end; simpl.
    + apply length_slice_fill.
    + rewrite IH. apply length_slice_fill.
Qed.

Lemma _get_query_scores_length
    (rt : Runtime) (cfg : CompressorConfig) (text query : string)
    (token_texts : list string) :
  List.length (_get_query_scores rt cfg text query token_texts)
  = List.length token_texts.
Proof.
  unfold _get_query_scores.
  destruct (negb (use_query_aware cfg)); [apply repeat_length |].
  destruct (split_sentences text) as [| s0 ss] eqn:E.
  - rewrite length_vscale. apply repeat_length.
  - pose proof (assign_sentence_scores_length
                  (combine (s0 :: ss) (map (sentence_similarity rt query) (s0 :: ss)))
                  token_texts (repeat 0 (List.length token_texts)) 0) as HL.
    destruct (assign_sentence_scores _ _ _ _) as [scores token_idx].
    simpl in HL. rewrite repeat_length in HL.
    destruct (token_idx <? List.length scores)%nat.
    + rewrite length_slice_fill. exact HL.
    + exact HL.
Qed.

(** ** [_apply_position_bias] *)

Lemma _apply_position_bias_length (cfg : CompressorConfig) (scores : list Q) :
  List.length (_apply_position_bias cfg scores) = List.length scores.
Proof.
  unfold _apply_position_bias.
  destruct (List.length scores <? 10)%nat; [reflexivity |].
  rewrite length_vmul, !length_slice_fill, repeat_length. lia.
Qed.

(** ** The penalty loop *)

Lemma penalize_Ok (special_ids : list Z) (items : list (string * Z)) :
  forall (i : nat) (scores : list Q),
    (i + List.length items <= List.length scores)%nat ->
    exists scores', penalize special_ids i items scores = Ok scores'
                    /\ List.length scores' = List.length scores.
Proof.
  induction items as [| [t t_id] rest IH]; intros i scores Hlen; simpl in *.
  - eauto.
  - destruct (is_special special_ids t_id).
    + destruct (set_item_Ok scores i 0) as [s1 [E1 L1]]; [lia |].
      rewrite E1. simpl.
      destruct (IH (S i) s1) as [s2 [E2 L2]]; [lia |].
      exists s2. split; [exact E2 | congruence].
    + destruct (negb (has_alnum t)).
      * destruct (get_item_Ok scores i) as [s Es]; [lia |].
        rewrite Es. simpl.
        destruct (set_item_Ok scores i (s * (5 # 10))) as [s1 [E1 L1]]; [lia |].
        rewrite E1. simpl.
        destruct (IH (S i) s1) as [s2 [E2 L2]]; [lia |].
        exists s2. split; [exact E2 | congruence].
      * destruct (startswith t "##").
        -- destruct (get_item_Ok scores i) as [s Es]; [lia |].
           rewrite Es. simpl.
           destruct (set_item_Ok scores i (s * (8 # 10))) as [s1 [E1 L1]]; [lia |].
           rewrite E1. simpl.
           destruct (IH (S i) s1) as [s2 [E2 L2]]; [lia |].
           exists s2. split; [exact E2 | congruence].
        -- apply IH. lia.
Qed.

(** ** The fusion *)

Lemma fuse_length
    (rt : Runtime) (cfg : CompressorConfig) (text : string)
    (query : option string) (tokens : list string)
    (attn_scores sem_scores scores : list Q) :
  List.length attn_scores = List.length tokens ->
  List.length sem_scores = List.length tokens ->
  fuse rt cfg text query tokens attn_scores sem_scores = Ok scores ->
  List.length scores = List.length tokens.
Proof.
  intros Ha Hs. unfold fuse.
  destruct (query_given query && use_query_aware cfg).
  - intros H. apply bind_Ok in H. destruct H as [qs [Eq H]].
    injection H as <-.
    apply normalize_length in Eq. destruct Eq as [Eq _].
    rewrite _get_query_scores_length in Eq.
    rewrite !length_vadd, !length_vscale. lia.
  - intros H. apply bind_Ok in H. destruct H as [wa [_ H]].
    apply bind_Ok in H. destruct H as [ws [_ H]].
    injection H as <-.
    rewrite !length_vadd, !length_vscale. lia.
Qed.

Lemma py_div_Ok (a b : Q) : ~ b == 0 -> py_div a b = Ok (a / b).
Proof.
  intros H. unfold py_div.
  destruct (Qeq_bool b 0) eqn:E; [| reflexivity].
  apply Qeq_bool_iff in E. contradiction.
Qed.

Lemma py_div_Raise (a b : Q) (e : exn) :
  py_div a b = Raise e -> e = ZeroDivisionError /\ b == 0.
Proof.
  unfold py_div. destruct (Qeq_bool b 0) eqn:E; [| discriminate].
  intros H. apply Qeq_bool_iff in E. split; congruence.
Qed.

(** The fusion fails only by the division of the weights by their zero
    sum, on the branch without a query. *)
Lemma fuse_Raise
    (rt : Runtime) (cfg : CompressorConfig) (text : string)
    (query : option string) (tokens : list string)
    (attn_scores sem_scores : list Q) (e : exn) :
  tokens <> [] ->
  fuse rt cfg text query tokens attn_scores sem_scores = Raise e ->
  e = ZeroDivisionError
  /\ query_given query && use_query_aware cfg = false
  /\ attention_weight cfg + semantic_weight cfg == 0.
Proof.
  intros Hne. unfold fuse.
  destruct (query_given query && use_query_aware cfg).
  - intros H. apply bind_Raise in H. destruct H as [H | [qs [_ H]]]; [| discriminate H].
    apply normalize_Raise in H. destruct H as [H _].
    apply (f_equal (@List.length Q)) in H.
    rewrite _get_query_scores_length in H.
    destruct tokens; [congruence | discriminate H].
  - intros H. apply bind_Raise in H. destruct H as [H | [wa [_ H]]].
    + apply py_div_Raise in H. tauto.
    + apply bind_Raise in H. destruct H as [H | [ws [_ H]]]; [| discriminate H].
      apply py_div_Raise in H. tauto.
Qed.

Lemma fuse_Ok
    (rt : Runtime) (cfg : CompressorConfig) (text : string)
    (query : option string) (tokens : list string)
    (attn_scores sem_scores : list Q) :
  tokens <> [] ->
  (query_given query && use_query_aware cfg = true
   \/ ~ attention_weight cfg + semantic_weight cfg == 0) ->
  exists scores,
    fuse rt cfg text query tokens attn_scores sem_scores = Ok scores.
Proof.
  intros Hne Hbranch.
  destruct (fuse rt cfg text query tokens attn_scores sem_scores) as [s | e] eqn:E;
    [eauto |].
  apply fuse_Raise in E; [| exact Hne]. destruct E as [_ [E1 E2]].
  destruct Hbranch as [Hb | Hb]; [congruence | contradiction].
Qed.

(** ** [score_tokens] *)

(** What a successful call returns: one score in [0, 1] per token. *)
Lemma score_tokens_Ok_inv
    (rt : Runtime) (cfg : CompressorConfig) (text : string)
    (query : option string) (scores : list Q) (tokens : list string)
    (token_ids : list Z) :
  score_tokens rt cfg text query = Ok (scores, tokens, token_ids) ->
  tokens = map tok (encoded_of rt cfg text)
  /\ token_ids = map tid (encoded_of rt cfg text)
  /\ List.length scores = List.length tokens
  /\ List.length token_ids = List.length tokens
  /\ tokens <> []
  /\ Forall in_unit_interval scores.
Proof.
  unfold score_tokens. fold (encoded_of rt cfg text).
  set (enc := encoded_of rt cfg text). intros H.
  apply bind_Ok in H. destruct H as [a [Ea H]].
  apply bind_Ok in H. destruct H as [s [Es H]].
  apply bind_Ok in H. destruct H as [f [Ef H]].
  apply bind_Ok in H. destruct H as [p [Ep H]].
  apply bind_Ok in H. destruct H as [n [En H]].
  injection H as <- <- <-.
  apply normalize_length in Ea. destruct Ea as [La Hne].
  apply normalize_length in Es. destruct Es as [Ls _].
  rewrite length_map in La, Ls.
  assert (Lf : List.length f = List.length (map tok enc)).
  { eapply fuse_length; [| | exact Ef]; rewrite length_map; assumption. }
  pose proof (normalize_range _ _ En) as Hrange.
  apply normalize_length in En. destruct En as [Ln _].
  set (b := if use_position_bias cfg then _apply_position_bias cfg f else f) in *.
  assert (Lb : List.length b = List.length f).
  { unfold b. destruct (use_position_bias cfg);
      [apply _apply_position_bias_length | reflexivity]. }
  destruct (penalize_Ok (all_special_ids rt (encoder_model cfg))
              (combine (map tok enc) (map tid enc)) 0 b) as [p' [Ep' Lp]].
  { rewrite length_combine, !length_map, Lb, Lf, length_map. simpl. lia. }
  rewrite Ep' in Ep. injection Ep as <-.
  repeat split; try reflexivity.
  - rewrite Ln, Lp, Lb, Lf. reflexivity.
  - rewrite !length_map. reflexivity.
  - intros E. apply Hne. destruct enc; [reflexivity | discriminate E].
  - exact Hrange.
Qed.

(** When a call fails: an empty token sequence, or the zero sum of the two
    weights on the branch without a query. *)
Lemma score_tokens_Raise
    (rt : Runtime) (cfg : CompressorConfig) (text : string)
    (query : option string) (e : exn) :
  score_tokens rt cfg text query = Raise e ->
  (e = ValueError /\ encoded_of rt cfg text = [])
  \/ (e = ZeroDivisionError
      /\ query_given query && use_query_aware cfg = false
      /\ attention_weight cfg + semantic_weight cfg == 0).
Proof.
  unfold score_tokens. fold (encoded_of rt cfg text).
  set (enc := encoded_of rt cfg text). intros H.
  apply bind_Raise in H. destruct H as [H | [a [Ea H]]].
  { left. apply normalize_Raise in H. destruct H as [H ->].
    split; [reflexivity |]. destruct enc; [reflexivity | discriminate H]. }
  apply normalize_length in Ea. destruct Ea as [La Hne].
  rewrite length_map in La.
  apply bind_Raise in H. destruct H as [H | [s [Es H]]].
  { apply normalize_Raise in H. destruct H as [H _].
    exfalso. apply Hne. destruct enc; [reflexivity | discriminate H]. }
  apply normalize_length in Es. destruct Es as [Ls _].
  rewrite length_map in Ls.
  assert (Htok : map tok enc <> []).
  { intros E. apply Hne. destruct enc; [reflexivity | discriminate E]. }
  apply bind_Raise in H. destruct H as [H | [f [Ef H]]].
  { right. eapply fuse_Raise; eassumption. }
  assert (Lf : List.length f = List.length (map tok enc)).
  { eapply fuse_length; [| | exact Ef]; rewrite length_map; assumption. }
  set (b := if use_position_bias cfg then _apply_position_bias cfg f else f) in *.
  assert (Lb : List.length b = List.length f).
  { unfold b. destruct (use_position_bias cfg);
      [apply _apply_position_bias_length | reflexivity]. }
  destruct (penalize_Ok (all_special_ids rt (encoder_model cfg))
              (combine (map tok enc) (map tid enc)) 0 b) as [p' [Ep' Lp]].
  { rewrite length_combine, !length_map, Lb, Lf, length_map. simpl. lia. }
  rewrite Ep' in H. simpl in H.
  apply bind_Raise in H. destruct H as [H | [n [_ H]]]; [| discriminate H].
  apply normalize_Raise in H. destruct H as [H _].
  exfalso. subst p'. simpl in Lp. rewrite Lb, Lf, length_map in Lp.
  apply Hne. destruct enc; [reflexivity | discriminate Lp].
Qed.

Lemma score_tokens_Ok
    (rt : Runtime) (cfg : CompressorConfig) (text : string)
    (query : option string) :
  encoded_of rt cfg text <> [] ->
  (query_given query && use_query_aware cfg = true
   \/ ~ attention_weight cfg + semantic_weight cfg == 0) ->
  exists scores tokens token_ids,
    score_tokens rt cfg text query = Ok (scores, tokens, token_ids).
Proof.
  intros Hne Hb.
  destruct (score_tokens rt cfg text query) as [[[s t] i] | e] eqn:E; [eauto |].
  apply score_tokens_Raise in E.
  destruct E as [[_ E] | [_ [E1 E2]]]; [contradiction |].
  destruct Hb as [Hb | Hb]; [congruence | contradiction].
Qed.

End ScoreTokensFacts.

(* ===================================================================== *)
(** * Facts about the selection of [compress]                             *)
(* ===================================================================== *)

Module SelectFacts.
Import Py Re Scratch Spec PyFacts SortFacts ScorerFacts ScoreTokensFacts.

Lemma select_from_In (scores : list Q) (threshold : Q) :
  forall (i j : nat),
    In j (select_from i scores threshold) <->
    (i <= j)%nat /\ exists s, nth_error scores (j - i) = Some s /\ threshold <= s.
Proof.
  induction scores as [| s0 rest IH]; intros i j; simpl.
  - split; [tauto |]. intros [_ [s [H _]]]. destruct (j - i)%nat; discriminate H.
  - assert (Hrest :
      In j (select_from (S i) rest threshold) <->
      (i < j)%nat /\ exists s, nth_error (s0 :: rest) (j - i) = Some s /\ threshold <= s).
    { rewrite IH. split.
      - intros [Hij [s [Hs Ht]]]. split; [lia |]. exists s. split; [| exact Ht].
        replace (j - i)%nat with (S (j - S i)) by lia. exact Hs.
      - intros [Hij [s [Hs Ht]]]. split; [lia |]. exists s. split; [| exact Ht].
        replace (j - i)%nat with (S (j - S i)) in Hs by lia. exact Hs. }
    destruct (Qle_bool threshold s0) eqn:E.
    + simpl. rewrite Hrest. apply Qle_bool_iff in E. split.
      * intros [-> | [Hij H]].
        -- split; [lia |]. exists s0. rewrite Nat.sub_diag. split; [reflexivity | exact E].
        -- split; [lia | exact H].
      * intros [Hij H]. destruct (Nat.eq_dec i j) as [-> | Hne]; [left; reflexivity |].
        right. split; [lia | exact H].
    + rewrite Hrest. apply Qle_bool_false_iff in E. split.
      * intros [Hij H]. split; [lia | exact H].
      * intros [Hij [s [Hs Ht]]]. split; [| eauto].
        destruct (Nat.eq_dec i j) as [-> | Hne]; [| lia].
        rewrite Nat.sub_diag in Hs. simpl in Hs. injection Hs as <-.
        exfalso. exact (Qlt_not_le _ _ E Ht).
Qed.

Lemma select_In (scores : list Q) (threshold : Q) (j : nat) :
  In j (select scores threshold) <->
  exists s, nth_error scores j = Some s /\ threshold <= s.
Proof.
  unfold select. rewrite select_from_In, Nat.sub_0_r.
  split; [tauto |]. intros H. split; [lia | exact H].
Qed.

Lemma select_from_length (scores : list Q) (threshold : Q) (i : nat) :
  List.length (select_from i scores threshold) = count_ge threshold scores.
Proof.
  unfold count_ge. revert i.
  induction scores as [| s0 rest IH]; intros i; simpl; [reflexivity |].
  destruct (Qle_bool threshold s0); simpl; rewrite IH; reflexivity.
Qed.

Lemma select_from_bounds (scores : list Q) (threshold : Q) (i : nat) :
  Forall (fun j => (i <= j < i + List.length scores)%nat)
         (select_from i scores threshold).
Proof.
  apply Forall_forall. intros j Hj. apply select_from_In in Hj.
  destruct Hj as [Hij [s [Hs _]]].
  assert (j - i < List.length scores)%nat by (apply nth_error_Some; congruence).
  lia.
Qed.

(** The kept indices come out in increasing order. *)
Lemma select_from_increasing (scores : list Q) (threshold : Q) (i : nat) :
  strictly_increasing (select_from i scores threshold).
Proof.
  unfold strictly_increasing. revert i.
  induction scores as [| s0 rest IH]; intros i; simpl; [constructor |].
  destruct (Qle_bool threshold s0); [| apply IH].
  constructor; [apply IH |].
  eapply Forall_impl; [| apply select_from_bounds].
  simpl. intros j Hj. lia.
Qed.

Lemma select_from_all (scores : list Q) (threshold : Q) (i : nat) :
  Forall (fun s => threshold <= s) scores ->
  select_from i scores threshold = seq i (List.length scores).
Proof.
  intros H. revert i. induction H as [| s0 rest Hs _ IH]; intros i; simpl.
  - reflexivity.
  - apply Qle_bool_iff in Hs. rewrite Hs, IH. reflexivity.
Qed.

Lemma mapM_get_item_Ok {A : Type} (l : list A) (idx : list nat) :
  Forall (fun j => (j < List.length l)%nat) idx ->
  exists r, mapM (get_item l) idx = Ok r /\ List.length r = List.length idx.
Proof.
  induction 1 as [| j idx Hj _ [r [IH L]]]; simpl.
  - exists []. split; reflexivity.
  - destruct (get_item_Ok l j Hj) as [a Ea]. rewrite Ea, IH. simpl.
    exists (a :: r). split; [reflexivity | simpl; congruence].
Qed.

Lemma mapM_get_item_nth (l : list string) (idx : list nat) (r : list string) :
  mapM (get_item l) idx = Ok r -> r = map (fun i => nth i l "") idx.
Proof.
  revert r. induction idx as [| j idx IH]; simpl; intros r H.
  - injection H as <-. reflexivity.
  - apply bind_Ok in H. destruct H as [a [Ea H]].
    apply bind_Ok in H. destruct H as [rest [Er H]].
    injection H as <-. rewrite <- (IH rest Er). f_equal.
    unfold get_item in Ea. destruct (nth_error l j) eqn:E; [| discriminate Ea].
    injection Ea as <-. symmetry. apply nth_error_nth. exact E.
Qed.

Lemma ratio_of_Ok (comp_tokens orig_count : nat) :
  ratio_of comp_tokens orig_count
  = Ok (if (0 <? orig_count)%nat then Qofnat comp_tokens / Qofnat orig_count else 1).
Proof.
  unfold ratio_of. destruct (0 <? orig_count)%nat eqn:E; [| reflexivity].
  apply py_div_Ok. apply Nat.ltb_lt in E.
  unfold Qofnat, Qeq. simpl. lia.
Qed.

Lemma length_sorted_scores (scores : list Q) :
  List.length (rev (np_sort scores)) = List.length scores.
Proof. symmetry. apply Permutation_length, sorted_scores_perm. Qed.

Lemma keep_threshold_all (cfg : CompressorConfig) (n : nat) (target : Q) (scores : list Q) :
  (Z.of_nat n <= keep_count cfg n target)%Z ->
  keep_threshold cfg n target scores = Ok 0.
Proof.
  intros H. unfold keep_threshold.
  apply Z.leb_le in H. rewrite H. reflexivity.
Qed.

Lemma keep_threshold_kth (cfg : CompressorConfig) (n : nat) (target : Q) (scores : list Q) :
  List.length scores = n ->
  (1 <= keep_count cfg n target < Z.of_nat n)%Z ->
  exists t,
    nth_error (rev (np_sort scores)) (Z.to_nat (keep_count cfg n target) - 1) = Some t
    /\ keep_threshold cfg n target scores = Ok (py_max t (hard_threshold cfg)).
Proof.
  intros Hlen Hk. unfold keep_threshold.
  set (k := keep_count cfg n target) in *.
  assert (E : (Z.of_nat n <=? k)%Z = false) by (apply Z.leb_gt; lia).
  rewrite E. unfold py_getitem.
  assert (E0 : (0 <=? k - 1)%Z = true) by (apply Z.leb_le; lia).
  rewrite E0. unfold get_item.
  replace (Z.to_nat (k - 1)) with (Z.to_nat k - 1)%nat by lia.
  destruct (nth_error (rev (np_sort scores)) (Z.to_nat k - 1)) as [t |] eqn:Et.
  - exists t. split; reflexivity.
  - apply nth_error_None in Et. rewrite length_sorted_scores in Et. lia.
Qed.

Lemma keep_threshold_last (cfg : CompressorConfig) (n : nat) (target : Q) (scores : list Q) :
  List.length scores = n -> (1 <= n)%nat ->
  keep_count cfg n target = 0%Z ->
  exists t, keep_threshold cfg n target scores = Ok (py_max t (hard_threshold cfg)).
Proof.
  intros Hlen Hn Hk. unfold keep_threshold. rewrite Hk.
  assert (E : (Z.of_nat n <=? 0)%Z = false) by (apply Z.leb_gt; lia).
  rewrite E. unfold py_getitem. simpl (0 <=? 0 - 1)%Z.
  rewrite length_sorted_scores, Hlen.
  assert (E1 : (- Z.of_nat n <=? 0 - 1)%Z = true) by (apply Z.leb_le; lia).
  rewrite E1.
  destruct (get_item_Ok (rev (np_sort scores)) (Z.to_nat (Z.of_nat n + (0 - 1))))
    as [t Et].
  { rewrite length_sorted_scores. lia. }
  rewrite Et. simpl. exists t. reflexivity.
Qed.

Lemma py_int_nonneg (x : Q) : 0 <= x -> (0 <= py_int x)%Z.
Proof.
  intros H. rewrite (py_int_floor x H).
  change 0%Z with (Qfloor 0). apply Qfloor_resp_le. exact H.
Qed.

(** ** [compress] step by step *)

Lemma compress_Ok_inv
    (rt : Runtime) (cfg : CompressorConfig) (text : string)
    (query : option string) (target_ratio : option Q) (r : CompressionResult) :
  compress rt cfg text query target_ratio = Ok r ->
  exists scores tokens token_ids threshold kept_tokens,
    score_tokens rt cfg text query = Ok (scores, tokens, token_ids)
    /\ keep_threshold cfg (List.length tokens)
                      (effective_target cfg target_ratio) scores = Ok threshold
    /\ mapM (get_item tokens) (select scores threshold) = Ok kept_tokens
    /\ r = {| original_text := text;
              compressed_text :=
                strip (collapse_spaces
                         (convert_tokens_to_string rt (encoder_model cfg) kept_tokens));
              original_tokens := count_tokens rt text;
              compressed_tokens :=
                count_tokens rt
                  (strip (collapse_spaces
                            (convert_tokens_to_string rt (encoder_model cfg) kept_tokens)));
              token_scores := scores;
              kept_indices := select scores threshold;
              compression_ratio :=
                if (0 <? count_tokens rt text)%nat
                then Qofnat (count_tokens rt
                       (strip (collapse_spaces
                          (convert_tokens_to_string rt (encoder_model cfg) kept_tokens))))
                     / Qofnat (count_tokens rt text)
                else 1 |}.
Proof.
  unfold compress. intros H.
  apply bind_Ok in H. destruct H as [[[scores tokens] token_ids] [Es H]].
  apply bind_Ok in H. destruct H as [threshold [Et H]].
  apply bind_Ok in H. destruct H as [kept_tokens [Ek H]].
  rewrite ratio_of_Ok in H. simpl in H. injection H as <-.
  exists scores, tokens, token_ids, threshold, kept_tokens.
  repeat split; assumption.
Qed.

Lemma compress_Ok_intro
    (rt : Runtime) (cfg : CompressorConfig) (text : string)
    (query : option string) (target_ratio : option Q)
    (scores : list Q) (tokens : list string) (token_ids : list Z) (threshold : Q) :
  score_tokens rt cfg text query = Ok (scores, tokens, token_ids) ->
  keep_threshold cfg (List.length tokens)
                 (effective_target cfg target_ratio) scores = Ok threshold ->
  exists r,
    compress rt cfg text query target_ratio = Ok r
    /\ token_scores r = scores
    /\ kept_indices r = select scores threshold
    /\ original_tokens r = count_tokens rt text
    /\ compressed_tokens r = count_tokens rt (compressed_text r).
Proof.
  intros Es Et.
  destruct (score_tokens_Ok_inv _ _ _ _ _ _ _ Es) as [_ [_ [Ls _]]].
  destruct (mapM_get_item_Ok tokens (select scores threshold)) as [kt [Ek _]].
  { eapply Forall_impl; [| apply select_from_bounds].
    simpl. intros j Hj. lia. }
  unfold compress. rewrite Es. simpl. rewrite Et. simpl. rewrite Ek. simpl.
  rewrite ratio_of_Ok. simpl.
  eexists. split; [reflexivity |]. simpl. repeat split.
Qed.

End SelectFacts.

(* ===================================================================== *)
(** * Selection: the properties of [compress]                             *)
(* ===================================================================== *)

Module SelectionProperties.
Import Py Re Scratch Stub Spec PyFacts SortFacts ScorerFacts ScoreTokensFacts SelectFacts.

(** C1 (as stated, refuted).  With [n] the number of content tokens, that
    is the tokens other than the structural tokens of the encoder, the rule
    of the specification and [compress] select different tokens: on the
    text "ab cd ef", with a floor of one token and a target ratio of one
    half, the encoder yields five tokens of which three are content tokens;
    [compress] takes [k = max(1, int(5 * 0.5)) = 2] and keeps the indices 2
    and 3, the rule for [n = 3] takes [k = 1] and keeps index 3 only. *)
Lemma selection_counts_structural_tokens :
  exists r scores tokens token_ids,
    score_tokens stub (config_with 1 (1 # 2) 450) "ab cd ef" None
      = Ok (scores, tokens, token_ids)
    /\ compress stub (config_with 1 (1 # 2) 450) "ab cd ef" None None = Ok r
    /\ List.length tokens = 5%nat
    /\ content_count (all_special_ids stub "distilbert-base-uncased") token_ids = 3%nat
    /\ kept_indices r = [2; 3]%nat
    /\ spec_selection (config_with 1 (1 # 2) 450) (1 # 2) 3 scores = Some [3%nat]
    /\ spec_selection (config_with 1 (1 # 2) 450) (1 # 2) 3 scores
       <> Some (kept_indices r).
Proof.
  eexists. eexists. eexists. eexists.
  split; [vm_compute; reflexivity |].
  split; [vm_compute; reflexivity |].
  split; [vm_compute; reflexivity |].
  split; [vm_compute; reflexivity |].
  split; [vm_compute; reflexivity |].
  split; [vm_compute; reflexivity |].
  vm_compute. discriminate.
Qed.

(** C1 (amended).  For every call of [compress] whose scoring succeeds, let
    [n] be the number of tokens of the encoder pass, structural tokens
    included, and [k = max(min_tokens, int(n * target))], which is
    [max(min_tokens, floor(n * target))] for a non-negative target.  If
    [k >= n] the threshold is 0 and every token is kept.  If [1 <= k < n]
    the threshold is the [k]-th largest fused score, floored at the hard
    threshold, and exactly the tokens whose score reaches the threshold are
    kept; when the hard threshold does not exceed the [k]-th largest score
    at least [k] tokens are kept. *)
Theorem selection_rule
    (rt : Runtime) (cfg : CompressorConfig) (text : string)
    (query : option string) (target_ratio : option Q)
    (scores : list Q) (tokens : list string) (token_ids : list Z) :
  score_tokens rt cfg text query = Ok (scores, tokens, token_ids) ->
  let n := List.length tokens in
  let target := effective_target cfg target_ratio in
  let k := keep_count cfg n target in
  n = List.length (encoded_of rt cfg text)
  /\ (0 <= target -> k = Z.max (min_tokens cfg) (Qfloor (Qofnat n * target)))
  /\ ((Z.of_nat n <= k)%Z ->
      keep_threshold cfg n target scores = Ok 0
      /\ exists r,
           compress rt cfg text query target_ratio = Ok r
           /\ token_scores r = scores
           /\ kept_indices r = seq 0 n)
  /\ ((1 <= k < Z.of_nat n)%Z ->
      exists t r,
        kth_largest (Z.to_nat k) t scores
        /\ keep_threshold cfg n target scores = Ok (py_max t (hard_threshold cfg))
        /\ compress rt cfg text query target_ratio = Ok r
        /\ token_scores r = scores
        /\ (forall i, In i (kept_indices r) <->
                      exists s, nth_error scores i = Some s
                                /\ py_max t (hard_threshold cfg) <= s)
        /\ (hard_threshold cfg <= t ->
            (Z.to_nat k <= List.length (kept_indices r))%nat)).
Proof.
  intros Hs n target k.
  destruct (score_tokens_Ok_inv _ _ _ _ _ _ _ Hs)
    as [Htok [_ [Lscores [_ [_ Hrange]]]]].
  split; [unfold n; rewrite Htok; apply length_map |].
  split.
  { intros Ht. unfold k, keep_count. f_equal. apply py_int_floor.
    apply Qmult_le_0_compat; [| exact Ht].
    unfold Qofnat, Qle. simpl. lia. }
  split.
  - intros Hk.
    pose proof (keep_threshold_all cfg n target scores Hk) as Et.
    split; [exact Et |].
    destruct (compress_Ok_intro rt cfg text query target_ratio _ _ _ _ Hs Et)
      as [r [Er [Hsc [Hkept _]]]].
    exists r. split; [exact Er |]. split; [exact Hsc |].
    rewrite Hkept. unfold select, n. rewrite <- Lscores.
    apply select_from_all.
    eapply Forall_impl; [| exact Hrange]. intros s [H0 _]. exact H0.
  - intros Hk.
    destruct (keep_threshold_kth cfg n target scores Lscores Hk) as [t [Hnth Et]].
    destruct (compress_Ok_intro rt cfg text query target_ratio _ _ _ _ Hs Et)
      as [r [Er [Hsc [Hkept _]]]].
    assert (Hkth : kth_largest (Z.to_nat k) t scores).
    { apply sorted_kth_largest; [lia | exact Hnth]. }
    exists t, r.
    split; [exact Hkth |]. split; [exact Et |]. split; [exact Er |].
    split; [exact Hsc |]. split.
    + intros i. rewrite Hkept. apply select_In.
    + intros Hhard. rewrite Hkept. unfold select.
      rewrite select_from_length.
      destruct Hkth as [_ [Hge _]].
      assert (E : py_max t (hard_threshold cfg) = t).
      { unfold py_max. apply Qlt_bool_false_iff in Hhard. rewrite Hhard. reflexivity. }
      rewrite E. exact Hge.
Qed.

(** The selection rule at work on "Hello world" under the default
    configuration: six tokens, [k = 50], everything is kept. *)
Lemma selection_rule_witness :
  exists scores tokens token_ids,
    score_tokens stub default_config "Hello world" None = Ok (scores, tokens, token_ids)
    /\ exists r,
         compress stub default_config "Hello world" None None = Ok r
         /\ token_scores r = scores
         /\ kept_indices r = [0; 1; 2; 3; 4; 5]%nat.
Proof.
  match eval vm_compute in (score_tokens stub default_config "Hello world" None) with
  | Ok (?s, ?t, ?i) =>
      exists s, t, i;
      assert (H : score_tokens stub default_config "Hello world" None = Ok (s, t, i))
        by (vm_compute; reflexivity);
      split; [exact H |];
      destruct (selection_rule stub default_config "Hello world" None None s t i H)
        as [_ [_ [Hall _]]]
  end.
  destruct Hall as [_ Hr]; [vm_compute; discriminate | exact Hr].
Defined.

Lemma compress_each_kept_indices
    (rt : Runtime) (cfg : CompressorConfig) (text : string)
    (query : option string) (target_ratio : option Q) (r : CompressionResult) :
  compress_chunks rt cfg text query target_ratio = Ok r -> kept_indices r = [].
Proof.
  unfold compress_chunks. intros H.
  apply bind_Ok in H. destruct H as [[[cs o] c] [_ H]].
  apply bind_Ok in H. destruct H as [ratio [_ H]].
  injection H as <-. reflexivity.
Qed.

(** C2.  The list [kept_indices] returned by [compress] is strictly
    increasing and within the token sequence, and the text is rebuilt from
    the tokens at those indices, in that order; the list returned by
    [compress_chunks] is empty. *)
Theorem kept_indices_increasing
    (rt : Runtime) (cfg : CompressorConfig) (text : string)
    (query : option string) (target_ratio : option Q) (r : CompressionResult) :
  compress rt cfg text query target_ratio = Ok r ->
  strictly_increasing (kept_indices r)
  /\ (exists scores tokens token_ids,
        score_tokens rt cfg text query = Ok (scores, tokens, token_ids)
        /\ Forall (fun i => (i < List.length tokens)%nat) (kept_indices r)
        /\ compressed_text r
           = strip (collapse_spaces
                      (convert_tokens_to_string rt (encoder_model cfg)
                         (map (fun i => nth i tokens "") (kept_indices r)))))
  /\ (forall r', compress_chunks rt cfg text query target_ratio = Ok r' ->
                 strictly_increasing (kept_indices r')).
Proof.
  intros H.
  destruct (compress_Ok_inv _ _ _ _ _ _ H)
    as [scores [tokens [token_ids [threshold [kept_tokens [Hs [_ [Hk Hr]]]]]]]].
  destruct (score_tokens_Ok_inv _ _ _ _ _ _ _ Hs) as [_ [_ [Lscores _]]].
  subst r. simpl. split; [apply select_from_increasing |]. split.
  - exists scores, tokens, token_ids. split; [exact Hs |]. split.
    + eapply Forall_impl; [| apply select_from_bounds].
      simpl. intros j Hj. lia.
    + rewrite (mapM_get_item_nth _ _ _ Hk). reflexivity.
  - intros r' H'. rewrite (compress_each_kept_indices _ _ _ _ _ _ H').
    constructor.
Qed.

(** On "ab cd ef" with a target ratio of one half the indices 2 and 3 are
    kept, in this order. *)
Lemma kept_indices_increasing_witness :
  exists r,
    compress stub (config_with 1 (1 # 2) 450) "ab cd ef" None None = Ok r
    /\ kept_indices r = [2; 3]%nat
    /\ strictly_increasing (kept_indices r).
Proof.
  match eval vm_compute in
        (compress stub (config_with 1 (1 # 2) 450) "ab cd ef" None None) with
  | Ok ?r =>
      exists r;
      assert (H : compress stub (config_with 1 (1 # 2) 450) "ab cd ef" None None = Ok r)
        by (vm_compute; reflexivity);
      split; [exact H |]; split; [reflexivity |];
      exact (proj1 (kept_indices_increasing _ _ _ _ _ _ H))
  end.
Defined.

(** C3 (as stated, refuted).  The reported token counts come from the
    reference tokenizer, the selection counts encoder tokens.  On the text
    "aaaaaaaaaaaa b c" with a floor of three tokens the original count is 3,
    three encoder tokens are kept, two of them are the two pieces of the
    first word, and the compressed text "aaaaaaaaaaaa c" counts 2: below the
    floor although the original count reaches it. *)
Lemma compressed_count_below_floor :
  exists r,
    compress stub (config_with 3 (34 # 100) 450) "aaaaaaaaaaaa b c" None None = Ok r
    /\ min_tokens (config_with 3 (34 # 100) 450) = 3%Z
    /\ original_tokens r = 3%nat
    /\ kept_indices r = [1; 2; 4]%nat
    /\ compressed_text r = "aaaaaaaaaaaa c"
    /\ compressed_tokens r = 2%nat
    /\ (min_tokens (config_with 3 (34 # 100) 450) <= Z.of_nat (original_tokens r))%Z
    /\ (Z.of_nat (compressed_tokens r) < min_tokens (config_with 3 (34 # 100) 450))%Z.
Proof.
  eexists. split; [vm_compute; reflexivity |].
  repeat split; vm_compute; congruence.
Qed.

Lemma count_ge_le_length (t : Q) (scores : list Q) :
  (count_ge t scores <= List.length scores)%nat.
Proof. unfold count_ge. apply filter_length_le. Qed.

(** C3 (amended).  Under a hard threshold that is not positive, and a
    floor of at least one token or a target ratio that is not negative, a
    call of [compress] whose scoring succeeds returns, and keeps [K] of the
    [n] encoder tokens with [min(min_tokens, n) <= K <= n], and [K = n]
    whenever [k >= n]; the counts it reports are the counts of the
    reference tokenizer on the input and on the rebuilt text. *)
Theorem kept_count_bounds
    (rt : Runtime) (cfg : CompressorConfig) (text : string)
    (query : option string) (target_ratio : option Q)
    (scores : list Q) (tokens : list string) (token_ids : list Z) :
  score_tokens rt cfg text query = Ok (scores, tokens, token_ids) ->
  hard_threshold cfg <= 0 ->
  (1 <= min_tokens cfg)%Z \/ 0 <= effective_target cfg target_ratio ->
  exists r,
    compress rt cfg text query target_ratio = Ok r
    /\ (Z.min (min_tokens cfg) (Z.of_nat (List.length tokens))
        <= Z.of_nat (List.length (kept_indices r)))%Z
    /\ (List.length (kept_indices r) <= List.length tokens)%nat
    /\ ((Z.of_nat (List.length tokens)
         <= keep_count cfg (List.length tokens) (effective_target cfg target_ratio))%Z ->
        List.length (kept_indices r) = List.length tokens)
    /\ original_tokens r = count_tokens rt text
    /\ compressed_tokens r = count_tokens rt (compressed_text r).
Proof.
  intros Hs Hhard Hfloor.
  destruct (score_tokens_Ok_inv _ _ _ _ _ _ _ Hs)
    as [_ [_ [Lscores [_ [Hne Hrange]]]]].
  set (n := List.length tokens) in *.
  set (target := effective_target cfg target_ratio) in *.
  assert (Hn : (1 <= n)%nat).
  { unfold n. destruct tokens; [congruence | simpl; lia]. }
  assert (Hk : (min_tokens cfg <= keep_count cfg n target)%Z).
  { unfold keep_count. apply Z.le_max_l. }
  assert (Hk0 : (1 <= keep_count cfg n target)%Z \/ keep_count cfg n target = 0%Z).
  { destruct Hfloor as [Hm | Ht]; [left; lia |].
    assert (0 <= py_int (Qofnat n * target))%Z.
    { apply py_int_nonneg. apply Qmult_le_0_compat; [| exact Ht].
      unfold Qofnat, Qle. simpl. lia. }
    unfold keep_count in *. lia. }
  destruct (Z_le_gt_dec (Z.of_nat n) (keep_count cfg n target)) as [Hall | Hsome].
  - pose proof (keep_threshold_all cfg n target scores Hall) as Et.
    destruct (compress_Ok_intro rt cfg text query target_ratio _ _ _ _ Hs Et)
      as [r [Er [_ [Hkept [Ho Hc]]]]].
    assert (Hlen : List.length (kept_indices r) = n).
    { rewrite Hkept. unfold select. rewrite select_from_all.
      - rewrite length_seq. exact Lscores.
      - eapply Forall_impl; [| exact Hrange]. intros s [H0 _]. exact H0. }
    exists r. split; [exact Er |]. rewrite Hlen.
    repeat split; try assumption; lia.
  - destruct Hk0 as [Hk1 | Hk0].
    + destruct (keep_threshold_kth cfg n target scores Lscores) as [t [Hnth Et]];
        [lia |].
      destruct (compress_Ok_intro rt cfg text query target_ratio _ _ _ _ Hs Et)
        as [r [Er [_ [Hkept [Ho Hc]]]]].
      assert (Hkth : kth_largest (Z.to_nat (keep_count cfg n target)) t scores).
      { apply sorted_kth_largest; [lia | exact Hnth]. }
      destruct Hkth as [Hin [Hge _]].
      assert (Ht : 0 <= t).
      { rewrite Forall_forall in Hrange. apply (Hrange t Hin). }
      assert (E : py_max t (hard_threshold cfg) = t).
      { unfold py_max.
        assert (Hle : hard_threshold cfg <= t) by (eapply Qle_trans; eassumption).
        apply Qlt_bool_false_iff in Hle. rewrite Hle. reflexivity. }
      assert (Hlen : List.length (kept_indices r) = count_ge t scores).
      { rewrite Hkept, E. apply select_from_length. }
      pose proof (count_ge_le_length t scores) as Hup.
      exists r. split; [exact Er |]. rewrite Hlen.
      repeat split; try assumption; lia.
    + destruct (keep_threshold_last cfg n target scores Lscores Hn Hk0) as [t Et].
      destruct (compress_Ok_intro rt cfg text query target_ratio _ _ _ _ Hs Et)
        as [r [Er [_ [Hkept [Ho Hc]]]]].
      assert (Hlen : List.length (kept_indices r)
                     = count_ge (py_max t (hard_threshold cfg)) scores).
      { rewrite Hkept. apply select_from_length. }
      pose proof (count_ge_le_length (py_max t (hard_threshold cfg)) scores) as Hup.
      exists r. split; [exact Er |]. rewrite Hlen.
      repeat split; try assumption; lia.
Qed.

(** The bounds on "ab cd ef": two of the five encoder tokens are kept. *)
Lemma kept_count_bounds_witness :
  exists scores tokens token_ids,
    score_tokens stub (config_with 1 (1 # 2) 450) "ab cd ef" None
      = Ok (scores, tokens, token_ids)
    /\ hard_threshold (config_with 1 (1 # 2) 450) <= 0
    /\ (1 <= min_tokens (config_with 1 (1 # 2) 450))%Z
    /\ exists r,
         compress stub (config_with 1 (1 # 2) 450) "ab cd ef" None None = Ok r
         /\ (List.length (kept_indices r) <= List.length tokens)%nat.
Proof.
  match eval vm_compute in
        (score_tokens stub (config_with 1 (1 # 2) 450) "ab cd ef" None) with
  | Ok (?s, ?t, ?i) =>
      exists s, t, i;
      assert (H : score_tokens stub (config_with 1 (1 # 2) 450) "ab cd ef" None
                  = Ok (s, t, i)) by (vm_compute; reflexivity);
      assert (H1 : hard_threshold (config_with 1 (1 # 2) 450) <= 0)
        by (vm_compute; discriminate);
      assert (H2 : (1 <= min_tokens (config_with 1 (1 # 2) 450))%Z)
        by (vm_compute; discriminate);
      split; [exact H |]; split; [exact H1 |]; split; [exact H2 |];
      destruct (kept_count_bounds stub (config_with 1 (1 # 2) 450) "ab cd ef"
                  None None s t i H H1 (or_introl H2)) as [r [Er [_ [Hup _]]]];
      exists r; split; [exact Er | exact Hup]
  end.
Defined.

End SelectionProperties.

(* ===================================================================== *)
(** * Scoring: the properties of [score_tokens]                           *)
(* ===================================================================== *)

Module ScoringProperties.
Import Py Re Scratch Stub Spec PyFacts SortFacts ScorerFacts ScoreTokensFacts SelectFacts.

Lemma fuse_without_query
    (rt : Runtime) (cfg : CompressorConfig) (w : Q) (text : string)
    (query : option string) (tokens : list string) (a s : list Q) :
  query_given query = false ->
  fuse rt (with_query_weight cfg w) text query tokens a s
  = fuse rt cfg text query tokens a s.
Proof.
  intros Hq. unfold fuse. rewrite Hq. reflexivity.
Qed.

Lemma score_tokens_without_query
    (rt : Runtime) (cfg : CompressorConfig) (w : Q) (text : string)
    (query : option string) :
  query_given query = false ->
  score_tokens rt (with_query_weight cfg w) text query
  = score_tokens rt cfg text query.
Proof.
  intros Hq. unfold score_tokens. simpl.
  destruct (normalize (map attn_raw _)) as [a |]; [| reflexivity]. simpl.
  destruct (normalize (map sem_raw _)) as [s |]; [| reflexivity]. simpl.
  rewrite (fuse_without_query _ _ _ _ _ _ _ _ Hq). reflexivity.
Qed.

Lemma compress_without_query
    (rt : Runtime) (cfg : CompressorConfig) (w : Q) (text : string)
    (query : option string) (target_ratio : option Q) :
  query_given query = false ->
  compress rt (with_query_weight cfg w) text query target_ratio
  = compress rt cfg text query target_ratio.
Proof.
  intros Hq. unfold compress.
  rewrite (score_tokens_without_query _ _ _ _ _ Hq). reflexivity.
Qed.

Lemma compress_each_without_query
    (rt : Runtime) (cfg : CompressorConfig) (w : Q)
    (query : option string) (target_ratio : option Q) (chunks : list string) :
  query_given query = false ->
  forall (acc : list string) (o c : nat),
    compress_each rt (with_query_weight cfg w) query target_ratio chunks acc o c
    = compress_each rt cfg query target_ratio chunks acc o c.
Proof.
  intros Hq. induction chunks as [| chunk rest IH]; intros acc o c; simpl.
  - reflexivity.
  - rewrite (compress_without_query _ _ _ _ _ _ Hq).
    destruct (compress rt cfg chunk query target_ratio) as [r |]; simpl;
      [apply IH | reflexivity].
Qed.

Lemma pack_sentences_query_weight
    (cfg : CompressorConfig) (w : Q) (sentences : list string) :
  forall (chunks current_chunk : list string) (current_len : nat),
    pack_sentences (with_query_weight cfg w) sentences chunks current_chunk current_len
    = pack_sentences cfg sentences chunks current_chunk current_len.
Proof.
  induction sentences as [| sent rest IH]; intros chunks cur len; simpl.
  - reflexivity.
  - rewrite !IH. reflexivity.
Qed.

Lemma make_chunks_query_weight (cfg : CompressorConfig) (w : Q) (text : string) :
  make_chunks (with_query_weight cfg w) text = make_chunks cfg text.
Proof.
  unfold make_chunks. rewrite pack_sentences_query_weight. reflexivity.
Qed.

(** C4.  Without a query, [score_tokens], [compress] and [compress_chunks]
    return the same result whatever the query weight of the configuration;
    the fusion then uses the attention and semantic weights divided by
    their sum, which add up to 1, and no query term. *)
Theorem no_query_ignores_query_weight
    (rt : Runtime) (cfg : CompressorConfig) (w : Q) (text : string)
    (query : option string) (target_ratio : option Q) :
  query_given query = false ->
  score_tokens rt (with_query_weight cfg w) text query
    = score_tokens rt cfg text query
  /\ compress rt (with_query_weight cfg w) text query target_ratio
     = compress rt cfg text query target_ratio
  /\ compress_chunks rt (with_query_weight cfg w) text query target_ratio
     = compress_chunks rt cfg text query target_ratio
  /\ (~ attention_weight cfg + semantic_weight cfg == 0 ->
      exists wa ws,
        wa + ws == 1
        /\ wa == attention_weight cfg / (attention_weight cfg + semantic_weight cfg)
        /\ ws == semantic_weight cfg / (attention_weight cfg + semantic_weight cfg)
        /\ forall tokens a s,
             fuse rt (with_query_weight cfg w) text query tokens a s
             = Ok (vadd (vscale wa a) (vscale ws s))).
Proof.
  intros Hq.
  split; [apply score_tokens_without_query; exact Hq |].
  split; [apply compress_without_query; exact Hq |].
  split.
  - unfold compress_chunks.
    rewrite make_chunks_query_weight.
    rewrite (compress_each_without_query _ _ _ _ _ _ Hq). reflexivity.
  - intros Htot.
    exists (attention_weight cfg / (attention_weight cfg + semantic_weight cfg)),
           (semantic_weight cfg / (attention_weight cfg + semantic_weight cfg)).
    split; [field; exact Htot |].
    split; [reflexivity |]. split; [reflexivity |].
    intros tokens a s. unfold fuse. simpl. rewrite Hq. simpl.
    rewrite !(py_div_Ok _ _ Htot). reflexivity.
Qed.

(** Two configurations that differ in the query weight only, no query. *)
Lemma no_query_ignores_query_weight_witness :
  query_given None = false
  /\ compress stub (with_query_weight default_config (9 # 10)) "Hello world" None None
     = compress stub default_config "Hello world" None None.
Proof.
  split; [reflexivity |].
  exact (proj1 (proj2 (no_query_ignores_query_weight stub default_config (9 # 10)
                         "Hello world" None None eq_refl))).
Defined.

(** C5.  Every score returned by [score_tokens] lies in [0, 1], whatever
    the text and the query; and [normalize] maps a non-empty constant array
    to all ones. *)
Theorem fused_scores_in_unit_interval
    (rt : Runtime) (cfg : CompressorConfig) (text : string)
    (query : option string) (scores : list Q) (tokens : list string)
    (token_ids : list Z) :
  score_tokens rt cfg text query = Ok (scores, tokens, token_ids) ->
  Forall in_unit_interval scores
  /\ List.length scores = List.length tokens
  /\ (forall r target_ratio,
        compress rt cfg text query target_ratio = Ok r ->
        Forall in_unit_interval (token_scores r))
  /\ (forall (x : list Q) (c : Q),
        x <> [] -> Forall (fun v => v == c) x ->
        normalize x = Ok (map (fun _ => 1) x)).
Proof.
  intros Hs.
  destruct (score_tokens_Ok_inv _ _ _ _ _ _ _ Hs)
    as [_ [_ [Lscores [_ [_ Hrange]]]]].
  split; [exact Hrange |]. split; [exact Lscores |]. split.
  - intros r target_ratio Hr.
    destruct (compress_Ok_inv _ _ _ _ _ _ Hr)
      as [scores' [tokens' [ids' [thr [kt [Hs' [_ [_ ->]]]]]]]].
    simpl. rewrite Hs in Hs'. injection Hs' as <- _ _. exact Hrange.
  - apply normalize_constant.
Qed.

(** The scores of "Hello world" with a query. *)
Lemma fused_scores_in_unit_interval_witness :
  exists scores tokens token_ids,
    score_tokens stub default_config "Hello world" (Some "world")
      = Ok (scores, tokens, token_ids)
    /\ Forall in_unit_interval scores.
Proof.
  match eval vm_compute in
        (score_tokens stub default_config "Hello world" (Some "world")) with
  | Ok (?s, ?t, ?i) =>
      exists s, t, i;
      assert (H : score_tokens stub default_config "Hello world" (Some "world")
                  = Ok (s, t, i)) by (vm_compute; reflexivity);
      split; [exact H |];
      exact (proj1 (fused_scores_in_unit_interval _ _ _ _ _ _ _ H))
  end.
Defined.

Lemma start_region_eq (n : nat) :
  Z.to_nat (py_int (Qofnat n * (1 # 10))) = (n / 10)%nat.
Proof.
  rewrite py_int_tenths, Z.mul_1_r.
  change 10%Z with (Z.of_nat 10).
  rewrite <- Nat2Z.inj_div. apply Nat2Z.id.
Qed.

Lemma end_region_eq (n : nat) :
  Z.to_nat (py_int (Qofnat n * (9 # 10))) = (n * 9 / 10)%nat.
Proof.
  rewrite py_int_tenths.
  change 9%Z with (Z.of_nat 9). change 10%Z with (Z.of_nat 10).
  rewrite <- Nat2Z.inj_mul, <- Nat2Z.inj_div. apply Nat2Z.id.
Qed.

(** C6.  On fewer than ten scores [_apply_position_bias] returns its
    argument.  On [n >= 10] scores it returns [n] scores: a score at a
    position below [int(n * 0.1)] is multiplied by the start boost, a score
    at a position from [int(n * 0.9)] on is multiplied by the end boost, and
    every other score is unchanged. *)
Theorem position_bias_frame (cfg : CompressorConfig) (scores : list Q) :
  let n := List.length scores in
  ((n < 10)%nat -> _apply_position_bias cfg scores = scores)
  /\ ((10 <= n)%nat ->
      List.length (_apply_position_bias cfg scores) = n
      /\ forall (i : nat) (s : Q),
           nth_error scores i = Some s ->
           nth_error (_apply_position_bias cfg scores) i
           = Some (if (i <? n / 10)%nat then s * position_boost_start cfg
                   else if (n * 9 / 10 <=? i)%nat then s * position_boost_end cfg
                   else s)).
Proof.
  intros n. split.
  - intros Hn. unfold _apply_position_bias. fold n.
    apply Nat.ltb_lt in Hn. rewrite Hn. reflexivity.
  - intros Hn. split; [apply _apply_position_bias_length |].
    intros i s Hi.
    assert (Hin : (i < n)%nat) by (apply nth_error_Some; congruence).
    unfold _apply_position_bias. fold n.
    assert (E : (n <? 10)%nat = false) by (apply Nat.ltb_ge; exact Hn).
    rewrite E. unfold vmul.
    rewrite nth_error_map2, Hi, !nth_error_slice_fill.
    rewrite (nth_error_repeat 1 Hin).
    rewrite start_region_eq, end_region_eq.
    change (0 <=? i)%nat with true. cbv beta iota.
    assert (Hdiv : (n / 10 <= n * 9 / 10)%nat)
      by (apply Nat.Div0.div_le_mono; lia).
    apply Nat.ltb_lt in Hin. rewrite Hin, andb_true_r, andb_true_l.
    destruct (i <? n / 10)%nat eqn:E1.
    + apply Nat.ltb_lt in E1.
      assert (E2 : (n * 9 / 10 <=? i)%nat = false) by (apply Nat.leb_gt; lia).
      rewrite E2. reflexivity.
    + destruct (n * 9 / 10 <=? i)%nat eqn:E2.
      * reflexivity.
      * rewrite Qmult_1_r_eq. reflexivity.
Qed.

(** Twenty scores: two boosted at the start, two at the end. *)
Lemma position_bias_frame_witness :
  (10 <= List.length (repeat 1 20))%nat
  /\ _apply_position_bias default_config (repeat 1 20)
     = ([12 # 10; 12 # 10] ++ repeat 1 16 ++ [11 # 10; 11 # 10])%list
  /\ List.length (_apply_position_bias default_config (repeat 1 20)) = 20%nat.
Proof.
  assert (H : (10 <= List.length (repeat 1 20))%nat) by (vm_compute; lia).
  split; [exact H |]. split; [reflexivity |].
  exact (proj1 (proj2 (position_bias_frame default_config (repeat 1 20)) H)).
Defined.

End ScoringProperties.

(* ===================================================================== *)
(** * Chunking: the properties of [compress_chunks]                       *)
(* ===================================================================== *)

Module ChunkFacts.
Import Py Re Scratch Stub Spec PyFacts ScorerFacts ScoreTokensFacts SelectFacts.

(** ** Words of joined sentences *)

Lemma split_from_space_length (a b : string) :
  forall cur : option string,
    List.length (split_from cur (a ++ String " " b))
    = (List.length (split_from cur a) + List.length (split_from None b))%nat.
Proof.
  induction a as [| c a IH]; intros cur; simpl.
  - destruct cur; reflexivity.
  - destruct (is_space c).
    + destruct cur; simpl; rewrite IH; reflexivity.
    + destruct cur; apply IH.
Qed.

Lemma word_count_join (g : list string) :
  word_count (join " " g) = total_words g.
Proof.
  unfold total_words, word_count, split, join.
  induction g as [| s g IH]; [reflexivity |].
  destruct g as [| s' g'].
  - simpl. lia.
  - change (String.concat " " (s :: s' :: g'))
      with (s ++ String " " (String.concat " " (s' :: g'))).
    rewrite split_from_space_length, IH. reflexivity.
Qed.

Local Open Scope list_scope.

Lemma total_words_snoc (g : list string) (s : string) :
  total_words (g ++ [s]) = (total_words g + word_count s)%nat.
Proof.
  unfold total_words. induction g as [| x g IH]; simpl; [lia |].
  rewrite IH. lia.
Qed.

(** ** The packing loop *)

Lemma greedy_snoc (limit : Q) (gs : list (list string)) (g : list string) (s : string) :
  g <> [] ->
  greedy limit (gs ++ [g]) ->
  limit < Qofnat (total_words g + word_count s) ->
  greedy limit ((gs ++ [g]) ++ [[s]]).
Proof.
  intros Hg. induction gs as [| g0 gs IH]; simpl; intros H Hlt.
  - tauto.
  - destruct H as [H0 H]. split; [| apply IH; assumption].
    destruct gs as [| g1 gs']; simpl in *.
    + destruct g; [congruence | exact H0].
    + exact H0.
Qed.

Lemma greedy_last_grows (limit : Q) (gs : list (list string)) (g : list string) (s : string) :
  g <> [] ->
  greedy limit (gs ++ [g]) ->
  greedy limit (gs ++ [g ++ [s]]).
Proof.
  intros Hg. induction gs as [| g0 gs IH]; simpl; intros H.
  - tauto.
  - destruct H as [H0 H]. split; [| apply IH; assumption].
    destruct gs as [| g1 gs']; simpl in *.
    + destruct g; [congruence | exact H0].
    + exact H0.
Qed.

Lemma groups_of_nonempty (gs : list (list string)) (cur : list string) :
  cur <> [] -> groups_of gs cur = gs ++ [cur].
Proof. destruct cur; [congruence | reflexivity]. Qed.

Lemma pack_sentences_groups (cfg : CompressorConfig) (sentences : list string) :
  forall (gs : list (list string)) (cur : list string),
    Forall (fits (chunk_limit cfg)) (groups_of gs cur) ->
    greedy (chunk_limit cfg) (groups_of gs cur) ->
    (cur = [] -> gs = []) ->
    exists gs' cur',
      pack_sentences cfg sentences (map (join " ") gs) cur (total_words cur)
      = (map (join " ") gs', cur', total_words cur')
      /\ Forall (fits (chunk_limit cfg)) (groups_of gs' cur')
      /\ greedy (chunk_limit cfg) (groups_of gs' cur')
      /\ (cur' = [] -> gs' = [] /\ cur = [] /\ sentences = [])
      /\ (List.concat gs' ++ cur' = (List.concat gs ++ cur) ++ sentences)%list.
Proof.
  induction sentences as [| sent rest IH]; intros gs cur Hfit Hgreedy Hcur.
  - exists gs, cur. simpl. rewrite app_nil_r. repeat split; auto.
  - simpl. fold (chunk_limit cfg). fold (word_count sent).
    destruct (Qlt_bool (chunk_limit cfg) (Qofnat (total_words cur + word_count sent)))
      eqn:E.
    + apply Qlt_bool_iff in E.
      assert (Hstep :
        exists gs1,
          match cur with
          | [] => map (join " ") gs
          | _ :: _ => (map (join " ") gs ++ [join " " cur])%list
          end = map (join " ") gs1
          /\ gs1 = groups_of gs cur).
      { destruct cur as [| c cur'].
        - exists gs. split; reflexivity.
        - exists (gs ++ [c :: cur'])%list. split; [| reflexivity].
          rewrite map_app. reflexivity. }
      destruct Hstep as [gs1 [E1 Egs1]]. rewrite E1.
      replace (word_count sent) with (total_words [sent])
        by (unfold total_words; simpl; lia).
      destruct (IH gs1 [sent]) as [gs' [cur' [Hp [Hf [Hg [Hc Hcat]]]]]].
      * simpl. subst gs1. apply Forall_app. split; [exact Hfit |].
        constructor; [| constructor]. split; [discriminate | left; eauto].
      * simpl. subst gs1. destruct cur as [| c cur'].
        -- simpl. rewrite (Hcur eq_refl). simpl. tauto.
        -- simpl. apply greedy_snoc; [discriminate | exact Hgreedy | exact E].
      * discriminate.
      * exists gs', cur'. split; [exact Hp |]. split; [exact Hf |].
        split; [exact Hg |]. split.
        -- intros Hn. destruct (Hc Hn) as [_ [Hr _]]. discriminate Hr.
        -- rewrite Hcat. subst gs1. destruct cur as [| c0 cur0].
           ++ simpl. rewrite !app_nil_r, <- app_assoc. reflexivity.
           ++ simpl. rewrite List.concat_app. simpl.
              rewrite app_nil_r, <- !app_assoc. reflexivity.
    + apply Qlt_bool_false_iff in E.
      rewrite <- total_words_snoc.
      destruct (IH gs (cur ++ [sent])%list) as [gs' [cur' [Hp [Hf [Hg [Hc Hcat]]]]]].
      * rewrite groups_of_nonempty by (destruct cur; discriminate).
        apply Forall_app. split.
        -- destruct cur as [| c cur0].
           ++ rewrite (Hcur eq_refl). constructor.
           ++ simpl in Hfit. apply Forall_app in Hfit. tauto.
        -- constructor; [| constructor].
           split; [destruct cur; discriminate |].
           right. rewrite total_words_snoc. exact E.
      * rewrite groups_of_nonempty by (destruct cur; discriminate).
        destruct cur as [| c cur0].
        -- rewrite (Hcur eq_refl). simpl. tauto.
        -- apply greedy_last_grows; [discriminate | exact Hgreedy].
      * intros Hn. destruct cur; discriminate Hn.
      * exists gs', cur'. split; [exact Hp |]. split; [exact Hf |].
        split; [exact Hg |]. split.
        -- intros Hn. destruct (Hc Hn) as [_ [Hr _]].
           destruct cur; discriminate Hr.
        -- rewrite Hcat, <- !app_assoc. reflexivity.
Qed.

Lemma split_sentences_from_nonempty (s : string) :
  forall prev skipping cur, split_sentences_from prev skipping cur s <> [].
Proof.
  induction s as [| c s IH]; intros prev skipping cur; simpl; [discriminate |].
  destruct (is_space c); [| apply IH].
  destruct skipping; [apply IH |].
  destruct (after_terminal prev); [discriminate | apply IH].
Qed.

(** The chunks are the joined groups of a greedy packing of the sentences. *)
Lemma make_chunks_groups (cfg : CompressorConfig) (text : string) :
  exists groups,
    make_chunks cfg text = map (join " ") groups
    /\ List.concat groups = split_sentences text
    /\ Forall (fits (chunk_limit cfg)) groups
    /\ greedy (chunk_limit cfg) groups.
Proof.
  unfold make_chunks.
  destruct (pack_sentences_groups cfg (split_sentences text) [] [])
    as [gs [cur [Hp [Hf [Hg [Hc Hcat]]]]]].
  - constructor.
  - exact I.
  - reflexivity.
  - change (total_words []) with 0%nat in Hp. simpl in Hp. rewrite Hp.
    exists (groups_of gs cur). split; [| split; [| split; assumption]].
    + destruct cur; [reflexivity |]. simpl. rewrite map_app. reflexivity.
    + simpl in Hcat. rewrite <- Hcat.
      destruct cur; simpl; [rewrite app_nil_r; reflexivity |].
      rewrite List.concat_app. simpl. rewrite app_nil_r. reflexivity.
Qed.

(** ** The compression loop *)

Lemma compress_each_mapM
    (rt : Runtime) (cfg : CompressorConfig) (query : option string)
    (target_ratio : option Q) (chunks : list string) :
  forall (acc : list string) (o c : nat),
    compress_each rt cfg query target_ratio chunks acc o c
    = bind (mapM (fun chunk => compress rt cfg chunk query target_ratio) chunks)
           (fun rs => Ok ((acc ++ map compressed_text rs)%list,
                          (o + sum_nat (map original_tokens rs))%nat,
                          (c + sum_nat (map compressed_tokens rs))%nat)).
Proof.
  induction chunks as [| chunk rest IH]; intros acc o c; simpl.
  - rewrite app_nil_r, !Nat.add_0_r. reflexivity.
  - destruct (compress rt cfg chunk query target_ratio) as [r | e]; simpl;
      [| reflexivity].
    rewrite IH.
    destruct (mapM _ rest) as [rs | e]; simpl; [| reflexivity].
    rewrite <- app_assoc, <- !Nat.add_assoc. reflexivity.
Qed.

End ChunkFacts.

Module ChunkProperties.
Import Py Re Scratch Stub Spec PyFacts ScorerFacts ScoreTokensFacts SelectFacts ChunkFacts.

(** C7 (as stated, refuted).  With a chunk size of 5 the limit is 4 words;
    the first sentence of "a b c d e f. g h. i j. k" has 6 words and forms a
    chunk of its own that exceeds the limit, and the second chunk reaches
    the limit exactly. *)
Lemma oversized_sentence_chunk :
  make_chunks (config_with 50 (34 # 100) 5) "a b c d e f. g h. i j. k"
    = ["a b c d e f."; "g h. i j."; "k"]
  /\ chunk_limit (config_with 50 (34 # 100) 5) == 4
  /\ word_count "a b c d e f." = 6%nat
  /\ chunk_limit (config_with 50 (34 # 100) 5) < Qofnat (word_count "a b c d e f.")
  /\ word_count "g h. i j." = 4%nat.
Proof.
  repeat split.
Qed.

(** C7 (amended).  [compress_chunks] splits the text into sentences and
    packs consecutive sentences greedily: the chunks are the space-joined
    groups of a partition of the sentence list into consecutive non-empty
    groups, a group is closed only when the next sentence would take its
    word count over [chunk_size * 0.8], and every chunk has at most that
    many words or is a single sentence.  The result is that of compressing
    the chunks in order: the texts joined by single spaces, the token counts
    summed. *)
Theorem chunking_rule
    (rt : Runtime) (cfg : CompressorConfig) (text : string)
    (query : option string) (target_ratio : option Q) :
  (exists groups,
     make_chunks cfg text = map (join " ") groups
     /\ List.concat groups = split_sentences text
     /\ greedy (chunk_limit cfg) groups
     /\ Forall (fun g => g <> [] /\ word_count (join " " g) = total_words g) groups)
  /\ Forall (fun chunk => Qofnat (word_count chunk) <= chunk_limit cfg
                          \/ In chunk (split_sentences text))
            (make_chunks cfg text)
  /\ compress_chunks rt cfg text query target_ratio
     = (rs <- mapM (fun chunk => compress rt cfg chunk query target_ratio)
                   (make_chunks cfg text) ;;
        ratio <- ratio_of (sum_nat (map compressed_tokens rs))
                          (sum_nat (map original_tokens rs)) ;;
        Ok (joined_result text rs ratio)).
Proof.
  destruct (make_chunks_groups cfg text) as [groups [Hm [Hcat [Hfit Hgreedy]]]].
  split; [| split].
  - exists groups. split; [exact Hm |]. split; [exact Hcat |].
    split; [exact Hgreedy |].
    eapply Forall_impl; [| exact Hfit].
    intros g [Hne _]. split; [exact Hne | apply word_count_join].
  - rewrite Hm. apply Forall_map. rewrite Forall_forall in *.
    intros g Hg. destruct (Hfit g Hg) as [_ [[s ->] | Hle]].
    + right. simpl. rewrite <- Hcat. apply in_concat.
      exists [s]. split; [exact Hg | left; reflexivity].
    + left. rewrite word_count_join. exact Hle.
  - unfold compress_chunks. rewrite compress_each_mapM.
    destruct (mapM _ (make_chunks cfg text)) as [rs | e]; reflexivity.
Qed.

End ChunkProperties.

(* ===================================================================== *)
(** * Degenerate inputs and overrides                                     *)
(* ===================================================================== *)

Module EdgeProperties.
Import Py Re Scratch Stub Spec PyFacts ScorerFacts ScoreTokensFacts SelectFacts ChunkFacts.

(** C8 (as stated, refuted).  On the empty text the encoder still yields
    its two structural tokens; both are kept, the ratio is 1 for an
    original count of 0, and the compressed text is "[CLS] [SEP]", not the
    empty input. *)
Lemma empty_input_not_returned :
  exists r,
    compress stub default_config "" None None = Ok r
    /\ original_tokens r = 0%nat
    /\ compression_ratio r = 1
    /\ kept_indices r = [0; 1]%nat
    /\ compressed_text r = "[CLS] [SEP]"
    /\ compressed_text r <> original_text r.
Proof.
  eexists. split; [vm_compute; reflexivity |].
  repeat split. discriminate.
Qed.

Lemma mapM_get_item_Raise {A : Type} (l : list A) (idx : list nat) (e : exn) :
  mapM (get_item l) idx = Raise e -> e = IndexError.
Proof.
  induction idx as [| j idx IH]; simpl; intros H; [discriminate H |].
  apply bind_Raise in H. destruct H as [H | [a [_ H]]].
  - eapply get_item_Raise. exact H.
  - apply bind_Raise in H. destruct H as [H | [r [_ H]]]; [auto | discriminate H].
Qed.

Lemma keep_threshold_Raise
    (cfg : CompressorConfig) (n : nat) (target : Q) (scores : list Q) (e : exn) :
  keep_threshold cfg n target scores = Raise e -> e = IndexError.
Proof.
  unfold keep_threshold. destruct (_ <=? _)%Z; [discriminate |].
  intros H. apply bind_Raise in H. destruct H as [H | [s [_ H]]]; [| discriminate H].
  unfold py_getitem in H.
  destruct (0 <=? _)%Z; [eapply get_item_Raise; exact H |].
  destruct (_ <=? _)%Z; [eapply get_item_Raise; exact H | congruence].
Qed.

(** [compress] fails as its scoring fails, or by an index out of range. *)
Lemma compress_Raise
    (rt : Runtime) (cfg : CompressorConfig) (text : string)
    (query : option string) (target_ratio : option Q) (e : exn) :
  compress rt cfg text query target_ratio = Raise e ->
  score_tokens rt cfg text query = Raise e \/ e = IndexError.
Proof.
  unfold compress. intros H.
  apply bind_Raise in H. destruct H as [H | [[[scores tokens] ids] [_ H]]];
    [left; exact H | right].
  apply bind_Raise in H. destruct H as [H | [thr [_ H]]];
    [eapply keep_threshold_Raise; exact H |].
  apply bind_Raise in H. destruct H as [H | [kt [_ H]]];
    [eapply mapM_get_item_Raise; exact H |].
  rewrite ratio_of_Ok in H. discriminate H.
Qed.

(** C8 (amended).  The ratio of a result is computed without dividing by
    zero and is 1 when the original token count is 0, for [compress] and
    for [compress_chunks]; a call of [compress] divides by zero only when
    no query is used and the attention and semantic weights add up to 0.
    The compressed text is the trimmed, space-collapsed detokenization of
    the kept tokens. *)
Theorem zero_token_ratio
    (rt : Runtime) (cfg : CompressorConfig) (text : string)
    (query : option string) (target_ratio : option Q) :
  (forall comp_tokens orig_count,
     exists q, ratio_of comp_tokens orig_count = Ok q
               /\ (orig_count = 0%nat -> q = 1))
  /\ (forall r, compress rt cfg text query target_ratio = Ok r ->
                original_tokens r = count_tokens rt text
                /\ (original_tokens r = 0%nat -> compression_ratio r = 1)
                /\ exists tokens,
                     map tok (encoded_of rt cfg text) = tokens
                     /\ compressed_text r
                        = strip (collapse_spaces
                                   (convert_tokens_to_string rt (encoder_model cfg)
                                      (map (fun i => nth i tokens "")
                                           (kept_indices r)))))
  /\ (forall r, compress_chunks rt cfg text query target_ratio = Ok r ->
                original_tokens r = 0%nat -> compression_ratio r = 1)
  /\ (compress rt cfg text query target_ratio = Raise ZeroDivisionError ->
      query_given query && use_query_aware cfg = false
      /\ attention_weight cfg + semantic_weight cfg == 0).
Proof.
  split; [| split; [| split]].
  - intros c o. rewrite ratio_of_Ok. eexists. split; [reflexivity |].
    intros ->. reflexivity.
  - intros r H.
    destruct (compress_Ok_inv _ _ _ _ _ _ H)
      as [scores [tokens [ids [thr [kt [Hs [_ [Hk ->]]]]]]]].
    destruct (score_tokens_Ok_inv _ _ _ _ _ _ _ Hs) as [Htok _].
    simpl. split; [reflexivity |]. split; [intros ->; reflexivity |].
    exists tokens. split; [symmetry; exact Htok |].
    rewrite (mapM_get_item_nth _ _ _ Hk). reflexivity.
  - intros r H. unfold compress_chunks in H.
    apply bind_Ok in H. destruct H as [[[cs o] c] [_ H]].
    rewrite ratio_of_Ok in H. simpl in H. injection H as <-.
    simpl. intros ->. reflexivity.
  - intros H. apply compress_Raise in H. destruct H as [H | H]; [| discriminate H].
    apply score_tokens_Raise in H.
    destruct H as [[H _] | [_ H]]; [discriminate H | exact H].
Qed.

(** The ratio on the empty text. *)
Lemma zero_token_ratio_witness :
  exists r,
    compress stub default_config "" None None = Ok r
    /\ original_tokens r = 0%nat
    /\ compression_ratio r = 1.
Proof.
  match eval vm_compute in (compress stub default_config "" None None) with
  | Ok ?r =>
      exists r;
      assert (H : compress stub default_config "" None None = Ok r)
        by (vm_compute; reflexivity);
      split; [exact H |]; split; [reflexivity |];
      destruct (zero_token_ratio stub default_config "" None None)
        as [_ [Hr _]];
      exact (proj1 (proj2 (Hr r H)) eq_refl)
  end.
Defined.

Lemma effective_target_falsy (cfg : CompressorConfig) (target_ratio : option Q) :
  falsy_override target_ratio ->
  effective_target cfg target_ratio = Scratch.target_ratio cfg.
Proof.
  destruct target_ratio as [t |]; simpl; [| reflexivity].
  intros H. apply Qeq_bool_iff in H. rewrite H. reflexivity.
Qed.

Lemma effective_target_config (cfg : CompressorConfig) :
  effective_target cfg (Some (Scratch.target_ratio cfg)) = Scratch.target_ratio cfg.
Proof. simpl. destruct (Qeq_bool _ 0); reflexivity. Qed.

Lemma compress_target_ext
    (rt : Runtime) (cfg : CompressorConfig) (text : string)
    (query : option string) (t1 t2 : option Q) :
  effective_target cfg t1 = effective_target cfg t2 ->
  compress rt cfg text query t1 = compress rt cfg text query t2.
Proof. intros H. unfold compress. rewrite H. reflexivity. Qed.

Lemma compress_chunks_target_ext
    (rt : Runtime) (cfg : CompressorConfig) (text : string)
    (query : option string) (t1 t2 : option Q) :
  effective_target cfg t1 = effective_target cfg t2 ->
  compress_chunks rt cfg text query t1 = compress_chunks rt cfg text query t2.
Proof.
  intros H. unfold compress_chunks. rewrite !compress_each_mapM.
  replace (mapM (fun chunk => compress rt cfg chunk query t1) (make_chunks cfg text))
    with (mapM (fun chunk => compress rt cfg chunk query t2) (make_chunks cfg text));
    [reflexivity |].
  induction (make_chunks cfg text) as [| c cs IH]; simpl; [reflexivity |].
  rewrite IH, (compress_target_ext rt cfg c query t1 t2 H). reflexivity.
Qed.

(** C10.  A target-ratio override that is [None] or zero is replaced by the
    target ratio of the configuration: [compress] and [compress_chunks]
    return what they return without an override, and what they return for
    the configured ratio given as the override; any other override is used
    as it is. *)
Theorem falsy_override_uses_config
    (rt : Runtime) (cfg : CompressorConfig) (text : string)
    (query : option string) (target_ratio : option Q) :
  falsy_override target_ratio ->
  effective_target cfg target_ratio = Scratch.target_ratio cfg
  /\ compress rt cfg text query target_ratio = compress rt cfg text query None
  /\ compress rt cfg text query target_ratio
     = compress rt cfg text query (Some (Scratch.target_ratio cfg))
  /\ compress_chunks rt cfg text query target_ratio
     = compress_chunks rt cfg text query None
  /\ compress_chunks rt cfg text query target_ratio
     = compress_chunks rt cfg text query (Some (Scratch.target_ratio cfg))
  /\ (forall t, ~ t == 0 -> effective_target cfg (Some t) = t).
Proof.
  intros H. pose proof (effective_target_falsy cfg target_ratio H) as E.
  split; [exact E |].
  split; [apply compress_target_ext; rewrite E; reflexivity |].
  split; [apply compress_target_ext; rewrite E, effective_target_config; reflexivity |].
  split; [apply compress_chunks_target_ext; rewrite E; reflexivity |].
  split; [apply compress_chunks_target_ext;
          rewrite E, effective_target_config; reflexivity |].
  intros t Ht. simpl. destruct (Qeq_bool t 0) eqn:Eb; [| reflexivity].
  apply Qeq_bool_iff in Eb. contradiction.
Qed.

(** An override of [0.0] on "Hello world". *)
Lemma falsy_override_uses_config_witness :
  falsy_override (Some 0)
  /\ compress stub default_config "Hello world" None (Some 0)
     = compress stub default_config "Hello world" None None.
Proof.
  assert (H : falsy_override (Some 0)) by reflexivity.
  split; [exact H |].
  exact (proj1 (proj2 (falsy_override_uses_config stub default_config
                         "Hello world" None (Some 0) H))).
Defined.

End EdgeProperties.

(* ===================================================================== *)
(** * Answer extraction: the properties of [verify_answer]                *)
(* ===================================================================== *)

Module LongbenchProperties.
Import Py Re Longbench.

Local Open Scope list_scope.

(** The patterns at work, one response each. *)
Example pat_paren_finds : search pat_paren "THE (B) IS" = Some (Some "B"%char).
Proof. reflexivity. Qed.

Example pat_period_finds : search pat_period "AB. C." = Some (Some "C"%char).
Proof. reflexivity. Qed.

Example pat_option_finds : search pat_option "OPTION X OPTION: (C" = Some (Some "C"%char).
Proof. reflexivity. Qed.

Example pat_answer_finds : search pat_answer "MY ANSWER:  D" = Some (Some "D"%char).
Proof. reflexivity. Qed.

Example pat_correct_finds : search pat_correct "CORRECT ONE IS: B" = Some (Some "B"%char).
Proof. reflexivity. Qed.

Example pat_start_finds : search pat_start "B IS RIGHT" = Some (Some "B"%char).
Proof. reflexivity. Qed.

Example pat_start_needs_boundary : search pat_start "BE A" = None.
Proof. reflexivity. Qed.

Example pat_standalone_finds : search pat_standalone "BE A" = Some (Some "A"%char).
Proof. reflexivity. Qed.

(** [OPTION] is tried before [ANSWER], wherever the two occur. *)
Example option_before_answer : verify_answer "answer: A, option B" "B" = true.
Proof. reflexivity. Qed.

Lemma single_letter_test (s : string) :
  existsb (String.eqb s) single_letters = true <-> In s single_letters.
Proof.
  rewrite existsb_exists. split.
  - intros [x [Hin E]]. apply String.eqb_eq in E. subst x. exact Hin.
  - intros Hin. exists s. split; [exact Hin | apply String.eqb_refl].
Qed.

Lemma try_patterns_first (before after : list pattern) (p : pattern)
    (predicted_upper gold_upper : string) (g : option ascii) :
  Forall (fun q => search q predicted_upper = None) before ->
  search p predicted_upper = Some g ->
  try_patterns (before ++ p :: after) predicted_upper gold_upper
  = group_is g gold_upper.
Proof.
  induction 1 as [| q before Hq _ IH]; intros Hp; simpl.
  - rewrite Hp. reflexivity.
  - rewrite Hq. apply IH. exact Hp.
Qed.

Lemma try_patterns_none (pats : list pattern) (predicted_upper gold_upper : string) :
  Forall (fun q => search q predicted_upper = None) pats ->
  try_patterns pats predicted_upper gold_upper = false.
Proof.
  induction 1 as [| q pats Hq _ IH]; simpl; [reflexivity |].
  rewrite Hq. exact IH.
Qed.

(** C9.  [verify_answer] strips the asterisks, upper-cases and trims the
    response, and upper-cases and trims the gold answer.  A response that
    is one of the letters A to D is compared with the gold answer.
    Otherwise the patterns are tried in the order parenthesized letter,
    letter followed by a period, letter after [OPTION], letter after
    [ANSWER], letter after [CORRECT], letter at the start, standalone
    letter: the first pattern found in the response decides, its letter
    being compared with the gold answer, and when none is found the result
    is false. *)
Theorem first_pattern_decides (predicted gold : string) :
  let predicted_upper := strip (upper (remove_stars predicted)) in
  let gold_upper := strip (upper gold) in
  patterns = [pat_paren; pat_period; pat_option; pat_answer; pat_correct;
              pat_start; pat_standalone]
  /\ (In predicted_upper single_letters ->
      verify_answer predicted gold = String.eqb predicted_upper gold_upper)
  /\ (~ In predicted_upper single_letters ->
      (forall before p after g,
         patterns = before ++ p :: after ->
         Forall (fun q => search q predicted_upper = None) before ->
         search p predicted_upper = Some g ->
         verify_answer predicted gold = group_is g gold_upper)
      /\ (Forall (fun q => search q predicted_upper = None) patterns ->
          verify_answer predicted gold = false)).
Proof.
  intros predicted_upper gold_upper.
  split; [reflexivity |]. split.
  - intros Hin. unfold verify_answer. fold predicted_upper gold_upper.
    apply single_letter_test in Hin. rewrite Hin. reflexivity.
  - intros Hnot.
    assert (E : existsb (String.eqb predicted_upper) single_letters = false).
    { destruct (existsb _ single_letters) eqn:Eb; [| reflexivity].
      apply single_letter_test in Eb. contradiction. }
    split.
    + intros before p after g Hpat Hbefore Hp.
      unfold verify_answer. fold predicted_upper gold_upper.
      rewrite E, Hpat. apply try_patterns_first; assumption.
    + intros Hnone.
      unfold verify_answer. fold predicted_upper gold_upper.
      rewrite E. apply try_patterns_none. exact Hnone.
Qed.

(** "The answer is (c)." against the gold answer "C": the parenthesized
    letter is found first. *)
Lemma first_pattern_decides_witness :
  ~ In (strip (upper (remove_stars "The answer is (c)."))) single_letters
  /\ search pat_paren (strip (upper (remove_stars "The answer is (c).")))
     = Some (Some "C"%char)
  /\ verify_answer "The answer is (c)." "C" = true.
Proof.
  assert (Hnot : ~ In (strip (upper (remove_stars "The answer is (c)."))) single_letters).
  { vm_compute. intros [H | [H | [H | [H | H]]]]; try discriminate H; exact H. }
  split; [exact Hnot |]. split; [reflexivity |].
  destruct (first_pattern_decides "The answer is (c)." "C") as [_ [_ Hpats]].
  destruct (Hpats Hnot) as [Hfirst _].
  exact (Hfirst [] pat_paren
           [pat_period; pat_option; pat_answer; pat_correct; pat_start; pat_standalone]
           (Some "C"%char) eq_refl (Forall_nil _) eq_refl).
Defined.

End LongbenchProperties.

(* ===================================================================== *)
(** * The helpers on concrete values                                      *)
(* ===================================================================== *)

Module Checks.
Import Py Re Scratch Stub Spec.

Example split_words : split "  hello  world foo " = ["hello"; "world"; "foo"].
Proof. reflexivity. Qed.

Example strip_both_ends : strip "  a b  " = "a b".
Proof. reflexivity. Qed.

Example split_sentences_trailing_space :
  split_sentences "Hi there. How are you?  Fine!  "
  = ["Hi there."; "How are you?"; "Fine!"; ""].
Proof. reflexivity. Qed.

Example split_sentences_needs_space : split_sentences "a.b. c" = ["a.b."; "c"].
Proof. reflexivity. Qed.

Example split_sentences_empty : split_sentences "" = [""].
Proof. reflexivity. Qed.

Example collapse_spaces_runs : collapse_spaces "a  b   c " = "a b c ".
Proof. reflexivity. Qed.

Example remove_hashes_scan : remove_hashes "##ab#c###d" = "ab#c#d".
Proof. reflexivity. Qed.

Example upper_ascii : upper "abc xyz AZ az{`" = "ABC XYZ AZ AZ{`".
Proof. reflexivity. Qed.

Example py_int_truncates : py_int (-7 # 2) = (-3)%Z /\ py_int (7 # 2) = 3%Z.
Proof. split; reflexivity. Qed.

Example py_getitem_negative :
  py_getitem [1; 2; 3]%Z (-1) = Ok 3%Z /\ py_getitem [1; 2; 3]%Z (-4) = Raise IndexError.
Proof. split; reflexivity. Qed.

Example np_sort_descending :
  rev (np_sort [1 # 2; 1; 0; 3 # 4]) = [1; 3 # 4; 1 # 2; 0].
Proof. reflexivity. Qed.

Example keep_count_default :
  keep_count default_config 1000 (34 # 100) = 340%Z
  /\ keep_count default_config 100 (34 # 100) = 50%Z.
Proof. split; reflexivity. Qed.

Example stub_tokens :
  map tok (encoded_of stub default_config "Hello unbelievable world")
  = ["[CLS]"; "hel"; "##lo"; "unb"; "##elievable"; "wor"; "##ld"; "[SEP]"].
Proof. reflexivity. Qed.

Example stub_detokenizes :
  stub_detokenize "" ["[CLS]"; "hel"; "##lo"; "wor"; "##ld"; "[SEP]"]
  = "[CLS] hello world [SEP]".
Proof. reflexivity. Qed.

Example make_chunks_single :
  make_chunks default_config "One two three. Four five. Six"
  = ["One two three. Four five. Six"].
Proof. reflexivity. Qed.

End Checks.

(* ===================================================================== *)
(** * Further properties of [compress]: failures and edge cases           *)
(* ===================================================================== *)

Module CompressEdgeFacts.
Import Py Re Scratch Stub Spec PyFacts SortFacts ScorerFacts ScoreTokensFacts SelectFacts.

Lemma score_tokens_empty
    (rt : Runtime) (cfg : CompressorConfig) (text : string) (query : option string) :
  encoded_of rt cfg text = [] ->
  score_tokens rt cfg text query = Raise ValueError.
Proof.
  intros H. unfold score_tokens. fold (encoded_of rt cfg text). rewrite H.
  reflexivity.
Qed.

Lemma score_tokens_zero_weights
    (rt : Runtime) (cfg : CompressorConfig) (text : string) (query : option string) :
  encoded_of rt cfg text <> [] ->
  query_given query && use_query_aware cfg = false ->
  attention_weight cfg + semantic_weight cfg == 0 ->
  score_tokens rt cfg text query = Raise ZeroDivisionError.
Proof.
  intros Hne Hq Hw. unfold score_tokens. fold (encoded_of rt cfg text).
  destruct (normalize_Ok (map attn_raw (encoded_of rt cfg text))) as [a Ea].
  { destruct (encoded_of rt cfg text); [congruence | discriminate]. }
  destruct (normalize_Ok (map sem_raw (encoded_of rt cfg text))) as [s Es].
  { destruct (encoded_of rt cfg text); [congruence | discriminate]. }
  rewrite Ea, Es. simpl. unfold fuse. rewrite Hq. unfold py_div.
  apply Qeq_bool_iff in Hw. rewrite Hw. reflexivity.
Qed.

(** The threshold is out of reach exactly when the index [k - 1] falls
    before the start of the sorted scores. *)
Lemma keep_threshold_Raise_iff
    (cfg : CompressorConfig) (n : nat) (target : Q) (scores : list Q) (e : exn) :
  List.length scores = n -> (1 <= n)%nat ->
  (keep_threshold cfg n target scores = Raise e
   <-> e = IndexError /\ (keep_count cfg n target <= - Z.of_nat n)%Z).
Proof.
  intros Hlen Hn. unfold keep_threshold.
  set (k := keep_count cfg n target).
  destruct (Z.of_nat n <=? k)%Z eqn:E.
  - apply Z.leb_le in E. split; [discriminate | intros [_ H]; lia].
  - apply Z.leb_gt in E. unfold py_getitem.
    rewrite length_sorted_scores, Hlen.
    destruct (0 <=? k - 1)%Z eqn:E0.
    + apply Z.leb_le in E0.
      destruct (get_item_Ok (rev (np_sort scores)) (Z.to_nat (k - 1))) as [t Et].
      { rewrite length_sorted_scores. lia. }
      rewrite Et. simpl. split; [discriminate | intros [_ H]; lia].
    + apply Z.leb_gt in E0.
      destruct (- Z.of_nat n <=? k - 1)%Z eqn:E1.
      * apply Z.leb_le in E1.
        destruct (get_item_Ok (rev (np_sort scores))
                    (Z.to_nat (Z.of_nat n + (k - 1)))) as [t Et].
        { rewrite length_sorted_scores. lia. }
        rewrite Et. simpl. split; [discriminate | intros [_ H]; lia].
      * apply Z.leb_gt in E1. simpl. split.
        -- intros H. split; [congruence | lia].
        -- intros [-> _]. reflexivity.
Qed.

Lemma compress_after_scoring
    (rt : Runtime) (cfg : CompressorConfig) (text : string)
    (query : option string) (target_ratio : option Q)
    (scores : list Q) (tokens : list string) (token_ids : list Z) (e : exn) :
  score_tokens rt cfg text query = Ok (scores, tokens, token_ids) ->
  (compress rt cfg text query target_ratio = Raise e
   <-> keep_threshold cfg (List.length tokens)
         (effective_target cfg target_ratio) scores = Raise e).
Proof.
  intros Hs. split.
  - intros H.
    destruct (keep_threshold cfg (List.length tokens)
                (effective_target cfg target_ratio) scores) as [thr | e'] eqn:Et.
    + destruct (compress_Ok_intro _ _ _ _ _ _ _ _ _ Hs Et) as [r [Er _]].
      congruence.
    + unfold compress in H. rewrite Hs in H. simpl in H. rewrite Et in H.
      simpl in H. congruence.
  - intros Et. unfold compress. rewrite Hs. simpl. rewrite Et. reflexivity.
Qed.

Lemma count_ge_all (t : Q) (l : list Q) :
  count_ge t l = List.length l -> Forall (fun s => t <= s) l.
Proof.
  unfold count_ge. induction l as [| x l IH]; simpl; intros H; [constructor |].
  pose proof (filter_length_le (fun s => Qle_bool t s) l) as Hle.
  destruct (Qle_bool t x) eqn:E; simpl in H.
  - constructor; [apply Qle_bool_iff; exact E | apply IH; lia].
  - lia.
Qed.

(** The last of the sorted scores is a lower bound of the scores. *)
Lemma sorted_last_is_min (scores : list Q) (t : Q) :
  nth_error (rev (np_sort scores)) (List.length scores - 1) = Some t ->
  Forall (fun s => t <= s) scores.
Proof.
  intros H.
  destruct (descending_rank _ (sorted_scores_descending scores) _ _ H) as [Hge _].
  rewrite <- (count_ge_perm t _ _ (sorted_scores_perm scores)) in Hge.
  apply count_ge_all.
  pose proof (filter_length_le (fun s => Qle_bool t s) scores) as Hle.
  unfold count_ge in *.
  assert (List.length scores <> 0)%nat.
  { intros E. rewrite E in H. simpl in H.
    destruct scores; [| discriminate E]. discriminate H. }
  lia.
Qed.

(** Positions further down the descending scores hold smaller scores. *)
Lemma descending_nth_le (d : list Q) :
  StronglySorted (fun a b => b <= a) d ->
  forall (i j : nat) (a b : Q),
    (i <= j)%nat -> nth_error d i = Some a -> nth_error d j = Some b -> b <= a.
Proof.
  induction 1 as [| x d Hs IH Hall]; intros i j a b Hij Hi Hj.
  - destruct i; discriminate Hi.
  - destruct i as [| i]; destruct j as [| j]; simpl in *.
    + injection Hi as <-. injection Hj as <-. apply Qle_refl.
    + injection Hi as <-. rewrite Forall_forall in Hall. apply Hall.
      eapply nth_error_In. exact Hj.
    + lia.
    + eapply IH; [| exact Hi | exact Hj]. lia.
Qed.

Lemma py_max_mono (a b h : Q) : a <= b -> py_max a h <= py_max b h.
Proof.
  intros H. unfold py_max.
  destruct (Qlt_bool a h) eqn:Ea; destruct (Qlt_bool b h) eqn:Eb.
  - apply Qle_refl.
  - apply Qlt_bool_false_iff in Eb. exact Eb.
  - apply Qlt_bool_false_iff in Ea. apply Qlt_bool_iff in Eb.
    exfalso. apply (Qlt_not_le _ _ Eb). eapply Qle_trans; eassumption.
  - exact H.
Qed.

Lemma select_incl (scores : list Q) (t1 t2 : Q) :
  t2 <= t1 -> incl (select scores t1) (select scores t2).
Proof.
  intros H i Hi. apply select_In in Hi. apply select_In.
  destruct Hi as [s [Hs Ht]]. exists s. split; [exact Hs |].
  eapply Qle_trans; eassumption.
Qed.

Lemma keep_count_mono (cfg : CompressorConfig) (n : nat) (t1 t2 : Q) :
  0 <= t1 -> t1 <= t2 -> (keep_count cfg n t1 <= keep_count cfg n t2)%Z.
Proof.
  intros H1 H12. unfold keep_count.
  assert (Hn : 0 <= Qofnat n) by (unfold Qofnat, Qle; simpl; lia).
  assert (Ha : 0 <= Qofnat n * t1) by (apply Qmult_le_0_compat; assumption).
  assert (Hab : Qofnat n * t1 <= Qofnat n * t2).
  { rewrite !(Qmult_comm (Qofnat n)). apply Qmult_le_compat_r; assumption. }
  rewrite !py_int_floor; [| eapply Qle_trans; eassumption | exact Ha].
  apply Z.max_le_compat_l. apply Qfloor_resp_le. exact Hab.
Qed.

End CompressEdgeFacts.

Module CompressEdgeProperties.
Import Py Re Scratch Stub Spec PyFacts SortFacts ScorerFacts ScoreTokensFacts SelectFacts.
Import CompressEdgeFacts.

(** X1.  The failures of [compress]: it raises [ValueError] exactly when
    the encoder yields no token, [ZeroDivisionError] exactly when there are
    tokens, no query is used and the attention and semantic weights add up
    to zero, and [IndexError] exactly when the scoring succeeds and
    [keep_count] is at most minus the number of tokens; it raises nothing
    else. *)
Theorem compress_failures
    (rt : Runtime) (cfg : CompressorConfig) (text : string)
    (query : option string) (target_ratio : option Q) (e : exn) :
  compress rt cfg text query target_ratio = Raise e <->
  (e = ValueError /\ encoded_of rt cfg text = [])
  \/ (e = ZeroDivisionError
      /\ encoded_of rt cfg text <> []
      /\ query_given query && use_query_aware cfg = false
      /\ attention_weight cfg + semantic_weight cfg == 0)
  \/ (e = IndexError
      /\ exists scores tokens token_ids,
           score_tokens rt cfg text query = Ok (scores, tokens, token_ids)
           /\ (keep_count cfg (List.length tokens)
                 (effective_target cfg target_ratio)
               <= - Z.of_nat (List.length tokens))%Z).
Proof.
  split.
  - intros H.
    destruct (score_tokens rt cfg text query) as [[[scores tokens] ids] | e'] eqn:Es.
    + right. right.
      destruct (score_tokens_Ok_inv _ _ _ _ _ _ _ Es) as [_ [_ [Ls [_ [Hne _]]]]].
      apply (compress_after_scoring _ _ _ _ target_ratio _ _ _ e Es) in H.
      apply keep_threshold_Raise_iff in H;
        [| exact Ls | destruct tokens; [congruence | simpl; lia]].
      destruct H as [-> Hk]. split; [reflexivity |].
      exists scores, tokens, ids. split; [reflexivity | exact Hk].
    + assert (e = e').
      { unfold compress in H. rewrite Es in H. simpl in H. congruence. }
      subst e'. pose proof Es as Es'. apply score_tokens_Raise in Es'.
      destruct Es' as [[-> He] | [-> [Hq Hw]]].
      * left. split; [reflexivity | exact He].
      * right. left. split; [reflexivity |]. split; [| split; assumption].
        intros He. rewrite (score_tokens_empty _ _ _ _ He) in Es. discriminate Es.
  - intros [[-> He] | [[-> [Hne [Hq Hw]]] | [-> [scores [tokens [ids [Es Hk]]]]]]].
    + unfold compress. rewrite (score_tokens_empty _ _ _ _ He). reflexivity.
    + unfold compress.
      rewrite (score_tokens_zero_weights _ _ _ _ Hne Hq Hw). reflexivity.
    + destruct (score_tokens_Ok_inv _ _ _ _ _ _ _ Es) as [_ [_ [Ls [_ [Hne _]]]]].
      apply (compress_after_scoring _ _ _ _ target_ratio _ _ _ IndexError Es).
      apply keep_threshold_Raise_iff;
        [exact Ls | destruct tokens; [congruence | simpl; lia] | ].
      split; [reflexivity | exact Hk].
Qed.

(** A floor of -10 tokens and a target ratio of -1 on "ab cd ef": five
    tokens, [keep_count = -5], and the index -6 is out of range. *)
Lemma compress_failures_witness :
  compress stub (config_with (-10) (-1) 450) "ab cd ef" None None = Raise IndexError.
Proof.
  apply (proj2 (compress_failures stub (config_with (-10) (-1) 450) "ab cd ef"
                  None None IndexError)).
  right. right. split; [reflexivity |].
  match eval vm_compute in
        (score_tokens stub (config_with (-10) (-1) 450) "ab cd ef" None) with
  | Ok (?s, ?t, ?i) => exists s, t, i
  end.
  split; [vm_compute; reflexivity | vm_compute; discriminate].
Defined.

(** X2.  A [keep_count] of zero keeps everything: the index [-1] reads the
    smallest score, so that under a hard threshold that is not positive
    every token reaches the threshold. *)
Theorem zero_keep_count_keeps_all
    (rt : Runtime) (cfg : CompressorConfig) (text : string)
    (query : option string) (target_ratio : option Q)
    (scores : list Q) (tokens : list string) (token_ids : list Z) :
  score_tokens rt cfg text query = Ok (scores, tokens, token_ids) ->
  keep_count cfg (List.length tokens) (effective_target cfg target_ratio) = 0%Z ->
  hard_threshold cfg <= 0 ->
  exists r,
    compress rt cfg text query target_ratio = Ok r
    /\ kept_indices r = seq 0 (List.length tokens).
Proof.
  intros Hs Hk Hhard.
  destruct (score_tokens_Ok_inv _ _ _ _ _ _ _ Hs)
    as [_ [_ [Ls [_ [Hne Hrange]]]]].
  set (n := List.length tokens) in *.
  assert (Hn : (1 <= n)%nat).
  { unfold n. destruct tokens; [congruence | simpl; lia]. }
  destruct (get_item_Ok (rev (np_sort scores)) (n - 1)) as [t Et].
  { rewrite length_sorted_scores. lia. }
  assert (Hthr : keep_threshold cfg n (effective_target cfg target_ratio) scores
                 = Ok (py_max t (hard_threshold cfg))).
  { unfold keep_threshold. rewrite Hk.
    assert (E : (Z.of_nat n <=? 0)%Z = false) by (apply Z.leb_gt; lia).
    rewrite E. unfold py_getitem. simpl (0 <=? 0 - 1)%Z.
    rewrite length_sorted_scores, Ls.
    assert (E1 : (- Z.of_nat n <=? 0 - 1)%Z = true) by (apply Z.leb_le; lia).
    rewrite E1.
    replace (Z.to_nat (Z.of_nat n + (0 - 1))) with (n - 1)%nat by lia.
    rewrite Et. reflexivity. }
  destruct (compress_Ok_intro rt cfg text query target_ratio _ _ _ _ Hs Hthr)
    as [r [Er [_ [Hkept _]]]].
  exists r. split; [exact Er |].
  rewrite Hkept. unfold select. rewrite <- Ls. apply select_from_all.
  unfold get_item in Et.
  destruct (nth_error (rev (np_sort scores)) (n - 1)) as [t' |] eqn:Enth;
    [| discriminate Et].
  injection Et as ->. rewrite <- Ls in Enth.
  pose proof (sorted_last_is_min scores t Enth) as Hmin.
  rewrite Forall_forall in *. intros s Hin.
  destruct (py_max_cases t (hard_threshold cfg)) as [E | E]; rewrite E.
  - apply Hmin. exact Hin.
  - eapply Qle_trans; [exact Hhard |]. apply (Hrange s Hin).
Qed.

(** Without a floor, a target ratio of one tenth on "ab cd ef" gives
    [keep_count = 0], and all five tokens are kept. *)
Lemma zero_keep_count_keeps_all_witness :
  exists scores tokens token_ids,
    score_tokens stub (config_with 0 (1 # 10) 450) "ab cd ef" None
      = Ok (scores, tokens, token_ids)
    /\ keep_count (config_with 0 (1 # 10) 450) (List.length tokens)
         (effective_target (config_with 0 (1 # 10) 450) None) = 0%Z
    /\ exists r,
         compress stub (config_with 0 (1 # 10) 450) "ab cd ef" None None = Ok r
         /\ kept_indices r = [0; 1; 2; 3; 4]%nat.
Proof.
  match eval vm_compute in
        (score_tokens stub (config_with 0 (1 # 10) 450) "ab cd ef" None) with
  | Ok (?s, ?t, ?i) =>
      exists s, t, i;
      assert (H : score_tokens stub (config_with 0 (1 # 10) 450) "ab cd ef" None
                  = Ok (s, t, i)) by (vm_compute; reflexivity);
      assert (Hk : keep_count (config_with 0 (1 # 10) 450) (List.length t)
                     (effective_target (config_with 0 (1 # 10) 450) None) = 0%Z)
        by (vm_compute; reflexivity);
      assert (Hh : hard_threshold (config_with 0 (1 # 10) 450) <= 0)
        by (vm_compute; discriminate);
      split; [exact H |]; split; [exact Hk |];
      exact (zero_keep_count_keeps_all stub (config_with 0 (1 # 10) 450) "ab cd ef"
               None None s t i H Hk Hh)
  end.
Defined.

(** X3.  Raising the target ratio never drops a kept token: under a floor
    of at least one token, for two non-negative target ratios the indices
    kept for the smaller one are kept for the larger one. *)
Theorem larger_target_keeps_more
    (rt : Runtime) (cfg : CompressorConfig) (text : string)
    (query : option string) (t1 t2 : option Q) (r1 r2 : CompressionResult) :
  (1 <= min_tokens cfg)%Z ->
  0 <= effective_target cfg t1 ->
  effective_target cfg t1 <= effective_target cfg t2 ->
  compress rt cfg text query t1 = Ok r1 ->
  compress rt cfg text query t2 = Ok r2 ->
  incl (kept_indices r1) (kept_indices r2).
Proof.
  intros Hmin H0 H12 E1 E2.
  destruct (compress_Ok_inv _ _ _ _ _ _ E1)
    as [scores [tokens [ids [thr1 [kt1 [Hs [Ht1 [_ ->]]]]]]]].
  destruct (compress_Ok_inv _ _ _ _ _ _ E2)
    as [scores' [tokens' [ids' [thr2 [kt2 [Hs' [Ht2 [_ ->]]]]]]]].
  rewrite Hs in Hs'. injection Hs' as <- <- <-. simpl.
  destruct (score_tokens_Ok_inv _ _ _ _ _ _ _ Hs)
    as [_ [_ [Ls [_ [Hne Hrange]]]]].
  set (n := List.length tokens) in *.
  pose proof (keep_count_mono cfg n _ _ H0 H12) as Hk.
  assert (Hk1 : (1 <= keep_count cfg n (effective_target cfg t1))%Z).
  { unfold keep_count. lia. }
  apply select_incl.
  assert (Hpos : forall (t : Q) (k : nat),
            nth_error (rev (np_sort scores)) k = Some t -> 0 <= py_max t (hard_threshold cfg)).
  { intros t k Hnth.
    eapply Qle_trans; [| exact (proj1 (py_max_lub t (hard_threshold cfg)))].
    rewrite Forall_forall in Hrange. apply Hrange.
    apply (Permutation_in _ (Permutation_sym (sorted_scores_perm scores))).
    eapply nth_error_In. exact Hnth. }
  destruct (Z_le_gt_dec (Z.of_nat n) (keep_count cfg n (effective_target cfg t2)))
    as [Hall2 | Hsome2].
  - rewrite (keep_threshold_all _ _ _ _ Hall2) in Ht2. injection Ht2 as <-.
    destruct (Z_le_gt_dec (Z.of_nat n) (keep_count cfg n (effective_target cfg t1)))
      as [Hall1 | Hsome1].
    + rewrite (keep_threshold_all _ _ _ _ Hall1) in Ht1. injection Ht1 as <-.
      apply Qle_refl.
    + destruct (keep_threshold_kth cfg n (effective_target cfg t1) scores Ls)
        as [t [Hnth Et]]; [lia |].
      rewrite Et in Ht1. injection Ht1 as <-.
      eapply Hpos. exact Hnth.
  - destruct (keep_threshold_kth cfg n (effective_target cfg t1) scores Ls)
      as [a [Ha Ea]]; [lia |].
    destruct (keep_threshold_kth cfg n (effective_target cfg t2) scores Ls)
      as [b [Hb Eb]]; [lia |].
    rewrite Ea in Ht1. injection Ht1 as <-.
    rewrite Eb in Ht2. injection Ht2 as <-.
    apply py_max_mono.
    eapply (descending_nth_le _ (sorted_scores_descending scores)); [| exact Ha | exact Hb].
    lia.
Qed.

(** "ab cd ef" at target ratios 0.2 and 0.5: index 3, then indices 2 and
    3. *)
Lemma larger_target_keeps_more_witness :
  exists r1 r2,
    compress stub (config_with 1 (1 # 2) 450) "ab cd ef" None (Some (2 # 10)) = Ok r1
    /\ compress stub (config_with 1 (1 # 2) 450) "ab cd ef" None (Some (5 # 10)) = Ok r2
    /\ kept_indices r1 = [3]%nat
    /\ kept_indices r2 = [2; 3]%nat
    /\ incl (kept_indices r1) (kept_indices r2).
Proof.
  match eval vm_compute in
        (compress stub (config_with 1 (1 # 2) 450) "ab cd ef" None (Some (2 # 10))) with
  | Ok ?r1 =>
      match eval vm_compute in
            (compress stub (config_with 1 (1 # 2) 450) "ab cd ef" None (Some (5 # 10))) with
      | Ok ?r2 =>
          exists r1, r2;
          assert (E1 : compress stub (config_with 1 (1 # 2) 450) "ab cd ef" None
                         (Some (2 # 10)) = Ok r1) by (vm_compute; reflexivity);
          assert (E2 : compress stub (config_with 1 (1 # 2) 450) "ab cd ef" None
                         (Some (5 # 10)) = Ok r2) by (vm_compute; reflexivity);
          split; [exact E1 |]; split; [exact E2 |];
          split; [reflexivity |]; split; [reflexivity |];
          apply (larger_target_keeps_more stub (config_with 1 (1 # 2) 450) "ab cd ef"
                   None (Some (2 # 10)) (Some (5 # 10)) r1 r2);
          [ vm_compute; discriminate | vm_compute; discriminate
          | vm_compute; discriminate | exact E1 | exact E2 ]
      end
  end.
Defined.

End CompressEdgeProperties.

(* ===================================================================== *)
(** * The clean-up of the rebuilt text                                    *)
(* ===================================================================== *)

Module CleanupFacts.
Import Py Re PyFacts.

Lemma append_empty_r (s : string) : (s ++ "")%string = s.
Proof. induction s as [| c s IH]; simpl; [reflexivity | rewrite IH; reflexivity]. Qed.

Lemma append_assoc (a b c : string) : ((a ++ b) ++ c)%string = (a ++ (b ++ c))%string.
Proof. induction a as [| x a IH]; simpl; [reflexivity | rewrite IH; reflexivity]. Qed.

Lemma srev_onto_spec (s acc : string) : srev_onto s acc = (srev s ++ acc)%string.
Proof.
  unfold srev. revert acc. induction s as [| c s IH]; intros acc; simpl.
  - reflexivity.
  - rewrite IH, (IH (String c "")), append_assoc. reflexivity.
Qed.

Lemma srev_cons (c : ascii) (s : string) :
  srev (String c s) = (srev s ++ String c "")%string.
Proof. unfold srev at 1. simpl. apply srev_onto_spec. Qed.

Lemma srev_snoc (s : string) (c : ascii) :
  srev (s ++ String c "") = String c (srev s).
Proof.
  induction s as [| x s IH]; simpl; [reflexivity |].
  rewrite !srev_cons, IH. reflexivity.
Qed.

Lemma lstrip_snoc (a : string) (c : ascii) :
  lstrip (a ++ String c "")
  = match lstrip a with
    | EmptyString => if is_space c then EmptyString else String c EmptyString
    | y => (y ++ String c "")%string
    end.
Proof.
  induction a as [| x a IH]; simpl.
  - destruct (is_space c); reflexivity.
  - destruct (is_space x); [exact IH | reflexivity].
Qed.

Lemma srev_empty_iff (s : string) : srev s = EmptyString <-> s = EmptyString.
Proof.
  split; [| intros ->; reflexivity].
  destruct s as [| c s]; [reflexivity |].
  rewrite srev_cons. destruct (srev s); simpl; discriminate.
Qed.

(** [rstrip], read from the left. *)
Lemma rstrip_cons (c : ascii) (x : string) :
  rstrip (String c x)
  = match rstrip x with
    | EmptyString => if is_space c then EmptyString else String c EmptyString
    | y => String c y
    end.
Proof.
  unfold rstrip. rewrite srev_cons, lstrip_snoc.
  destruct (lstrip (srev x)) as [| d y] eqn:E.
  - simpl. destruct (is_space c); reflexivity.
  - rewrite srev_snoc.
    destruct (srev (String d y)) eqn:E2; [| reflexivity].
    apply (proj1 (srev_empty_iff (String d y))) in E2. discriminate E2.
Qed.

Lemma rstrip_empty : rstrip EmptyString = EmptyString.
Proof. reflexivity. Qed.

Lemma rstrip_cons_word (c : ascii) (x : string) :
  is_space c = false -> rstrip (String c x) = String c (rstrip x).
Proof.
  intros H. rewrite rstrip_cons, H. destruct (rstrip x); reflexivity.
Qed.

Lemma lstrip_collapse (s : string) :
  forall b, lstrip (collapse_spaces_from b s) = collapse_spaces_from false (lstrip s).
Proof.
  induction s as [| c s IH]; intros b; simpl; [reflexivity |].
  destruct (is_space c) eqn:E.
  - destruct b; simpl; apply IH.
  - simpl. rewrite E. reflexivity.
Qed.

Lemma split_from_word_nonempty (s : string) :
  forall w, split_from (Some w) s <> [].
Proof.
  induction s as [| c s IH]; intros w; simpl; [discriminate |].
  destruct (is_space c); [discriminate | apply IH].
Qed.

Lemma join_cons (w : string) (l : list string) :
  join " " (w :: l)
  = match l with
    | [] => w
    | _ => (w ++ " " ++ join " " l)%string
    end.
Proof. destruct l; reflexivity. Qed.

(** The words read by [split], joined by single spaces, against the
    collapsed text without its trailing space: with a word in progress, and
    after a run of whitespace. *)
Lemma join_split_collapse (s : string) :
  (forall w, join " " (split_from (Some w) s)
             = (w ++ rstrip (collapse_spaces_from false s))%string)
  /\ rstrip (String " " (collapse_spaces_from true s))
     = match split_from None s with
       | [] => EmptyString
       | l => String " " (join " " l)
       end.
Proof.
  induction s as [| c s [IHw IHs]].
  - split; [intros w; simpl; rewrite append_empty_r; reflexivity | reflexivity].
  - split.
    + intros w. simpl. destruct (is_space c) eqn:E.
      * rewrite join_cons, IHs.
        destruct (split_from None s); simpl;
          [rewrite append_empty_r; reflexivity | reflexivity].
      * rewrite IHw, rstrip_cons_word by exact E.
        rewrite append_assoc. reflexivity.
    + simpl. destruct (is_space c) eqn:E.
      * exact IHs.
      * rewrite rstrip_cons.
        rewrite (rstrip_cons_word c _ E).
        pose proof (split_from_word_nonempty s (String c "")) as Hne.
        destruct (split_from (Some (String c "")) s) as [| w l] eqn:El;
          [congruence |].
        pose proof (IHw (String c "")) as H. rewrite El, join_cons in H.
        f_equal. symmetry. exact H.
Qed.

Lemma split_from_lstrip (s : string) : split_from None (lstrip s) = split_from None s.
Proof.
  induction s as [| c s IH]; simpl; [reflexivity |].
  destruct (is_space c) eqn:E; [exact IH |].
  simpl. rewrite E. reflexivity.
Qed.

(** [re.sub(r'\s+', ' ', s).strip()] is [" ".join(s.split())]. *)
Lemma strip_collapse_join (s : string) :
  strip (collapse_spaces s) = join " " (split s).
Proof.
  unfold strip, collapse_spaces, split.
  rewrite lstrip_collapse, <- split_from_lstrip.
  destruct (lstrip s) as [| c t] eqn:E; [reflexivity |].
  assert (Hc : is_space c = false).
  { destruct s as [| x s']; [discriminate E |].
    revert E. clear. revert x s'.
    intros x s'. revert x.
    induction s' as [| y s' IH]; intros x; simpl.
    - destruct (is_space x) eqn:Ex; [discriminate |].
      intros H. injection H as <- _. exact Ex.
    - destruct (is_space x) eqn:Ex.
      + apply IH.
      + intros H. injection H as <- _. exact Ex. }
  simpl. rewrite Hc.
  rewrite (proj1 (join_split_collapse t)).
  rewrite rstrip_cons_word by exact Hc. reflexivity.
Qed.

Lemma split_from_app_word (a : string) :
  (forall c, In c (list_ascii_of_string a) -> is_space c = false) ->
  forall (s : string) (w : string),
    split_from (Some w) (a ++ s) = split_from (Some (w ++ a)%string) s.
Proof.
  induction a as [| x a IH]; intros Ha s w; simpl.
  - rewrite append_empty_r. reflexivity.
  - rewrite (Ha x (or_introl eq_refl)).
    rewrite IH by (intros c Hc; apply Ha; right; exact Hc).
    rewrite append_assoc. reflexivity.
Qed.

(** The words [split] returns hold no whitespace and are not empty. *)
Lemma split_from_words (s : string) :
  forall cur,
    match cur with
    | Some w => w <> EmptyString
                /\ forall c, In c (list_ascii_of_string w) -> is_space c = false
    | None => True
    end ->
    Forall (fun w => w <> EmptyString
                     /\ forall c, In c (list_ascii_of_string w) -> is_space c = false)
           (split_from cur s).
Proof.
  induction s as [| c s IH]; intros cur Hcur; simpl.
  - destruct cur; [constructor; [exact Hcur | constructor] | constructor].
  - destruct (is_space c) eqn:E.
    + destruct cur; [constructor; [exact Hcur |] |]; apply IH; exact I.
    + destruct cur as [w |]; apply IH.
      * destruct Hcur as [Hne Hw]. split; [destruct w; discriminate |].
        intros d Hd.
        assert (Hin : In d (list_ascii_of_string w) \/ d = c).
        { clear - Hd. induction w as [| y w IHw]; simpl in *.
          - destruct Hd as [-> | []]. right. reflexivity.
          - destruct Hd as [-> | Hd]; [left; left; reflexivity |].
            destruct (IHw Hd); [left; right; assumption | right; assumption]. }
        destruct Hin as [Hin | ->]; [apply Hw; exact Hin | exact E].
      * split; [discriminate |].
        intros d [<- | []]. exact E.
Qed.

(** Splitting the joined words gives the words back. *)
Lemma split_join_words (l : list string) :
  Forall (fun w => w <> EmptyString
                   /\ forall c, In c (list_ascii_of_string w) -> is_space c = false) l ->
  split (join " " l) = l.
Proof.
  unfold split. induction 1 as [| w l [Hne Hw] Hl IH]; [reflexivity |].
  rewrite join_cons.
  destruct w as [| c w]; [congruence |].
  assert (Hstart : forall s, split_from None (String c w ++ s)
                             = split_from (Some (String c w)) s).
  { intros s. simpl. rewrite (Hw c (or_introl eq_refl)).
    rewrite split_from_app_word by (intros d Hd; apply Hw; right; exact Hd).
    reflexivity. }
  destruct l as [| w' l'].
  - rewrite <- (append_empty_r (String c w)) at 1. rewrite Hstart. reflexivity.
  - rewrite Hstart.
    replace (split_from (Some (String c w)) (" " ++ join " " (w' :: l')))
      with (String c w :: split_from None (join " " (w' :: l'))) by reflexivity.
    rewrite IH. reflexivity.
Qed.

End CleanupFacts.

Module CleanupProperties.
Import Py Re Scratch Stub Spec PyFacts ScorerFacts ScoreTokensFacts SelectFacts.
Import CleanupFacts.

(** X4.  The compressed text of [compress] is the sequence of
    whitespace-separated words of the detokenized kept tokens, joined by
    single spaces: no leading, trailing or repeated whitespace, and the
    words themselves unchanged; cleaning it again changes nothing. *)
Theorem compressed_text_is_joined_words
    (rt : Runtime) (cfg : CompressorConfig) (text : string)
    (query : option string) (target_ratio : option Q) (r : CompressionResult) :
  compress rt cfg text query target_ratio = Ok r ->
  exists tokens,
    tokens = map tok (encoded_of rt cfg text)
    /\ let rebuilt :=
         convert_tokens_to_string rt (encoder_model cfg)
           (map (fun i => nth i tokens "") (kept_indices r)) in
       compressed_text r = join " " (split rebuilt)
       /\ split (compressed_text r) = split rebuilt
       /\ strip (collapse_spaces (compressed_text r)) = compressed_text r.
Proof.
  intros H.
  destruct (compress_Ok_inv _ _ _ _ _ _ H)
    as [scores [tokens [ids [thr [kt [Hs [_ [Hk ->]]]]]]]].
  destruct (score_tokens_Ok_inv _ _ _ _ _ _ _ Hs) as [Htok _].
  exists tokens. split; [exact Htok |]. simpl.
  rewrite <- (mapM_get_item_nth _ _ _ Hk).
  set (rebuilt := convert_tokens_to_string rt (encoder_model cfg) kt).
  assert (E : strip (collapse_spaces rebuilt) = join " " (split rebuilt))
    by apply strip_collapse_join.
  assert (Es : split (join " " (split rebuilt)) = split rebuilt).
  { apply split_join_words. unfold split. apply split_from_words. exact I. }
  rewrite E. split; [reflexivity |]. split; [exact Es |].
  rewrite strip_collapse_join, Es. reflexivity.
Qed.

(** "Hello world" under the default configuration. *)
Lemma compressed_text_is_joined_words_witness :
  exists r,
    compress stub default_config "Hello world" None None = Ok r
    /\ compressed_text r = "[CLS] hello world [SEP]"
    /\ split (compressed_text r) = ["[CLS]"; "hello"; "world"; "[SEP]"].
Proof.
  match eval vm_compute in (compress stub default_config "Hello world" None None) with
  | Ok ?r =>
      exists r;
      assert (H : compress stub default_config "Hello world" None None = Ok r)
        by (vm_compute; reflexivity);
      split; [exact H |]; split; [reflexivity |];
      destruct (compressed_text_is_joined_words _ _ _ _ _ _ H) as [tokens [-> [_ [Hw _]]]];
      exact Hw
  end.
Defined.

End CleanupProperties.

(* ===================================================================== *)
(** * Further properties of the chunking                                  *)
(* ===================================================================== *)

Module ChunkWordFacts.
Import Py Re Scratch Spec PyFacts ChunkFacts CleanupFacts.

Local Open Scope list_scope.

Lemma split_from_app_space (a : string) (c : ascii) (b : string) :
  is_space c = true ->
  forall cur, split_from cur (a ++ String c b)%string
              = split_from cur a ++ split_from None b.
Proof.
  intros Hc. induction a as [| x a IH]; intros cur; simpl.
  - rewrite Hc. destruct cur; reflexivity.
  - destruct (is_space x).
    + destruct cur; simpl; rewrite IH; reflexivity.
    + destruct cur; apply IH.
Qed.

(** The words of the sentences are the words of the text. *)
Lemma split_sentences_words (s : string) :
  forall prev cur,
    List.concat (map split (split_sentences_from prev false cur s))
    = split (cur ++ s)%string
    /\ List.concat (map split (split_sentences_from prev true EmptyString s))
       = split s.
Proof.
  induction s as [| c s IH]; intros prev cur.
  - simpl. rewrite app_nil_r, append_empty_r. split; reflexivity.
  - split.
    + simpl. destruct (is_space c) eqn:E.
      * destruct (after_terminal prev).
        -- simpl. rewrite (proj2 (IH (Some c) EmptyString)).
           unfold split. rewrite (split_from_app_space cur c s E). reflexivity.
        -- rewrite (proj1 (IH (Some c) (cur ++ String c "")%string)).
           rewrite append_assoc. reflexivity.
      * rewrite (proj1 (IH (Some c) (cur ++ String c "")%string)).
        rewrite append_assoc. reflexivity.
    + simpl. destruct (is_space c) eqn:E.
      * rewrite (proj2 (IH (Some c) EmptyString)).
        unfold split. simpl. rewrite E. reflexivity.
      * rewrite (proj1 (IH (Some c) (String c ""))). reflexivity.
Qed.

Lemma split_join (g : list string) :
  split (join " " g) = List.concat (map split g).
Proof.
  induction g as [| s g IH]; [reflexivity |].
  rewrite join_cons. destruct g as [| s' g'].
  - simpl. rewrite app_nil_r. reflexivity.
  - change (s ++ " " ++ join " " (s' :: g'))%string
      with (s ++ String " " (join " " (s' :: g')))%string.
    unfold split at 1. rewrite split_from_app_space by reflexivity.
    fold (split s). fold (split (join " " (s' :: g'))). rewrite IH. reflexivity.
Qed.

Lemma concat_map_concat {A B : Type} (f : A -> list B) (ls : list (list A)) :
  List.concat (map (fun l => List.concat (map f l)) ls)
  = List.concat (map f (List.concat ls)).
Proof.
  induction ls as [| l ls IH]; simpl; [reflexivity |].
  rewrite map_app, List.concat_app, IH. reflexivity.
Qed.

Lemma total_words_concat (l : list string) :
  total_words l = List.length (List.concat (map split l)).
Proof.
  unfold total_words, word_count. induction l as [| s l IH]; simpl; [reflexivity |].
  rewrite length_app, IH. reflexivity.
Qed.

(** While the limit is not passed the loop only appends. *)
Lemma pack_sentences_within (cfg : CompressorConfig) (sentences : list string) :
  forall (chunks cur : list string) (len : nat),
    Qofnat (len + total_words sentences) <= chunk_limit cfg ->
    pack_sentences cfg sentences chunks cur len
    = (chunks, cur ++ sentences, (len + total_words sentences)%nat).
Proof.
  induction sentences as [| sent rest IH]; intros chunks cur len Hle; simpl.
  - rewrite app_nil_r. unfold total_words. simpl. rewrite Nat.add_0_r. reflexivity.
  - fold (chunk_limit cfg). fold (word_count sent).
    assert (Etot : total_words (sent :: rest) = (word_count sent + total_words rest)%nat)
      by reflexivity.
    rewrite Etot in Hle.
    assert (E : Qlt_bool (chunk_limit cfg) (Qofnat (len + word_count sent)) = false).
    { apply Qlt_bool_false_iff. eapply Qle_trans; [| exact Hle].
      unfold Qofnat, Qle. simpl. lia. }
    rewrite E, IH.
    + rewrite <- app_assoc, Etot. simpl. f_equal. lia.
    + rewrite <- Nat.add_assoc. exact Hle.
Qed.

End ChunkWordFacts.

Module ChunkWordProperties.
Import Py Re Scratch Stub Spec PyFacts SelectFacts ChunkFacts CleanupFacts ChunkWordFacts.

Local Open Scope list_scope.

(** X5.  The chunks of [compress_chunks] hold exactly the words of the
    text, in order, and there is always at least one chunk, so that the
    empty text is compressed as one empty chunk. *)
Theorem chunks_keep_the_words (cfg : CompressorConfig) (text : string) :
  List.concat (map split (make_chunks cfg text)) = split text
  /\ make_chunks cfg text <> []
  /\ make_chunks cfg "" = [""].
Proof.
  destruct (make_chunks_groups cfg text) as [groups [Hm [Hcat [Hfit _]]]].
  split; [| split].
  - rewrite Hm, map_map.
    rewrite (map_ext _ (fun g => List.concat (map split g)) split_join).
    rewrite concat_map_concat, Hcat.
    apply (proj1 (split_sentences_words text None EmptyString)).
  - rewrite Hm. intros E. apply map_eq_nil in E. subst groups.
    simpl in Hcat. symmetry in Hcat.
    exact (split_sentences_from_nonempty text None false EmptyString Hcat).
  - unfold make_chunks. simpl.
    destruct (Qlt_bool _ _); reflexivity.
Qed.

(** X6.  A text whose word count is at most [chunk_size * 0.8] makes a
    single chunk, its sentences joined by single spaces, and
    [compress_chunks] returns the text, the token counts and the ratio of
    [compress] on that chunk, without scores and kept indices. *)
Theorem short_text_is_one_chunk
    (rt : Runtime) (cfg : CompressorConfig) (text : string)
    (query : option string) (target_ratio : option Q) :
  Qofnat (word_count text) <= chunk_limit cfg ->
  make_chunks cfg text = [join " " (split_sentences text)]
  /\ compress_chunks rt cfg text query target_ratio
     = (r <- compress rt cfg (join " " (split_sentences text)) query target_ratio ;;
        Ok {| original_text := text;
              compressed_text := compressed_text r;
              original_tokens := original_tokens r;
              compressed_tokens := compressed_tokens r;
              token_scores := [];
              kept_indices := [];
              compression_ratio := compression_ratio r |}).
Proof.
  intros Hle.
  assert (Hw : total_words (split_sentences text) = word_count text).
  { rewrite total_words_concat. unfold word_count, split_sentences.
    rewrite (proj1 (split_sentences_words text None EmptyString)). reflexivity. }
  assert (Hm : make_chunks cfg text = [join " " (split_sentences text)]).
  { unfold make_chunks. rewrite pack_sentences_within by (simpl; rewrite Hw; exact Hle).
    simpl.
    destruct (split_sentences text) eqn:E; [| reflexivity].
    exfalso. exact (split_sentences_from_nonempty text None false EmptyString E). }
  split; [exact Hm |].
  unfold compress_chunks. rewrite Hm. simpl.
  destruct (compress rt cfg (join " " (split_sentences text)) query target_ratio)
    as [r | e] eqn:Er; simpl; [| reflexivity].
  rewrite ratio_of_Ok. simpl.
  destruct (compress_Ok_inv _ _ _ _ _ _ Er)
    as [scores [tokens [ids [thr [kt [_ [_ [_ ->]]]]]]]].
  reflexivity.
Qed.

(** Three short sentences under the default configuration. *)
Lemma short_text_is_one_chunk_witness :
  Qofnat (word_count "One two three.  Four five. Six") <= chunk_limit default_config
  /\ make_chunks default_config "One two three.  Four five. Six"
     = ["One two three. Four five. Six"].
Proof.
  assert (H : Qofnat (word_count "One two three.  Four five. Six")
              <= chunk_limit default_config) by (vm_compute; discriminate).
  split; [exact H |].
  exact (proj1 (short_text_is_one_chunk stub default_config
                  "One two three.  Four five. Six" None None H)).
Defined.

End ChunkWordProperties.

(* ===================================================================== *)
(** * Further properties of the scorer                                    *)
(* ===================================================================== *)

Module ScoringMoreFacts.
Import Py Re Scratch Spec SpecMore PyFacts ScorerFacts ScoreTokensFacts.

Lemma set_item_nth {A : Type} (l l' : list A) (i : nat) (v : A) :
  set_item l i v = Ok l' ->
  forall j, nth_error l' j = if (j =? i)%nat then Some v else nth_error l j.
Proof.
  revert i l'. induction l as [| a l IH]; intros i l' H j; simpl in H.
  - discriminate H.
  - destruct i as [| i].
    + injection H as <-. destruct j; reflexivity.
    + apply bind_Ok in H. destruct H as [r [E H]]. injection H as <-.
      destruct j as [| j]; [reflexivity |]. simpl. apply (IH _ _ E).
Qed.

(** One step of the penalty loop on an index within the array. *)
Lemma penalize_step
    (special_ids : list Z) (i : nat) (t : string) (t_id : Z)
    (rest : list (string * Z)) (scores : list Q) (s : Q) :
  nth_error scores i = Some s ->
  exists scores',
    List.length scores' = List.length scores
    /\ (forall j, nth_error scores' j
                  = if (j =? i)%nat then Some (penalty special_ids t t_id s)
                    else nth_error scores j)
    /\ penalize special_ids i ((t, t_id) :: rest) scores
       = penalize special_ids (S i) rest scores'.
Proof.
  intros Hs.
  assert (Hi : (i < List.length scores)%nat) by (apply nth_error_Some; congruence).
  assert (Hg : get_item scores i = Ok s) by (unfold get_item; rewrite Hs; reflexivity).
  unfold penalty. simpl.
  destruct (is_special special_ids t_id).
  - destruct (set_item_Ok scores i 0 Hi) as [s1 [E1 L1]].
    exists s1. rewrite E1. split; [exact L1 |].
    split; [apply (set_item_nth _ _ _ _ E1) | reflexivity].
  - destruct (negb (has_alnum t)).
    + destruct (set_item_Ok scores i (s * (5 # 10)) Hi) as [s1 [E1 L1]].
      exists s1. rewrite Hg. simpl. rewrite E1. split; [exact L1 |].
      split; [apply (set_item_nth _ _ _ _ E1) | reflexivity].
    + destruct (startswith t "##").
      * destruct (set_item_Ok scores i (s * (8 # 10)) Hi) as [s1 [E1 L1]].
        exists s1. rewrite Hg. simpl. rewrite E1. split; [exact L1 |].
        split; [apply (set_item_nth _ _ _ _ E1) | reflexivity].
      * exists scores. split; [reflexivity |]. split; [| reflexivity].
        intros j. destruct (j =? i)%nat eqn:Ej; [| reflexivity].
        apply Nat.eqb_eq in Ej. subst j. exact Hs.
Qed.

(** The penalty loop, entry by entry. *)
Lemma penalize_nth (special_ids : list Z) (items : list (string * Z)) :
  forall (i : nat) (scores res : list Q),
    (i + List.length items <= List.length scores)%nat ->
    penalize special_ids i items scores = Ok res ->
    forall j,
      nth_error res j
      = match (if (i <=? j)%nat then nth_error items (j - i) else None) with
        | Some (t, t_id) => option_map (penalty special_ids t t_id) (nth_error scores j)
        | None => nth_error scores j
        end.
Proof.
  induction items as [| [t t_id] rest IH]; intros i scores res Hlen H j.
  - simpl in H. injection H as <-.
    destruct (i <=? j)%nat; [destruct (j - i)%nat |]; reflexivity.
  - simpl in Hlen.
    destruct (nth_error scores i) as [s |] eqn:Es;
      [| apply nth_error_None in Es; lia].
    destruct (penalize_step special_ids i t t_id rest scores s Es)
      as [scores' [L' [Hn' Hp]]].
    rewrite Hp in H.
    rewrite (IH (S i) scores' res) by (try exact H; lia).
    rewrite !Hn'.
    destruct (i <=? j)%nat eqn:E1.
    + apply Nat.leb_le in E1.
      destruct (Nat.eq_dec j i) as [-> | Hne].
      * assert (E2 : (S i <=? i)%nat = false) by (apply Nat.leb_gt; lia).
        rewrite E2, Nat.eqb_refl, Nat.sub_diag. simpl. rewrite Es. reflexivity.
      * assert (E2 : (S i <=? j)%nat = true) by (apply Nat.leb_le; lia).
        assert (E3 : (j =? i)%nat = false) by (apply Nat.eqb_neq; exact Hne).
        rewrite E2, E3.
        replace (j - i)%nat with (S (j - S i)) by lia. reflexivity.
    + apply Nat.leb_gt in E1.
      assert (E2 : (S i <=? j)%nat = false) by (apply Nat.leb_gt; lia).
      assert (E3 : (j =? i)%nat = false) by (apply Nat.eqb_neq; lia).
      rewrite E2, E3. reflexivity.
Qed.

Lemma penalty_nonneg (special_ids : list Z) (t : string) (t_id : Z) (s : Q) :
  0 <= s -> 0 <= penalty special_ids t t_id s.
Proof.
  intros H. unfold penalty.
  destruct (is_special special_ids t_id); [apply Qle_refl |].
  destruct (negb (has_alnum t)); [lra |].
  destruct (startswith t "##"); [lra | exact H].
Qed.

Lemma Forall_nth_error {A : Type} (P : A -> Prop) (l : list A) :
  (forall j x, nth_error l j = Some x -> P x) -> Forall P l.
Proof.
  intros H. apply Forall_forall. intros x Hin.
  destruct (In_nth_error _ _ Hin) as [j Hj]. eapply H. exact Hj.
Qed.

Lemma Forall_nth_error_inv {A : Type} (P : A -> Prop) (l : list A) (j : nat) (x : A) :
  Forall P l -> nth_error l j = Some x -> P x.
Proof.
  intros H Hj. rewrite Forall_forall in H. apply H. eapply nth_error_In. exact Hj.
Qed.

Lemma vscale_nonneg (c : Q) (a : list Q) :
  0 <= c -> Forall (fun v => 0 <= v) a -> Forall (fun v => 0 <= v) (vscale c a).
Proof.
  intros Hc Ha. unfold vscale. apply Forall_map.
  eapply Forall_impl; [| exact Ha]. intros v Hv. simpl.
  apply Qmult_le_0_compat; assumption.
Qed.

Lemma vadd_nonneg (a b : list Q) :
  Forall (fun v => 0 <= v) a -> Forall (fun v => 0 <= v) b ->
  Forall (fun v => 0 <= v) (vadd a b).
Proof.
  intros Ha. revert b. induction Ha as [| x a Hx _ IH]; intros b Hb; [constructor |].
  destruct Hb as [| y b Hy Hb]; [constructor |].
  simpl. constructor; [lra | apply IH; exact Hb].
Qed.

Lemma vmul_nonneg (a b : list Q) :
  Forall (fun v => 0 <= v) a -> Forall (fun v => 0 <= v) b ->
  Forall (fun v => 0 <= v) (vmul a b).
Proof.
  intros Ha. revert b. induction Ha as [| x a Hx _ IH]; intros b Hb; [constructor |].
  destruct Hb as [| y b Hy Hb]; [constructor |].
  simpl. constructor; [apply Qmult_le_0_compat; assumption | apply IH; exact Hb].
Qed.

Lemma slice_fill_Forall {A : Type} (P : A -> Prop) (l : list A) (lo hi : nat) (v : A) :
  P v -> Forall P l -> Forall P (slice_fill l lo hi v).
Proof.
  intros Hv Hl. unfold slice_fill. generalize 0%nat.
  induction Hl as [| x l Hx _ IH]; intros i; simpl; [constructor |].
  constructor; [destruct (_ && _); assumption | apply IH].
Qed.

Lemma unit_interval_nonneg (l : list Q) :
  Forall in_unit_interval l -> Forall (fun v => 0 <= v) l.
Proof. intros H. eapply Forall_impl; [| exact H]. intros v [H0 _]. exact H0. Qed.

Lemma fuse_nonneg
    (rt : Runtime) (cfg : CompressorConfig) (text : string)
    (query : option string) (tokens : list string) (a s f : list Q) :
  nonnegative_weights cfg ->
  Forall (fun v => 0 <= v) a -> Forall (fun v => 0 <= v) s ->
  fuse rt cfg text query tokens a s = Ok f ->
  Forall (fun v => 0 <= v) f.
Proof.
  intros [Hwa [Hws [Hwq _]]] Ha Hs. unfold fuse.
  destruct (query_given query && use_query_aware cfg).
  - intros H. apply bind_Ok in H. destruct H as [q [Eq H]]. injection H as <-.
    apply normalize_range in Eq. apply unit_interval_nonneg in Eq.
    repeat apply vadd_nonneg; apply vscale_nonneg; assumption.
  - intros H. apply bind_Ok in H. destruct H as [wa [Ea H]].
    apply bind_Ok in H. destruct H as [ws [Es H]]. injection H as <-.
    unfold py_div in Ea, Es.
    destruct (Qeq_bool (attention_weight cfg + semantic_weight cfg) 0) eqn:E;
      [discriminate Ea |].
    injection Ea as <-. injection Es as <-.
    assert (Hpos : 0 < attention_weight cfg + semantic_weight cfg).
    { assert (Hne : ~ attention_weight cfg + semantic_weight cfg == 0).
      { intros Heq. apply Qeq_bool_iff in Heq. congruence. }
      assert (0 <= attention_weight cfg + semantic_weight cfg) by lra.
      apply Qle_lteq in H. destruct H as [H | H]; [exact H |].
      exfalso. apply Hne. symmetry. exact H. }
    apply vadd_nonneg; apply vscale_nonneg; try assumption;
      apply Qle_shift_div_l; try exact Hpos; lra.
Qed.

Lemma _apply_position_bias_nonneg (cfg : CompressorConfig) (scores : list Q) :
  nonnegative_weights cfg ->
  Forall (fun v => 0 <= v) scores ->
  Forall (fun v => 0 <= v) (_apply_position_bias cfg scores).
Proof.
  intros [_ [_ [_ [Hbs Hbe]]]] Hs. unfold _apply_position_bias.
  destruct (_ <? 10)%nat; [exact Hs |].
  apply vmul_nonneg; [exact Hs |].
  apply slice_fill_Forall; [exact Hbe |].
  apply slice_fill_Forall; [exact Hbs |].
  apply Forall_forall. intros v Hv. apply repeat_spec in Hv. subst v. lra.
Qed.

(** The steps of [score_tokens], for a call that succeeded: the penalized
    array [p] that the last [normalize] maps to the scores. *)
Lemma score_tokens_penalized
    (rt : Runtime) (cfg : CompressorConfig) (text : string)
    (query : option string) (scores : list Q) (tokens : list string)
    (token_ids : list Z) :
  score_tokens rt cfg text query = Ok (scores, tokens, token_ids) ->
  exists b p,
    List.length b = List.length tokens
    /\ (nonnegative_weights cfg -> Forall (fun v => 0 <= v) b)
    /\ penalize (all_special_ids rt (encoder_model cfg)) 0
                (combine tokens token_ids) b = Ok p
    /\ normalize p = Ok scores.
Proof.
  intros H. pose proof H as H0.
  destruct (score_tokens_Ok_inv _ _ _ _ _ _ _ H0) as [Htok [Hids _]].
  unfold score_tokens in H. fold (encoded_of rt cfg text) in H.
  rewrite <- Htok, <- Hids in H.
  apply bind_Ok in H. destruct H as [a [Ea H]].
  apply bind_Ok in H. destruct H as [s [Es H]].
  apply bind_Ok in H. destruct H as [f [Ef H]].
  apply bind_Ok in H. destruct H as [p [Ep H]].
  apply bind_Ok in H. destruct H as [n [En H]].
  injection H as <-.
  exists (if use_position_bias cfg then _apply_position_bias cfg f else f), p.
  pose proof (normalize_range _ _ Ea) as Ra.
  pose proof (normalize_range _ _ Es) as Rs.
  apply normalize_length in Ea. destruct Ea as [La _].
  apply normalize_length in Es. destruct Es as [Ls _].
  rewrite length_map in La, Ls.
  assert (Lf : List.length f = List.length tokens).
  { eapply fuse_length; [| | exact Ef]; rewrite Htok, length_map; assumption. }
  split.
  { destruct (use_position_bias cfg);
      [rewrite _apply_position_bias_length |]; exact Lf. }
  split; [| split; assumption].
  intros Hw.
  assert (Hf : Forall (fun v => 0 <= v) f).
  { eapply fuse_nonneg; [exact Hw | | | exact Ef]; apply unit_interval_nonneg; assumption. }
  destruct (use_position_bias cfg);
    [apply _apply_position_bias_nonneg |]; assumption.
Qed.

Lemma normalize_cases (x y : list Q) :
  normalize x = Ok y ->
  exists mn mx,
    Forall (fun v => mn <= v) x /\ In mn x
    /\ Forall (fun v => v <= mx) x /\ In mx x
    /\ ((mx == mn /\ y = map (fun _ => 1) x)
        \/ (~ mx == mn
            /\ y = map (fun v => (v - mn) / (mx - mn + (1 # 100000000))) x)).
Proof.
  unfold normalize. intros H.
  apply bind_Ok in H. destruct H as [mx [Emx H]].
  apply bind_Ok in H. destruct H as [mn [Emn H]].
  destruct (amax_spec _ _ Emx) as [Hmx Imx].
  destruct (amin_spec _ _ Emn) as [Hmn Imn].
  exists mn, mx. repeat (split; [assumption |]).
  destruct (Qeq_bool mx mn) eqn:E; injection H as <-.
  - left. split; [apply Qeq_bool_iff; exact E | reflexivity].
  - right. split; [| reflexivity].
    intros Heq. apply Qeq_bool_iff in Heq. congruence.
Qed.

(** A smallest value is normalized to 0, unless the array is constant. *)
Lemma normalize_min_zero (x y : list Q) (i : nat) (a a' : Q) :
  normalize x = Ok y ->
  nth_error x i = Some a -> Forall (fun v => a <= v) x ->
  nth_error y i = Some a' ->
  a' == 0 \/ Forall (fun v => v = 1) y.
Proof.
  intros H Ha Hmin Hi.
  destruct (normalize_cases _ _ H) as [mn [mx [Hmn [Imn [_ [_ Hy]]]]]].
  destruct Hy as [[_ ->] | [_ ->]].
  - right. apply Forall_map. apply Forall_forall. reflexivity.
  - left. rewrite nth_error_map, Ha in Hi. injection Hi as <-.
    assert (E : a == mn).
    { apply Qle_antisym.
      - rewrite Forall_forall in Hmin. apply Hmin. exact Imn.
      - rewrite Forall_forall in Hmn. apply Hmn. eapply nth_error_In. exact Ha. }
    assert (E0 : a - mn == 0) by lra.
    rewrite E0. unfold Qdiv. apply Qmult_0_l.
Qed.

(** The loop over the sentences writes sentence scores into the positions
    it passes, and nothing else. *)
Lemma assign_sentence_scores_inv
    (sents : list (string * Q)) (token_texts : list string)
    (scores : list Q) (token_idx : nat) (scores' : list Q) (idx' : nat) :
  assign_sentence_scores sents token_texts scores token_idx = (scores', idx') ->
  (token_idx <= List.length scores)%nat ->
  (token_idx <= idx' <= List.length scores)%nat
  /\ (forall j, (j < token_idx \/ idx' <= j)%nat ->
                nth_error scores' j = nth_error scores j)
  /\ (forall j, (token_idx <= j < idx')%nat ->
                exists v, In v (map snd sents) /\ nth_error scores' j = Some v)
  /\ (sents <> [] -> (token_idx < List.length scores)%nat ->
      (token_idx < idx')%nat
      /\ nth_error scores' token_idx = option_map snd (hd_error sents)).
Proof.
  revert scores token_idx.
  induction sents as [| [sent sc] rest IH]; intros scores idx H Hle.
  - simpl in H. injection H as <- <-.
    split; [lia |]. split; [reflexivity |]. split; [intros j Hj; lia |].
    intros Hne. congruence.
  - simpl in H.
    set (t := tokens_of_sentence (skipn idx token_texts) "" 0
                (List.length (split (lower sent)))) in H.
    set (e := Nat.min (idx + Nat.max t 1) (List.length scores)) in H.
    assert (He : (idx <= e <= List.length scores)%nat) by (subst e; lia).
    assert (He' : (idx < List.length scores -> idx < e)%nat) by (subst e; lia).
    assert (Hfill : forall j,
              nth_error (slice_fill scores idx e sc) j
              = if (idx <=? j)%nat && (j <? e)%nat
                then (if (j <? List.length scores)%nat then Some sc else None)
                else nth_error scores j).
    { intros j. rewrite nth_error_slice_fill.
      destruct (nth_error scores j) as [x |] eqn:Ex.
      - assert ((j <? List.length scores)%nat = true) as ->.
        { apply Nat.ltb_lt. apply nth_error_Some. congruence. }
        destruct ((idx <=? j)%nat && (j <? e)%nat); reflexivity.
      - apply nth_error_None in Ex.
        assert ((j <? List.length scores)%nat = false) as ->
          by (apply Nat.ltb_ge; exact Ex).
        destruct ((idx <=? j)%nat && (j <? e)%nat); reflexivity. }
    assert (Hin : forall j, (idx <= j < e)%nat ->
                            nth_error (slice_fill scores idx e sc) j = Some sc).
    { intros j Hj. rewrite Hfill.
      assert ((idx <=? j)%nat = true) as -> by (apply Nat.leb_le; lia).
      assert ((j <? e)%nat = true) as -> by (apply Nat.ltb_lt; lia).
      assert ((j <? List.length scores)%nat = true) as -> by (apply Nat.ltb_lt; lia).
      reflexivity. }
    assert (Hout : forall j, (j < idx \/ e <= j)%nat ->
                             nth_error (slice_fill scores idx e sc) j = nth_error scores j).
    { intros j Hj. rewrite Hfill.
      destruct (idx <=? j)%nat eqn:E1; [| reflexivity].
      destruct (j <? e)%nat eqn:E2; [| reflexivity].
      apply Nat.leb_le in E1. apply Nat.ltb_lt in E2. lia. }
    destruct (List.length (slice_fill scores idx e sc) <=? e)%nat eqn:Ec.
    + injection H as <- <-.
      split; [lia |]. split; [exact Hout |]. split.
      * intros j Hj. exists sc. split; [left; reflexivity | apply Hin; exact Hj].
      * intros _ Hlt. split; [apply He'; exact Hlt |].
        simpl. apply Hin. split; [lia | apply He'; exact Hlt].
    + rewrite length_slice_fill in Ec. apply Nat.leb_gt in Ec.
      destruct (IH _ _ H) as [Hi [Ho [Hn Hf]]];
        [rewrite length_slice_fill; lia |].
      rewrite length_slice_fill in Hi, Hf.
      split; [lia |]. split; [| split].
      * intros j Hj. rewrite Ho by lia. apply Hout. lia.
      * intros j Hj.
        destruct (Nat.lt_ge_cases j e) as [Hlt | Hge].
        -- exists sc. split; [left; reflexivity |].
           rewrite Ho by lia. apply Hin. lia.
        -- destruct (Hn j) as [v [Hv Hjv]]; [lia |].
           exists v. split; [right; exact Hv | exact Hjv].
      * intros _ Hlt. split; [specialize (He' Hlt); lia |].
        simpl. rewrite Ho by (specialize (He' Hlt); lia).
        apply Hin. split; [lia | apply He'; exact Hlt].
Qed.

End ScoringMoreFacts.

Module ScoringMoreProperties.
Import Py Re Scratch Stub Spec SpecMore PyFacts ScorerFacts ScoreTokensFacts SelectFacts.
Import ScoringMoreFacts.



(** X8.  Under weights and boosts that are not negative, a structural token
    of the encoder gets the score 0, unless all scores are 1; so [compress]
    keeps a structural token only when it keeps every token. *)
Theorem structural_tokens_score_lowest
    (rt : Runtime) (cfg : CompressorConfig) (text : string)
    (query : option string) (scores : list Q) (tokens : list string)
    (token_ids : list Z) :
  nonnegative_weights cfg ->
  score_tokens rt cfg text query = Ok (scores, tokens, token_ids) ->
  forall (i : nat) (t_id : Z),
    nth_error token_ids i = Some t_id ->
    is_special (all_special_ids rt (encoder_model cfg)) t_id = true ->
    (exists s, nth_error scores i = Some s
               /\ (s == 0 \/ Forall (fun v => v = 1) scores))
    /\ forall target_ratio r,
         compress rt cfg text query target_ratio = Ok r ->
         In i (kept_indices r) ->
         kept_indices r = seq 0 (List.length tokens).
Proof.
  intros Hw Hs i t_id Hi Hsp.
  destruct (score_tokens_Ok_inv _ _ _ _ _ _ _ Hs)
    as [_ [_ [Lscores [Lids [_ Hrange]]]]].
  destruct (score_tokens_penalized _ _ _ _ _ _ _ Hs) as [b [p [Lb [Hb [Ep En]]]]].
  specialize (Hb Hw).
  assert (Hit : (i < List.length tokens)%nat).
  { rewrite <- Lids. apply nth_error_Some. congruence. }
  destruct (nth_error tokens i) as [t |] eqn:Et; [| apply nth_error_None in Et; lia].
  assert (Hitem : nth_error (combine tokens token_ids) i = Some (t, t_id)).
  { clear - Et Hi. revert token_ids i Et Hi.
    induction tokens as [| x tokens IH]; intros ids i Et Hi; [destruct i; discriminate Et |].
    destruct ids as [| y ids]; [destruct i; discriminate Hi |].
    destruct i as [| i]; simpl in *; [congruence | apply IH; assumption]. }
  assert (Hpn : forall j,
            nth_error p j
            = match nth_error (combine tokens token_ids) j with
              | Some (t', id') =>
                  option_map (penalty (all_special_ids rt (encoder_model cfg)) t' id')
                             (nth_error b j)
              | None => nth_error b j
              end).
  { intros j.
    rewrite (penalize_nth _ _ 0 b p) by
      (try exact Ep; rewrite length_combine, Lb, Lids; simpl; lia).
    simpl. rewrite Nat.sub_0_r. reflexivity. }
  assert (Lp : List.length p = List.length tokens).
  { destruct (penalize_Ok (all_special_ids rt (encoder_model cfg))
                (combine tokens token_ids) 0 b) as [p' [Ep' Lp']].
    - rewrite length_combine, Lb, Lids. simpl. lia.
    - rewrite Ep' in Ep. injection Ep as <-. rewrite Lp'. exact Lb. }
  assert (Hp0 : Forall (fun v => 0 <= v) p).
  { apply Forall_nth_error. intros j v Hj. rewrite Hpn in Hj.
    destruct (nth_error (combine tokens token_ids) j) as [[t' id'] |].
    - destruct (nth_error b j) as [u |] eqn:Eu; [| discriminate Hj].
      injection Hj as <-. apply penalty_nonneg.
      eapply Forall_nth_error_inv; [exact Hb | exact Eu].
    - eapply Forall_nth_error_inv; [exact Hb | exact Hj]. }
  assert (Hpi : nth_error p i = Some 0).
  { rewrite Hpn, Hitem.
    destruct (nth_error b i) as [u |] eqn:Eu;
      [| apply nth_error_None in Eu; lia].
    simpl. unfold penalty. rewrite Hsp. reflexivity. }
  assert (Hscore : exists s, nth_error scores i = Some s
                             /\ (s == 0 \/ Forall (fun v => v = 1) scores)).
  { destruct (nth_error scores i) as [s |] eqn:Es;
      [| apply nth_error_None in Es; lia].
    exists s. split; [reflexivity |].
    exact (normalize_min_zero p scores i 0 s En Hpi Hp0 Es). }
  split; [exact Hscore |].
  intros target_ratio r Hr Hin.
  destruct (compress_Ok_inv _ _ _ _ _ _ Hr)
    as [scores' [tokens' [ids' [thr [kt [Hs' [_ [_ ->]]]]]]]].
  rewrite Hs in Hs'. injection Hs' as <- <- <-. simpl in *.
  apply select_In in Hin. destruct Hin as [s' [Hs' Hthr]].
  destruct Hscore as [s [Hsi Hcase]]. rewrite Hsi in Hs'. injection Hs' as <-.
  unfold select. rewrite <- Lscores. apply select_from_all.
  destruct Hcase as [H0 | H1].
  - eapply Forall_impl; [| exact Hrange]. intros v [Hv _]. lra.
  - rewrite Forall_forall in *. intros v Hv.
    rewrite (H1 v Hv). rewrite <- (H1 s); [exact Hthr |].
    eapply nth_error_In. exact Hsi.
Qed.

(** [[CLS]] on "ab cd ef" has the score 0. *)
Lemma structural_tokens_score_lowest_witness :
  exists scores tokens token_ids,
    score_tokens stub default_config "ab cd ef" None = Ok (scores, tokens, token_ids)
    /\ nonnegative_weights default_config
    /\ nth_error token_ids 0 = Some 101%Z
    /\ exists s, nth_error scores 0 = Some s
                 /\ (s == 0 \/ Forall (fun v => v = 1) scores).
Proof.
  match eval vm_compute in (score_tokens stub default_config "ab cd ef" None) with
  | Ok (?s, ?t, ?i) =>
      exists s, t, i;
      assert (H : score_tokens stub default_config "ab cd ef" None = Ok (s, t, i))
        by (vm_compute; reflexivity);
      assert (Hw : nonnegative_weights default_config)
        by (repeat split; vm_compute; discriminate);
      split; [exact H |]; split; [exact Hw |]; split; [reflexivity |];
      exact (proj1 (structural_tokens_score_lowest stub default_config "ab cd ef" None
                      s t i Hw H 0%nat 101%Z eq_refl eq_refl))
  end.
Defined.

(** X9.  With [use_query_aware] off the query is not used at all: the
    results are those of the call without a query. *)
Theorem query_ignored_when_not_aware
    (rt : Runtime) (cfg : CompressorConfig) (text : string)
    (query : option string) (target_ratio : option Q) :
  use_query_aware cfg = false ->
  score_tokens rt cfg text query = score_tokens rt cfg text None
  /\ compress rt cfg text query target_ratio = compress rt cfg text None target_ratio
  /\ compress_chunks rt cfg text query target_ratio
     = compress_chunks rt cfg text None target_ratio.
Proof.
  intros Hq.
  assert (Hf : forall t tokens a s,
            fuse rt cfg t query tokens a s = fuse rt cfg t None tokens a s).
  { intros t tokens a s. unfold fuse. rewrite Hq, andb_false_r. reflexivity. }
  assert (Hs : forall t, score_tokens rt cfg t query = score_tokens rt cfg t None).
  { intros t. unfold score_tokens.
    destruct (normalize (map attn_raw _)) as [a |]; [| reflexivity]. simpl.
    destruct (normalize (map sem_raw _)) as [s |]; [| reflexivity]. simpl.
    rewrite Hf. reflexivity. }
  assert (Hc : forall t, compress rt cfg t query target_ratio
                         = compress rt cfg t None target_ratio).
  { intros t. unfold compress. rewrite Hs. reflexivity. }
  split; [apply Hs |]. split; [apply Hc |].
  unfold compress_chunks. generalize (make_chunks cfg text).
  intros chunks.
  assert (He : forall acc o c,
            compress_each rt cfg query target_ratio chunks acc o c
            = compress_each rt cfg None target_ratio chunks acc o c).
  { induction chunks as [| ch rest IH]; intros acc o c; simpl; [reflexivity |].
    rewrite Hc. destruct (compress rt cfg ch None target_ratio); simpl;
      [apply IH | reflexivity]. }
  rewrite He. reflexivity.
Qed.

(** A query on "ab cd ef" with query awareness switched off. *)
Lemma query_ignored_when_not_aware_witness :
  use_query_aware (with_query_aware default_config false) = false
  /\ score_tokens stub (with_query_aware default_config false) "ab cd ef" (Some "cd")
     = score_tokens stub (with_query_aware default_config false) "ab cd ef" None.
Proof.
  split; [reflexivity |].
  exact (proj1 (query_ignored_when_not_aware stub (with_query_aware default_config false)
                  "ab cd ef" (Some "cd") None eq_refl)).
Defined.

(** X10.  With query awareness on, the query score of every token is the
    similarity of one of the sentences of the text to the query, or the mean
    of these similarities; the first token has the similarity of the first
    sentence.  The array has one score per token. *)
Theorem query_scores_are_sentence_scores
    (rt : Runtime) (cfg : CompressorConfig) (text query : string)
    (token_texts : list string) :
  use_query_aware cfg = true ->
  let sent_scores := map (sentence_similarity rt query) (split_sentences text) in
  let query_scores := _get_query_scores rt cfg text query token_texts in
  List.length query_scores = List.length token_texts
  /\ Forall (fun s => In s (np_mean sent_scores :: sent_scores)) query_scores
  /\ (token_texts <> [] ->
      exists s0, hd_error sent_scores = Some s0 /\ nth_error query_scores 0 = Some s0).
Proof.
  intros Hq sent_scores query_scores.
  split; [apply _get_query_scores_length |].
  subst query_scores sent_scores. unfold _get_query_scores. rewrite Hq. simpl negb. cbv iota.
  destruct (split_sentences text) as [| s0 ss] eqn:E.
  { exfalso. unfold split_sentences in E.
    exact (ChunkFacts.split_sentences_from_nonempty text _ _ _ E). }
  set (sentences := s0 :: ss).
  set (sent_scores := map (sentence_similarity rt query) sentences).
  destruct (assign_sentence_scores (combine sentences sent_scores) token_texts
              (repeat 0 (List.length token_texts)) 0) as [scores idx] eqn:Ea.
  assert (Hsnd : map snd (combine sentences sent_scores) = sent_scores).
  { subst sent_scores. clear. induction sentences as [| x l IH]; simpl; [reflexivity |].
    rewrite IH. reflexivity. }
  destruct (assign_sentence_scores_inv _ _ _ _ _ _ Ea) as [Hidx [Hout [Hin Hfirst]]];
    [lia |].
  rewrite Hsnd in Hin. rewrite repeat_length in Hidx, Hfirst.
  assert (Lscores : List.length scores = List.length token_texts).
  { pose proof (assign_sentence_scores_length (combine sentences sent_scores) token_texts
                  (repeat 0 (List.length token_texts)) 0) as HL.
    rewrite Ea in HL. simpl in HL. rewrite HL. apply repeat_length. }
  split.
  - apply Forall_nth_error. intros j v Hj.
    destruct (idx <? List.length scores)%nat eqn:Elt.
    + rewrite nth_error_slice_fill in Hj.
      destruct (nth_error scores j) as [x |] eqn:Ex; [| discriminate Hj].
      injection Hj as <-.
      destruct (idx <=? j)%nat eqn:E1; simpl.
      * assert (E2 : (j <? List.length scores)%nat = true).
        { apply Nat.ltb_lt. apply nth_error_Some. congruence. }
        rewrite E2. left. reflexivity.
      * apply Nat.leb_gt in E1.
        destruct (Hin j) as [v [Hv Hjv]]; [lia |].
        rewrite Ex in Hjv. injection Hjv as ->. right. exact Hv.
    + apply Nat.ltb_ge in Elt.
      assert (Hjl : (j < List.length scores)%nat) by (apply nth_error_Some; congruence).
      destruct (Hin j) as [v' [Hv Hjv]]; [lia |].
      rewrite Hj in Hjv. injection Hjv as ->. right. exact Hv.
  - intros Hne. exists (sentence_similarity rt query s0).
    split; [reflexivity |].
    assert (Hpos : (0 < List.length token_texts)%nat).
    { destruct token_texts; [congruence | simpl; lia]. }
    destruct Hfirst as [Hlt H0]; [discriminate | lia |].
    change (option_map snd (hd_error (combine sentences sent_scores)))
      with (Some (sentence_similarity rt query s0)) in H0.
    destruct (idx <? List.length scores)%nat.
    + rewrite nth_error_slice_fill, H0.
      assert (E1 : (idx <=? 0)%nat = false) by (apply Nat.leb_gt; lia).
      rewrite E1. reflexivity.
    + exact H0.
Qed.

(** Two sentences and a query. *)
Lemma query_scores_are_sentence_scores_witness :
  use_query_aware default_config = true
  /\ List.length (_get_query_scores stub default_config "ab cd. ef gh." "cd"
                    ["[CLS]"; "ab"; "cd"; "."; "ef"; "gh"; "."; "[SEP]"]) = 8%nat.
Proof.
  split; [reflexivity |].
  exact (proj1 (query_scores_are_sentence_scores stub default_config "ab cd. ef gh." "cd"
                  ["[CLS]"; "ab"; "cd"; "."; "ef"; "gh"; "."; "[SEP]"] eq_refl)).
Defined.

End ScoringMoreProperties.

(* ===================================================================== *)
(** * The convenience functions and the reduction                         *)
(* ===================================================================== *)

Module ApiFacts.
Import Py Re Scratch Stub Spec SpecMore PyFacts ScorerFacts ScoreTokensFacts SelectFacts.

(** Nothing but the target reads [target_ratio] of the configuration. *)
Lemma score_tokens_with_target_ratio
    (rt : Runtime) (cfg : CompressorConfig) (ratio : Q) (text : string)
    (query : option string) :
  score_tokens rt (with_target_ratio cfg ratio) text query = score_tokens rt cfg text query.
Proof. reflexivity. Qed.

Lemma compress_with_target_ratio
    (rt : Runtime) (cfg : CompressorConfig) (ratio t : Q) (text : string)
    (query : option string) :
  Qeq_bool t 0 = false ->
  Scratch.compress rt (with_target_ratio cfg ratio) text query (Some t)
  = Scratch.compress rt cfg text query (Some t).
Proof.
  intros Ht. unfold Scratch.compress. rewrite score_tokens_with_target_ratio.
  unfold effective_target. rewrite Ht. reflexivity.
Qed.

Lemma pack_sentences_with_target_ratio
    (cfg : CompressorConfig) (ratio : Q) (sentences : list string) :
  forall chunks current_chunk current_len,
    pack_sentences (with_target_ratio cfg ratio) sentences chunks current_chunk current_len
    = pack_sentences cfg sentences chunks current_chunk current_len.
Proof.
  induction sentences as [| sent rest IH]; intros chunks cur len; simpl; [reflexivity |].
  rewrite !IH. reflexivity.
Qed.

Lemma make_chunks_with_target_ratio
    (cfg : CompressorConfig) (ratio : Q) (text : string) :
  make_chunks (with_target_ratio cfg ratio) text = make_chunks cfg text.
Proof. unfold make_chunks. rewrite pack_sentences_with_target_ratio. reflexivity. Qed.

Lemma compress_chunks_with_target_ratio
    (rt : Runtime) (cfg : CompressorConfig) (ratio t : Q) (text : string)
    (query : option string) :
  Qeq_bool t 0 = false ->
  Scratch.compress_chunks rt (with_target_ratio cfg ratio) text query (Some t)
  = Scratch.compress_chunks rt cfg text query (Some t).
Proof.
  intros Ht. unfold Scratch.compress_chunks.
  rewrite make_chunks_with_target_ratio.
  rewrite !ChunkFacts.compress_each_mapM.
  replace (mapM (fun chunk => Scratch.compress rt (with_target_ratio cfg ratio) chunk query (Some t))
                (make_chunks cfg text))
    with (mapM (fun chunk => Scratch.compress rt cfg chunk query (Some t))
               (make_chunks cfg text)); [reflexivity |].
  induction (make_chunks cfg text) as [| c cs IH]; simpl; [reflexivity |].
  rewrite IH, (compress_with_target_ratio rt cfg ratio t c query Ht). reflexivity.
Qed.

(** The ratio of a result of [compress] or [compress_chunks] is that of
    its two token counts. *)
Lemma compress_ratio_of_counts
    (rt : Runtime) (cfg : CompressorConfig) (text : string)
    (query : option string) (target_ratio : option Q) (r : CompressionResult) :
  Scratch.compress rt cfg text query target_ratio = Ok r ->
  ratio_of (compressed_tokens r) (original_tokens r) = Ok (compression_ratio r).
Proof.
  intros H.
  destruct (compress_Ok_inv _ _ _ _ _ _ H) as [s [t [i [thr [kt [_ [_ [_ ->]]]]]]]].
  simpl. apply ratio_of_Ok.
Qed.

Lemma compress_chunks_ratio_of_counts
    (rt : Runtime) (cfg : CompressorConfig) (text : string)
    (query : option string) (target_ratio : option Q) (r : CompressionResult) :
  Scratch.compress_chunks rt cfg text query target_ratio = Ok r ->
  ratio_of (compressed_tokens r) (original_tokens r) = Ok (compression_ratio r).
Proof.
  unfold Scratch.compress_chunks. intros H.
  destruct (compress_each rt cfg query target_ratio (make_chunks cfg text) [] 0 0)
    as [[[cs o] c] | e]; simpl in H; [| discriminate H].
  rewrite ratio_of_Ok in *. simpl in H. injection H as <-. reflexivity.
Qed.

Lemma Qofnat_nonneg (n : nat) : 0 <= Qofnat n.
Proof. unfold Qofnat, Qle. simpl. lia. Qed.

Lemma Qofnat_pos (n : nat) : (0 < n)%nat -> 0 < Qofnat n.
Proof. intros H. unfold Qofnat, Qlt. simpl. lia. Qed.

Lemma Qofnat_le (a b : nat) : Qofnat a <= Qofnat b <-> (a <= b)%nat.
Proof. unfold Qofnat, Qle. simpl. lia. Qed.

End ApiFacts.

Module ApiProperties.
Import Py Re Scratch Stub Spec SpecMore PyFacts ScorerFacts ScoreTokensFacts SelectFacts.
Import ApiFacts.

(** X11.  The module-level [compress] and [compress_with_metrics] always
    pass their own [target_ratio] on, so with a ratio that is not zero the
    [target_ratio] of the installed compressor's configuration has no
    effect on the result; with the ratio 0 the configured one is used. *)
Theorem api_ratio_overrides_config
    (rt : Runtime) (cfg : CompressorConfig) (ratio : Q) (text : string)
    (query : option string) (target_ratio : Q) :
  (Qeq_bool target_ratio 0 = false ->
     snd (ScratchApi.compress_with_metrics rt (Some (with_target_ratio cfg ratio))
            text query target_ratio)
     = snd (ScratchApi.compress_with_metrics rt (Some cfg) text query target_ratio)
     /\ snd (ScratchApi.compress rt (Some (with_target_ratio cfg ratio))
               text query target_ratio)
        = snd (ScratchApi.compress rt (Some cfg) text query target_ratio))
  /\ (Qeq_bool target_ratio 0 = true ->
        snd (ScratchApi.compress_with_metrics rt (Some cfg) text query target_ratio)
        = if (400 <? List.length (split text))%nat
          then Scratch.compress_chunks rt cfg text query None
          else Scratch.compress rt cfg text query None)
  /\ ScratchApi.compress rt (Some cfg) text query target_ratio
     = (fst (ScratchApi.compress_with_metrics rt (Some cfg) text query target_ratio),
        r <- snd (ScratchApi.compress_with_metrics rt (Some cfg) text query target_ratio) ;;
        Ok (compressed_text r)).
Proof.
  split; [| split].
  - intros Ht. unfold ScratchApi.compress_with_metrics, ScratchApi.compress. simpl.
    rewrite (compress_with_target_ratio rt cfg ratio target_ratio text query Ht).
    rewrite (compress_chunks_with_target_ratio rt cfg ratio target_ratio text query Ht).
    split; destruct (400 <? List.length (split text))%nat; reflexivity.
  - intros Ht. unfold ScratchApi.compress_with_metrics. simpl.
    assert (He : effective_target cfg (Some target_ratio) = effective_target cfg None).
    { simpl. rewrite Ht. reflexivity. }
    rewrite (EdgeProperties.compress_target_ext rt cfg text query _ _ He).
    rewrite (EdgeProperties.compress_chunks_target_ext rt cfg text query _ _ He).
    destruct (400 <? List.length (split text))%nat; reflexivity.
  - unfold ScratchApi.compress_with_metrics, ScratchApi.compress. simpl.
    destruct (400 <? List.length (split text))%nat; reflexivity.
Qed.

(** The default ratio 0.34 of the functions against a compressor
    configured for 0.9: the result is that of the default configuration. *)
Lemma api_ratio_overrides_config_witness :
  Qeq_bool ScratchApi.default_target_ratio 0 = false
  /\ snd (ScratchApi.compress_with_metrics stub
            (Some (with_target_ratio default_config (9 # 10)))
            "ab cd ef" None ScratchApi.default_target_ratio)
     = snd (ScratchApi.compress_with_metrics stub (Some default_config)
              "ab cd ef" None ScratchApi.default_target_ratio).
Proof.
  split; [reflexivity |].
  exact (proj1 (proj1 (api_ratio_overrides_config stub default_config (9 # 10)
                         "ab cd ef" None ScratchApi.default_target_ratio) eq_refl)).
Defined.

(** X12.  After any sequence of [get_compressor] calls the shared
    compressor is the one of the last call that gave a configuration; when
    no call gave one it is the compressor that was there before, or, when
    there was none, a compressor with the default configuration created by
    the first call. *)
Theorem get_compressor_keeps_last_config
    (_default_compressor : option CompressorConfig)
    (configs : list (option CompressorConfig)) :
  ScratchApi.get_compressor_calls _default_compressor configs
  = match last_given configs, _default_compressor, configs with
    | Some c, _, _ => Some c
    | None, Some c, _ => Some c
    | None, None, [] => None
    | None, None, _ :: _ => Some default_config
    end.
Proof.
  revert _default_compressor.
  induction configs as [| config rest IH]; intros g; simpl.
  - destruct g; reflexivity.
  - rewrite IH. destruct (last_given rest) as [c |]; [reflexivity |].
    destruct g as [c0 |], config as [c1 |]; simpl; destruct rest; reflexivity.
Qed.

(** X13.  The reduction of a result of [compress] or [compress_chunks] is
    at most 100; it is 0 when the original has no tokens, and otherwise it
    is the share of the tokens saved, which is negative exactly when the
    compressed text has more tokens than the original. *)
Theorem reduction_pct_of_counts
    (rt : Runtime) (cfg : CompressorConfig) (text : string)
    (query : option string) (target_ratio : option Q) (r : CompressionResult) :
  Scratch.compress rt cfg text query target_ratio = Ok r
  \/ Scratch.compress_chunks rt cfg text query target_ratio = Ok r ->
  reduction_pct r <= 100
  /\ (original_tokens r = 0%nat -> reduction_pct r == 0)
  /\ ((0 < original_tokens r)%nat ->
      reduction_pct r
      == (Qofnat (original_tokens r) - Qofnat (compressed_tokens r))
         / Qofnat (original_tokens r) * 100
      /\ (reduction_pct r < 0 <-> (original_tokens r < compressed_tokens r)%nat)).
Proof.
  intros H.
  assert (Hr : ratio_of (compressed_tokens r) (original_tokens r)
               = Ok (compression_ratio r)).
  { destruct H as [H | H];
      [eapply compress_ratio_of_counts | eapply compress_chunks_ratio_of_counts];
      exact H. }
  rewrite ratio_of_Ok in Hr. injection Hr as Hr. unfold reduction_pct. rewrite <- Hr.
  clear Hr H.
  set (o := original_tokens r). set (c := compressed_tokens r).
  pose proof (Qofnat_nonneg c) as Hc.
  destruct (0 <? o)%nat eqn:Eo.
  - apply Nat.ltb_lt in Eo. pose proof (Qofnat_pos o Eo) as Ho.
    assert (Hq : 0 <= Qofnat c / Qofnat o).
    { unfold Qdiv. apply Qmult_le_0_compat; [exact Hc |].
      apply Qinv_le_0_compat. lra. }
    split; [lra |]. split; [lia |]. intros _. split.
    + field. lra.
    + assert (Hlt : 1 < Qofnat c / Qofnat o <-> (o < c)%nat).
      { split; intros Hx.
        - destruct (Nat.lt_ge_cases o c) as [Hoc | Hco]; [exact Hoc |].
          exfalso. apply Qofnat_le in Hco.
          assert (Qofnat c / Qofnat o <= 1).
          { apply Qle_shift_div_r; [exact Ho | lra]. }
          lra.
        - apply Qlt_shift_div_l; [exact Ho |].
          assert (~ Qofnat c <= Qofnat o) by (rewrite Qofnat_le; lia). lra. }
      rewrite <- Hlt. split; intros Hx; lra.
  - apply Nat.ltb_ge in Eo. split; [lra |]. split; [intros _; lra | lia].
Qed.

(** "ab cd ef" with the defaults. *)
Lemma reduction_pct_of_counts_witness :
  exists r,
    Scratch.compress stub default_config "ab cd ef" None None = Ok r
    /\ reduction_pct r <= 100.
Proof.
  match eval vm_compute in (Scratch.compress stub default_config "ab cd ef" None None) with
  | Ok ?r =>
      exists r;
      assert (H : Scratch.compress stub default_config "ab cd ef" None None = Ok r)
        by (vm_compute; reflexivity);
      split; [exact H |];
      exact (proj1 (reduction_pct_of_counts stub default_config "ab cd ef" None None r
                      (or_introl H)))
  end.
Defined.

End ApiProperties.

(* ===================================================================== *)
(** * More on [verify_answer]                                             *)
(* ===================================================================== *)

Module VerifyFacts.
Import Py Re Longbench.

Local Open Scope list_scope.

(** Group 1 of a match is the group before it or a character of the text
    that a capturing item of the pattern accepts. *)
Lemma match_here_cap (p : pattern) :
  forall prev cap s g,
    match_here p prev cap s = Some g ->
    g = cap
    \/ exists cls c, In (Cap cls) p /\ cls c = true /\ g = Some c
                     /\ In c (list_ascii_of_string s).
Proof.
  induction p as [| a p IH]; intros prev cap s g H.
  - simpl in H. injection H as <-. left. reflexivity.
  - assert (Lift : forall prev' s',
              (forall c, In c (list_ascii_of_string s') -> In c (list_ascii_of_string s)) ->
              match_here p prev' cap s' = Some g ->
              g = cap
              \/ exists cls c, In (Cap cls) (a :: p) /\ cls c = true /\ g = Some c
                               /\ In c (list_ascii_of_string s)).
    { intros prev' s' Hsub H'. destruct (IH _ _ _ _ H') as [-> | [cls [c [Hin [Hc [-> Hs]]]]]].
      - left. reflexivity.
      - right. exists cls, c. split; [right; exact Hin |].
        split; [exact Hc |]. split; [reflexivity | apply Hsub; exact Hs]. }
    destruct a as [c | cls | cls | c | |]; simpl in H.
    + destruct s as [| d s']; [discriminate H |].
      destruct (Ascii.eqb c d); [| discriminate H].
      apply (Lift (Some d) s'); [intros x Hx; right; exact Hx | exact H].
    + destruct s as [| d s']; [discriminate H |].
      destruct (cls d) eqn:Ed; [| discriminate H].
      destruct (IH _ _ _ _ H) as [-> | [cls' [c [Hin [Hc [-> Hs]]]]]].
      * right. exists cls, d. split; [left; reflexivity |].
        split; [exact Ed |]. split; [reflexivity | left; reflexivity].
      * right. exists cls', c. split; [right; exact Hin |].
        split; [exact Hc |]. split; [reflexivity | right; exact Hs].
    + assert (Star : forall s0 prev0,
                (forall c, In c (list_ascii_of_string s0) -> In c (list_ascii_of_string s)) ->
                (fix star (prev : option ascii) (s : string) {struct s} :=
                   match s with
                   | String d s' =>
                       if cls d then
                         match star (Some d) s' with
                         | Some g => Some g
                         | None => match_here p prev cap s
                         end
                       else match_here p prev cap s
                   | EmptyString => match_here p prev cap s
                   end) prev0 s0 = Some g ->
                g = cap
                \/ exists cls0 c, In (Cap cls0) (StarCls cls :: p) /\ cls0 c = true
                                  /\ g = Some c /\ In c (list_ascii_of_string s)).
      { induction s0 as [| d s0 IHs]; intros prev0 Hsub H0.
        - apply (Lift prev0 EmptyString); assumption.
        - destruct (cls d).
          + match type of H0 with
            | match ?t with _ => _ end = _ => destruct t as [g' |] eqn:Et
            end.
            * injection H0 as ->.
              apply (IHs (Some d)); [intros x Hx; apply Hsub; right; exact Hx | exact Et].
            * apply (Lift prev0 (String d s0)); assumption.
          + apply (Lift prev0 (String d s0)); assumption. }
      apply (Star s prev); [intros x Hx; exact Hx | exact H].
    + destruct s as [| d s'].
      * apply (Lift prev EmptyString); [intros x Hx; exact Hx | exact H].
      * destruct (Ascii.eqb c d).
        -- destruct (match_here p (Some d) cap s') as [g' |] eqn:Et.
           ++ injection H as ->.
              apply (Lift (Some d) s'); [intros x Hx; right; exact Hx | exact Et].
           ++ apply (Lift prev (String d s')); [intros x Hx; exact Hx | exact H].
        -- apply (Lift prev (String d s')); [intros x Hx; exact Hx | exact H].
    + destruct (xorb (word_before prev) (word_after s)); [| discriminate H].
      apply (Lift prev s); [intros x Hx; exact Hx | exact H].
    + destruct prev; [discriminate H |].
      apply (Lift None s); [intros x Hx; exact Hx | exact H].
Qed.

Lemma search_from_cap (p : pattern) (s : string) :
  forall prev g,
    search_from p prev s = Some g ->
    g = None
    \/ exists cls c, In (Cap cls) p /\ cls c = true /\ g = Some c
                     /\ In c (list_ascii_of_string s).
Proof.
  induction s as [| d s IH]; intros prev g H; simpl in H.
  - destruct (match_here p prev None EmptyString) as [g' |] eqn:E; [| discriminate H].
    injection H as ->. apply (match_here_cap _ _ _ _ _ E).
  - destruct (match_here p prev None (String d s)) as [g' |] eqn:E.
    + injection H as ->. apply (match_here_cap _ _ _ _ _ E).
    + destruct (IH _ _ H) as [-> | [cls [c [Hin [Hc [-> Hs]]]]]]; [left; reflexivity |].
      right. exists cls, c. split; [exact Hin |]. split; [exact Hc |].
      split; [reflexivity | right; exact Hs].
Qed.

(** Every capturing item of the seven patterns is [([A-D])]. *)
Lemma patterns_capture_AD :
  Forall (fun p => forall cls, In (Cap cls) p -> cls = is_AD) patterns.
Proof.
  unfold patterns.
  repeat constructor; intros cls H; simpl in H;
    repeat (destruct H as [H | H];
            [try discriminate H; injection H as <-; reflexivity |]);
    contradiction.
Qed.

Lemma group_is_letter (g : option ascii) (gold_upper : string) :
  group_is g gold_upper = true ->
  exists c, g = Some c /\ gold_upper = String c EmptyString.
Proof.
  destruct g as [c |]; [| discriminate].
  unfold group_is. intros H. apply String.eqb_eq in H. exists c. split; [reflexivity | symmetry; exact H].
Qed.

Lemma try_patterns_letter (pats : list pattern) (predicted_upper gold_upper : string) :
  Forall (fun p => forall cls, In (Cap cls) p -> cls = is_AD) pats ->
  try_patterns pats predicted_upper gold_upper = true ->
  exists c, is_AD c = true /\ gold_upper = String c EmptyString
            /\ In c (list_ascii_of_string predicted_upper).
Proof.
  induction 1 as [| p pats Hp _ IH]; simpl; [discriminate |].
  destruct (search p predicted_upper) as [g |] eqn:E; [| exact IH].
  intros Hg. destruct (group_is_letter _ _ Hg) as [c [-> ->]].
  destruct (search_from_cap _ _ _ _ E) as [Hn | [cls [c' [Hin [Hc [Hs Ho]]]]]];
    [discriminate Hn |].
  injection Hs as <-. exists c. rewrite (Hp cls Hin) in Hc.
  split; [exact Hc |]. split; [reflexivity | exact Ho].
Qed.

Lemma try_patterns_one_gold (pats : list pattern) (predicted_upper g1 g2 : string) :
  try_patterns pats predicted_upper g1 = true ->
  try_patterns pats predicted_upper g2 = true ->
  g1 = g2.
Proof.
  induction pats as [| p pats IH]; simpl; [discriminate |].
  destruct (search p predicted_upper) as [g |]; [| exact IH].
  intros H1 H2.
  destruct (group_is_letter _ _ H1) as [c [-> ->]].
  destruct (group_is_letter _ _ H2) as [c' [E ->]].
  injection E as <-. reflexivity.
Qed.

(** Characters of the cleaned response come from the response. *)
Lemma lstrip_chars (s : string) (c : ascii) :
  In c (list_ascii_of_string (lstrip s)) -> In c (list_ascii_of_string s).
Proof.
  induction s as [| d s IH]; simpl; [tauto |].
  destruct (is_space d); [intros H; right; apply IH; exact H | intros H; exact H].
Qed.

Lemma rstrip_chars (s : string) (c : ascii) :
  In c (list_ascii_of_string (rstrip s)) -> In c (list_ascii_of_string s).
Proof.
  induction s as [| d s IH]; [simpl; tauto |].
  rewrite CleanupFacts.rstrip_cons.
  destruct (rstrip s) as [| e y] eqn:E.
  - destruct (is_space d); simpl; [tauto |].
    intros [H | []]; left; exact H.
  - intros [H | H]; [left; exact H | right; apply IH; exact H].
Qed.

Lemma strip_chars (s : string) (c : ascii) :
  In c (list_ascii_of_string (strip s)) -> In c (list_ascii_of_string s).
Proof. intros H. apply lstrip_chars, rstrip_chars. exact H. Qed.

Lemma upper_chars (s : string) (c : ascii) :
  In c (list_ascii_of_string (upper s)) ->
  exists d, In d (list_ascii_of_string s) /\ upper_char d = c.
Proof.
  induction s as [| e s IH]; simpl; [tauto |].
  intros [H | H].
  - exists e. split; [left; reflexivity | exact H].
  - destruct (IH H) as [d [Hd E]]. exists d. split; [right; exact Hd | exact E].
Qed.

Lemma remove_stars_chars (s : string) (c : ascii) :
  In c (list_ascii_of_string (remove_stars s)) -> In c (list_ascii_of_string s).
Proof.
  induction s as [| e s IH]; simpl; [tauto |].
  destruct (code e =? 42)%nat; simpl.
  - intros H. right. apply IH. exact H.
  - intros [H | H]; [left; exact H | right; apply IH; exact H].
Qed.

(** Upper case, lower case and the asterisk, character by character. *)
Lemma upper_char_idem (c : ascii) : upper_char (upper_char c) = upper_char c.
Proof. destruct c as [[] [] [] [] [] [] [] []]; reflexivity. Qed.

Lemma upper_lower_char (c : ascii) : upper_char (lower_char c) = upper_char c.
Proof. destruct c as [[] [] [] [] [] [] [] []]; reflexivity. Qed.

Lemma upper_char_star (c : ascii) :
  (code (upper_char c) =? 42)%nat = (code c =? 42)%nat.
Proof. destruct c as [[] [] [] [] [] [] [] []]; reflexivity. Qed.

Lemma lower_char_star (c : ascii) :
  (code (lower_char c) =? 42)%nat = (code c =? 42)%nat.
Proof. destruct c as [[] [] [] [] [] [] [] []]; reflexivity. Qed.

Lemma upper_idem (s : string) : upper (upper s) = upper s.
Proof.
  unfold upper. induction s as [| c s IH]; simpl; [reflexivity |].
  rewrite upper_char_idem, IH. reflexivity.
Qed.

Lemma upper_lower (s : string) : upper (lower s) = upper s.
Proof.
  unfold upper, lower. induction s as [| c s IH]; simpl; [reflexivity |].
  rewrite upper_lower_char, IH. reflexivity.
Qed.

Lemma remove_stars_upper (s : string) : remove_stars (upper s) = upper (remove_stars s).
Proof.
  unfold upper. induction s as [| c s IH]; simpl; [reflexivity |].
  rewrite upper_char_star.
  destruct (code c =? 42)%nat; simpl; rewrite IH; reflexivity.
Qed.

Lemma remove_stars_lower (s : string) : remove_stars (lower s) = lower (remove_stars s).
Proof.
  unfold lower. induction s as [| c s IH]; simpl; [reflexivity |].
  rewrite lower_char_star.
  destruct (code c =? 42)%nat; simpl; rewrite IH; reflexivity.
Qed.

Lemma remove_stars_idem (s : string) : remove_stars (remove_stars s) = remove_stars s.
Proof.
  induction s as [| c s IH]; simpl; [reflexivity |].
  destruct (code c =? 42)%nat eqn:E; simpl; [exact IH |].
  rewrite E, IH. reflexivity.
Qed.

End VerifyFacts.

Module VerifyProperties.
Import Py Re Longbench VerifyFacts.

Local Open Scope list_scope.

(** X14.  [verify_answer] accepts only when the gold answer, upper-cased
    and trimmed, is one of the letters A to D, and that letter occurs in
    the response in upper or lower case.  A response is accepted for at most
    one gold answer. *)
Theorem verified_answer_is_a_letter (predicted gold : string) :
  verify_answer predicted gold = true ->
  (exists c d, is_AD c = true
               /\ strip (upper gold) = String c EmptyString
               /\ In d (list_ascii_of_string predicted)
               /\ upper_char d = c)
  /\ forall gold', verify_answer predicted gold' = true ->
                   strip (upper gold') = strip (upper gold).
Proof.
  unfold verify_answer.
  set (u := strip (upper (remove_stars predicted))).
  assert (Hchars : forall c, In c (list_ascii_of_string u) ->
                             exists d, In d (list_ascii_of_string predicted)
                                       /\ upper_char d = c).
  { intros c Hc. subst u. apply strip_chars, upper_chars in Hc.
    destruct Hc as [d [Hd E]]. exists d.
    split; [apply remove_stars_chars; exact Hd | exact E]. }
  destruct (existsb (String.eqb u) single_letters) eqn:Es.
  - intros H. apply String.eqb_eq in H.
    apply LongbenchProperties.single_letter_test in Es.
    split.
    + assert (Hu : exists c, is_AD c = true /\ u = String c EmptyString).
      { simpl in Es.
        destruct Es as [E | [E | [E | [E | []]]]]; rewrite <- E;
          eexists; (split; [| reflexivity]); reflexivity. }
      destruct Hu as [c [Hc Eu]].
      destruct (Hchars c) as [d [Hd E]]; [rewrite Eu; left; reflexivity |].
      exists c, d. split; [exact Hc |]. split; [rewrite <- H; exact Eu |].
      split; [exact Hd | exact E].
    + intros gold' H'. apply String.eqb_eq in H'. congruence.
  - intros H. split.
    + destruct (try_patterns_letter _ _ _ patterns_capture_AD H) as [c [Hc [Eg Ho]]].
      destruct (Hchars c Ho) as [d [Hd E]].
      exists c, d. split; [exact Hc |]. split; [exact Eg |].
      split; [exact Hd | exact E].
    + intros gold' H'. apply (try_patterns_one_gold _ _ _ _ H' H).
Qed.

(** A sentence that names the option in parentheses, in lower case. *)
Lemma verified_answer_is_a_letter_witness :
  verify_answer "the answer is (b)." " b" = true
  /\ exists c d, is_AD c = true
                 /\ strip (upper " b") = String c EmptyString
                 /\ In d (list_ascii_of_string "the answer is (b).")
                 /\ upper_char d = c.
Proof.
  split; [reflexivity |].
  exact (proj1 (verified_answer_is_a_letter "the answer is (b)." " b" eq_refl)).
Defined.

(** X15.  [verify_answer] does not depend on the letter case or the
    asterisks of the response, nor on the letter case of the gold answer. *)
Theorem verify_answer_ignores_case_and_stars (predicted gold : string) :
  verify_answer (upper predicted) gold = verify_answer predicted gold
  /\ verify_answer (lower predicted) gold = verify_answer predicted gold
  /\ verify_answer (remove_stars predicted) gold = verify_answer predicted gold
  /\ verify_answer predicted (upper gold) = verify_answer predicted gold
  /\ verify_answer predicted (lower gold) = verify_answer predicted gold.
Proof.
  unfold verify_answer.
  rewrite remove_stars_upper, upper_idem.
  rewrite remove_stars_lower, upper_lower.
  rewrite remove_stars_idem.
  rewrite upper_idem, upper_lower.
  repeat split; reflexivity.
Qed.

End VerifyProperties.

(* ===================================================================== *)
(** * The evaluation loop                                                 *)
(* ===================================================================== *)

Module EvalFacts.
Import Py Re Scratch Longbench LongbenchEval PyFacts ApiFacts.

Local Open Scope list_scope.

Lemma saved_pct_Ok (orig_len comp_len : nat) :
  saved_pct orig_len comp_len
  = Ok (if (0 <? orig_len)%nat then 1 - Qofnat comp_len / Qofnat orig_len else 0).
Proof.
  unfold saved_pct. destruct (0 <? orig_len)%nat eqn:E; [| reflexivity].
  apply Nat.ltb_lt in E. rewrite ScoreTokensFacts.py_div_Ok; [reflexivity |].
  pose proof (Qofnat_pos _ E). lra.
Qed.

Lemma saved_pct_le_1 (orig_len comp_len : nat) (s : Q) :
  saved_pct orig_len comp_len = Ok s -> s <= 1.
Proof.
  rewrite saved_pct_Ok. intros H. injection H as <-.
  destruct (0 <? orig_len)%nat eqn:E; [| lra].
  apply Nat.ltb_lt in E.
  assert (0 <= Qofnat comp_len / Qofnat orig_len).
  { unfold Qdiv. apply Qmult_le_0_compat; [apply Qofnat_nonneg |].
    apply Qinv_le_0_compat. apply Qofnat_nonneg. }
  lra.
Qed.

Lemma saved_pct_same (n : nat) (s : Q) : saved_pct n n = Ok s -> s == 0.
Proof.
  rewrite saved_pct_Ok. intros H. injection H as <-.
  destruct (0 <? n)%nat eqn:E; [| reflexivity].
  apply Nat.ltb_lt in E. pose proof (Qofnat_pos _ E). field. lra.
Qed.

Lemma Qsum_from_le (l : list Q) :
  forall a, Forall (fun v => v <= 1) l ->
            fold_left Qplus l a <= a + Qofnat (List.length l).
Proof.
  induction l as [| x l IH]; intros a H; simpl.
  - change (Qofnat 0) with 0. lra.
  - inversion H as [| ? ? Hx Hl]; subst.
    eapply Qle_trans; [apply IH; exact Hl |].
    assert (E : Qofnat (S (List.length l)) == Qofnat (List.length l) + 1).
    { unfold Qofnat. rewrite Nat2Z.inj_succ. unfold Z.succ.
      rewrite inject_Z_plus. reflexivity. }
    rewrite E. lra.
Qed.

Lemma Qsum_from_zero (l : list Q) :
  forall a, Forall (fun v => v == 0) l -> fold_left Qplus l a == a.
Proof.
  induction l as [| x l IH]; intros a H; simpl; [reflexivity |].
  inversion H as [| ? ? Hx Hl]; subst.
  rewrite (IH _ Hl). lra.
Qed.

Lemma np_mean_le_1 (l : list Q) : Forall (fun v => v <= 1) l -> np_mean l <= 1.
Proof.
  intros H. unfold np_mean, Qsum.
  pose proof (Qsum_from_le l 0 H) as Hs.
  destruct l as [| x l].
  - vm_compute. discriminate.
  - assert (Hp : 0 < Qofnat (List.length (x :: l))) by (apply Qofnat_pos; simpl; lia).
    apply Qle_shift_div_r; [exact Hp |]. lra.
Qed.

Lemma np_mean_zero (l : list Q) : Forall (fun v => v == 0) l -> np_mean l == 0.
Proof.
  intros H. unfold np_mean, Qsum. rewrite (Qsum_from_zero l 0 H).
  unfold Qdiv. apply Qmult_0_l.
Qed.

(** The loop fails only where the compression function fails; otherwise
    it adds one saved fraction per item and counts at most the items. *)
Lemma eval_items_Ok_inv
    (count_tokens : string -> nat) (func : string -> string -> result string)
    (call_openrouter : string -> option string) (items : list Item) :
  forall correct saved correct' saved',
    eval_items count_tokens func call_openrouter items correct saved
    = Ok (correct', saved') ->
    (correct <= correct' <= correct + List.length items)%nat
    /\ exists new,
         saved' = saved ++ new
         /\ List.length new = List.length items
         /\ Forall (fun v => v <= 1) new
         /\ mapM (fun item =>
                    c <- func (context item) (question item) ;;
                    saved_pct (count_tokens (context item)) (count_tokens c))
                 items = Ok new.
Proof.
  induction items as [| item rest IH]; intros correct saved correct' saved' H.
  - simpl in H. injection H as <- <-. split; [simpl; lia |].
    exists []. rewrite app_nil_r. repeat split. constructor.
  - simpl in H. simpl mapM.
    destruct (func (context item) (question item)) as [c | e]; simpl in H;
      [| discriminate H].
    destruct (saved_pct (count_tokens (context item)) (count_tokens c)) as [s |] eqn:Es;
      simpl in H; [| discriminate H].
    apply IH in H. destruct H as [Hc [new [-> [Hl [Hf Hm]]]]].
    split.
    + simpl. destruct (call_openrouter _) as [resp |];
        [destruct (verify_answer resp (answer item)) |]; lia.
    + exists (s :: new). rewrite <- app_assoc. simpl.
      split; [reflexivity |]. split; [rewrite Hl; reflexivity |].
      split; [constructor; [eapply saved_pct_le_1; exact Es | exact Hf] |].
      rewrite Hm, Es. reflexivity.
Qed.

Lemma eval_items_Raise
    (count_tokens : string -> nat) (func : string -> string -> result string)
    (call_openrouter : string -> option string) (items : list Item) :
  forall correct saved e,
    eval_items count_tokens func call_openrouter items correct saved = Raise e ->
    exists item, In item items /\ func (context item) (question item) = Raise e.
Proof.
  induction items as [| item rest IH]; intros correct saved e H; simpl in H;
    [discriminate H |].
  destruct (func (context item) (question item)) as [c | e'] eqn:Ef; simpl in H.
  - rewrite saved_pct_Ok in H. simpl in H.
    destruct (IH _ _ _ H) as [it [Hin Hr]]. exists it. split; [right; exact Hin | exact Hr].
  - exists item. split; [left; reflexivity | congruence].
Qed.

Lemma eval_items_total
    (count_tokens : string -> nat) (func : string -> string -> result string)
    (call_openrouter : string -> option string) (items : list Item) :
  Forall (fun item => exists c, func (context item) (question item) = Ok c) items ->
  forall correct saved,
    exists st, eval_items count_tokens func call_openrouter items correct saved = Ok st.
Proof.
  induction 1 as [| item rest [c Hc] _ IH]; intros correct saved; simpl.
  - eexists. reflexivity.
  - rewrite Hc. simpl. rewrite saved_pct_Ok. simpl. apply IH.
Qed.

Lemma eval_items_no_endpoint
    (count_tokens : string -> nat) (func : string -> string -> result string)
    (items : list Item) :
  forall correct saved correct' saved',
    eval_items count_tokens func (fun _ => None) items correct saved
    = Ok (correct', saved') ->
    correct' = correct.
Proof.
  induction items as [| item rest IH]; intros correct saved correct' saved' H;
    simpl in H.
  - injection H as <- _. reflexivity.
  - destruct (func (context item) (question item)) as [c | e]; simpl in H;
      [| discriminate H].
    rewrite saved_pct_Ok in H. simpl in H. apply IH in H. exact H.
Qed.

(** The saved fractions do not depend on the endpoint. *)
Lemma eval_items_endpoint
    (count_tokens : string -> nat) (func : string -> string -> result string)
    (call1 call2 : string -> option string) (items : list Item) :
  forall c1 c2 saved c1' saved',
    eval_items count_tokens func call1 items c1 saved = Ok (c1', saved') ->
    exists c2', eval_items count_tokens func call2 items c2 saved = Ok (c2', saved').
Proof.
  induction items as [| item rest IH]; intros c1 c2 saved c1' saved' H; simpl in H |- *.
  - injection H as _ <-. eexists. reflexivity.
  - destruct (func (context item) (question item)) as [c | e]; simpl in H |- *;
      [| discriminate H].
    rewrite saved_pct_Ok in H |- *. simpl in H |- *.
    eapply IH. exact H.
Qed.

Lemma Forall_firstn {A : Type} (P : A -> Prop) (n : nat) (l : list A) :
  Forall P l -> Forall P (firstn n l).
Proof.
  intros H. rewrite Forall_forall in *. intros x Hx. apply H.
  rewrite <- (firstn_skipn n l). apply in_or_app. left. exact Hx.
Qed.

Lemma firstn_length_firstn {A : Type} (n : nat) (l : list A) :
  firstn (List.length (firstn n l)) l = firstn n l.
Proof.
  rewrite length_firstn.
  destruct (Nat.le_ge_cases n (List.length l)) as [Hle | Hge].
  - rewrite Nat.min_l by exact Hle. reflexivity.
  - rewrite Nat.min_r by exact Hge. rewrite firstn_all.
    symmetry. apply firstn_all2. exact Hge.
Qed.

End EvalFacts.

Module EvalProperties.
Import Py Re Scratch Longbench LongbenchEval SpecMore PyFacts ApiFacts EvalFacts.

Local Open Scope list_scope.

(** X16.  The evaluation of one configuration raises [ZeroDivisionError]
    when no item is left to evaluate, and otherwise fails only with an
    exception of the compression function; when it returns, the accuracy is
    between 0 and 100 and the average reduction at most 100. *)
Theorem eval_config_bounds
    (count_tokens : string -> nat) (func : string -> string -> result string)
    (call_openrouter : string -> option string) (valid_data : list Item) :
  eval_config count_tokens func call_openrouter [] = Raise ZeroDivisionError
  /\ (forall accuracy avg_reduction,
        eval_config count_tokens func call_openrouter valid_data
        = Ok (accuracy, avg_reduction) ->
        0 <= accuracy <= 100 /\ avg_reduction <= 100)
  /\ (forall e,
        eval_config count_tokens func call_openrouter valid_data = Raise e ->
        (valid_data = [] /\ e = ZeroDivisionError)
        \/ exists item, In item valid_data
                        /\ func (context item) (question item) = Raise e)
  /\ (valid_data <> [] ->
      Forall (fun item => exists c, func (context item) (question item) = Ok c)
             valid_data ->
      exists accuracy avg_reduction,
        eval_config count_tokens func call_openrouter valid_data
        = Ok (accuracy, avg_reduction)).
Proof.
  assert (Hn : valid_data <> [] -> 0 < Qofnat (List.length valid_data)).
  { intros Hne. apply Qofnat_pos. destruct valid_data; [congruence | simpl; lia]. }
  split; [reflexivity |]. split; [| split].
  - intros accuracy avg_reduction H. unfold eval_config in H.
    destruct (eval_items count_tokens func call_openrouter valid_data 0 [])
      as [[correct saved] | e] eqn:Ei; simpl in H; [| discriminate H].
    destruct (py_div (Qofnat correct) (Qofnat (List.length valid_data)))
      as [q | e] eqn:Eq; simpl in H; [| discriminate H].
    injection H as <- <-.
    destruct (eval_items_Ok_inv _ _ _ _ _ _ _ _ Ei) as [Hc [new [-> [Hl [Hf _]]]]].
    simpl in Hc |- *.
    unfold py_div in Eq.
    destruct (Qeq_bool (Qofnat (List.length valid_data)) 0) eqn:Ez; [discriminate Eq |].
    injection Eq as <-.
    assert (Hne : valid_data <> []).
    { intros ->. simpl in Ez. discriminate Ez. }
    specialize (Hn Hne).
    assert (Hq0 : 0 <= Qofnat correct / Qofnat (List.length valid_data)).
    { unfold Qdiv. apply Qmult_le_0_compat; [apply Qofnat_nonneg |].
      apply Qinv_le_0_compat. lra. }
    assert (Hq1 : Qofnat correct / Qofnat (List.length valid_data) <= 1).
    { apply Qle_shift_div_r; [exact Hn |].
      assert (Qofnat correct <= Qofnat (List.length valid_data))
        by (apply Qofnat_le; lia).
      lra. }
    pose proof (np_mean_le_1 new Hf). lra.
  - intros e H. unfold eval_config in H.
    apply bind_Raise in H. destruct H as [H | [[correct saved] [Hi H]]].
    + right. eapply eval_items_Raise. exact H.
    + apply bind_Raise in H. destruct H as [H | [q [_ H]]]; [| discriminate H].
      apply ScoreTokensFacts.py_div_Raise in H. destruct H as [-> Hz].
      destruct valid_data as [| item rest]; [left; split; reflexivity |].
      exfalso. assert (0 < Qofnat (List.length (item :: rest))) by (apply Hn; discriminate).
      lra.
  - intros Hne Hf. unfold eval_config.
    destruct (eval_items_total count_tokens func call_openrouter valid_data Hf 0 [])
      as [[correct saved] ->].
    simpl. rewrite ScoreTokensFacts.py_div_Ok; [| specialize (Hn Hne); lra].
    simpl. eexists. eexists. reflexivity.
Qed.

(** X17.  An item whose endpoint call raises counts as wrong and does not
    end the evaluation: with an endpoint that always raises the accuracy is
    0, and the average reduction is that of the evaluation with any other
    endpoint. *)
Theorem endpoint_failures_count_as_wrong
    (count_tokens : string -> nat) (func : string -> string -> result string)
    (call_openrouter : string -> option string) (valid_data : list Item)
    (accuracy avg_reduction : Q) :
  eval_config count_tokens func call_openrouter valid_data
  = Ok (accuracy, avg_reduction) ->
  exists accuracy0,
    eval_config count_tokens func (fun _ => None) valid_data
    = Ok (accuracy0, avg_reduction)
    /\ accuracy0 == 0.
Proof.
  unfold eval_config. intros H.
  destruct (eval_items count_tokens func call_openrouter valid_data 0 [])
    as [[correct saved] | e] eqn:Ei; simpl in H; [| discriminate H].
  destruct (py_div (Qofnat correct) (Qofnat (List.length valid_data)))
    as [q | e] eqn:Eq; simpl in H; [| discriminate H].
  injection H as <- <-.
  destruct (eval_items_endpoint count_tokens func call_openrouter (fun _ => None)
              valid_data _ 0%nat _ _ _ Ei) as [c0 E0].
  rewrite E0. simpl.
  apply eval_items_no_endpoint in E0. subst c0.
  unfold py_div in Eq |- *.
  destruct (Qeq_bool (Qofnat (List.length valid_data)) 0); [discriminate Eq |].
  simpl. eexists. split; [reflexivity |].
  unfold Qdiv. rewrite Qmult_0_l. reflexivity.
Qed.

(** One item, answered correctly by the endpoint. *)
Lemma endpoint_failures_count_as_wrong_witness :
  exists accuracy avg_reduction accuracy0,
    eval_config example_count example_func example_endpoint [example_item]
    = Ok (accuracy, avg_reduction)
    /\ accuracy == 100
    /\ eval_config example_count example_func (fun _ => None) [example_item]
       = Ok (accuracy0, avg_reduction)
    /\ accuracy0 == 0.
Proof.
  match eval vm_compute in
        (eval_config example_count example_func example_endpoint [example_item]) with
  | Ok (?a, ?r) =>
      exists a, r;
      assert (H : eval_config example_count example_func example_endpoint [example_item]
                  = Ok (a, r)) by (vm_compute; reflexivity);
      destruct (endpoint_failures_count_as_wrong _ _ _ _ _ _ H) as [a0 [H0 Hz]];
      exists a0; split; [exact H |]; split; [vm_compute; reflexivity |];
      split; [exact H0 | exact Hz]
  end.
Defined.

(** X18.  The configuration [Baseline], which hands the context on
    unchanged, has the average reduction 0 whenever its evaluation
    returns. *)
Theorem baseline_reduction_is_zero
    (count_tokens : string -> nat) (call_openrouter : string -> option string)
    (valid_data : list Item) (accuracy avg_reduction : Q) :
  eval_config count_tokens baseline call_openrouter valid_data
  = Ok (accuracy, avg_reduction) ->
  avg_reduction == 0.
Proof.
  unfold eval_config. intros H.
  destruct (eval_items count_tokens baseline call_openrouter valid_data 0 [])
    as [[correct saved] | e] eqn:Ei; simpl in H; [| discriminate H].
  destruct (py_div (Qofnat correct) (Qofnat (List.length valid_data)))
    as [q | e]; simpl in H; [| discriminate H].
  injection H as _ <-.
  destruct (eval_items_Ok_inv _ _ _ _ _ _ _ _ Ei) as [_ [new [-> [_ [_ Hm]]]]].
  simpl.
  assert (Hz : Forall (fun v => v == 0) new).
  { clear - Hm. revert new Hm.
    induction valid_data as [| item rest IH]; intros new Hm; simpl in Hm.
    - injection Hm as <-. constructor.
    - destruct (saved_pct (count_tokens (context item)) (count_tokens (context item)))
        as [s |] eqn:Es; simpl in Hm; [| discriminate Hm].
      destruct (mapM _ rest) as [new' |]; simpl in Hm; [| discriminate Hm].
      injection Hm as <-. constructor; [eapply saved_pct_same; exact Es |].
      apply IH. reflexivity. }
  rewrite (np_mean_zero new Hz). reflexivity.
Qed.

(** One item. *)
Lemma baseline_reduction_is_zero_witness :
  exists accuracy avg_reduction,
    eval_config example_count baseline example_endpoint [example_item]
    = Ok (accuracy, avg_reduction)
    /\ avg_reduction == 0.
Proof.
  match eval vm_compute in
        (eval_config example_count baseline example_endpoint [example_item]) with
  | Ok (?a, ?r) =>
      exists a, r;
      assert (H : eval_config example_count baseline example_endpoint [example_item]
                  = Ok (a, r)) by (vm_compute; reflexivity);
      split; [exact H | exact (baseline_reduction_is_zero _ _ _ _ _ H)]
  end.
Defined.

(** X19.  The evaluated items are a prefix of the items within the token
    limit, in the order of the data set.  Without a sample size, and with
    the sample size 0, all of them are evaluated; a positive size [x] takes
    the first [x] (all, when there are fewer); a negative size [-k] drops
    the last [k]. *)
Theorem valid_data_sample
    (count_tokens : string -> nat) (ds : list Item)
    (sample_first_x : option Z) (max_token_limit : Z) :
  let within :=
    filter (fun item =>
              (Z.of_nat (count_tokens (context item)) <=? max_token_limit)%Z) ds in
  let vd := valid_data count_tokens ds sample_first_x max_token_limit in
  vd = firstn (List.length vd) within
  /\ Forall (fun item => (Z.of_nat (count_tokens (context item)) <= max_token_limit)%Z
                         /\ In item ds) vd
  /\ match sample_first_x with
     | None => vd = within
     | Some x =>
         (x = 0%Z -> vd = within)
         /\ ((0 < x)%Z -> List.length vd = Nat.min (Z.to_nat x) (List.length within))
         /\ ((x < 0)%Z -> List.length vd = (List.length within - Z.to_nat (- x))%nat)
     end.
Proof.
  intros within vd.
  assert (Hw : Forall (fun item =>
                         (Z.of_nat (count_tokens (context item)) <= max_token_limit)%Z
                         /\ In item ds) within).
  { apply Forall_forall. intros item Hin. subst within.
    apply filter_In in Hin. destruct Hin as [Hin Hle].
    split; [apply Z.leb_le; exact Hle | exact Hin]. }
  assert (Hv : exists n, vd = firstn n within).
  { subst vd. unfold valid_data. fold within.
    destruct sample_first_x as [x |]; [| exists (List.length within); symmetry; apply firstn_all].
    destruct (x =? 0)%Z; [exists (List.length within); symmetry; apply firstn_all |].
    unfold slice_to. destruct (0 <=? x)%Z; eexists; reflexivity. }
  destruct Hv as [n Hv].
  split; [| split].
  - rewrite Hv. symmetry. apply firstn_length_firstn.
  - rewrite Hv. apply Forall_firstn. exact Hw.
  - subst vd. unfold valid_data. fold within.
    destruct sample_first_x as [x |]; [| reflexivity].
    split; [| split].
    + intros ->. reflexivity.
    + intros Hx. assert ((x =? 0)%Z = false) as -> by (apply Z.eqb_neq; lia).
      unfold slice_to. assert ((0 <=? x)%Z = true) as -> by (apply Z.leb_le; lia).
      apply length_firstn.
    + intros Hx. assert ((x =? 0)%Z = false) as -> by (apply Z.eqb_neq; lia).
      unfold slice_to. assert ((0 <=? x)%Z = false) as -> by (apply Z.leb_gt; lia).
      rewrite length_firstn. lia.
Qed.

End EvalProperties.
